(** * ManimGen backend: code validator, render service, routers

    A shallow embedding of
      - [services/code_validator.py]  (module [Validator]),
      - [services/render_service.py]  (module [RenderService]),
      - [routers/render.py]           (modules [Render], [RenderStatus]),
      - [routers/projects.py]         (module [Projects]),
      - [routers/scenes.py]           (modules [Scenes], [SceneRoutes]),
      - [routers/audio.py]            (module [Audio]),
      - [services/llm_service.py]     (module [LLM]),
    and of the routers on one state (module [App]), together with the
    properties of the render orchestration that the specification states
    about them and further properties of the services and routers.

    Python [str] values are Rocq strings, one [ascii] per code point (code
    points 0..255).  Dictionaries keyed by id are [gmap string _].  The
    external programs (manim, ffmpeg, ffprobe), the Python parser and the
    regular-expression engine are oracles: records of functions that the
    embedded code calls and whose answers it inspects exactly where the
    source does. *)

From Stdlib Require Import Ascii String ZArith Lia.
From Stdlib Require Import Floats.SpecFloat.
From stdpp Require Import gmap strings list pretty sorting.

Set Warnings "-register-all,-clear-no-such-hyp".

(** ** Python built-ins used by the source *)

Module Py.

(** [str.isspace] on one code point below 256: TAB..CR, FS..US, space,
    NEL and NBSP. *)
Definition isspace (c : ascii) : bool :=
  let n := Ascii.N_of_ascii c in
  ((9 <=? n) && (n <=? 13) || (28 <=? n) && (n <=? 32)
   || (n =? 133) || (n =? 160))%N.

Fixpoint lstrip (s : string) : string :=
  match s with
  | EmptyString => EmptyString
  | String c s' => if isspace c then lstrip s' else s
  end.

(** [rstrip] keeps a character when it is not white space or when
    something survives after it. *)
Fixpoint rstrip (s : string) : string :=
  match s with
  | EmptyString => EmptyString
  | String c s' =>
      match rstrip s' with
      | EmptyString => if isspace c then EmptyString else String c EmptyString
      | r => String c r
      end
  end.

(** [s.strip()] *)
Definition strip (s : string) : string := rstrip (lstrip s).

(** Truth value of a [str]: [not s] is [negb (truthy s)]. *)
Definition truthy (s : string) : bool :=
  match s with EmptyString => false | _ => true end.

(** Truth value of an [Optional[str]] ([None] and the empty string are false). *)
Definition truthy_opt (o : option string) : bool :=
  match o with Some s => truthy s | None => false end.

(** [sep.join(l)] *)
Definition join (sep : string) (l : list string) : string :=
  String.concat sep l.

(** [str(n)] for an [int]. *)
Definition str_int (n : Z) : string := pretty n.

(** [str(x)] for an [Optional[int]], as an f-string formats it. *)
Definition str_opt_int (o : option Z) : string :=
  match o with Some n => str_int n | None => "None" end.

(** Every character of [s] is white space; used to state what
    [not code.strip()] tests. *)
Fixpoint all_space (s : string) : bool :=
  match s with
  | EmptyString => true
  | String c s' => isspace c && all_space s'
  end.

(** [needle in hay] *)
Fixpoint contains (needle hay : string) : bool :=
  String.prefix needle hay
  || match hay with
     | EmptyString => false
     | String _ hay' => contains needle hay'
     end.

(** A call either returns or raises [Exception(msg)]; [str(e)] is [msg]. *)
Inductive outcome (A : Type) :=
| Return (a : A)
| Raise (msg : string).
Arguments Return {A} a.
Arguments Raise {A} msg.

End Py.

(** ** services/code_validator.py *)

Module Validator.

(** The part of a Python syntax tree that [check_structure] looks at.
    Every statement that is none of the four named kinds is an
    [OtherStmt] carrying the statements nested in it. *)
Inductive expr :=
| Name (id : string)
| OtherExpr.

Inductive stmt :=
| ImportFrom (module : option string)
| Import (names : list string)
| ClassDef (name : string) (bases : list expr) (body : list stmt)
| FunctionDef (name : string) (body : list stmt)
| OtherStmt (body : list stmt).

(** Outcome of [ast.parse(code)]: a module body, [SyntaxError] with its
    [lineno] and [msg], or another exception with its [str(e)]:
    [ValueError] for a source with a NUL character (up to Python 3.11),
    [MemoryError] or [RecursionError] for a source nested too deeply. *)
Inductive parse_result :=
| Parsed (tree : list stmt)
| SyntaxError (lineno : option Z) (msg : string)
| OtherException (e : string).

(** The two library calls the validator makes. *)
Record Lib := {
  ast_parse : string -> parse_result;
  (** [re.search(pattern, code)] is not [None] *)
  re_search : string -> string -> bool;
}.

Definition ALLOWED_IMPORTS : list string :=
  ["manim"; "numpy"; "math"; "random"; "itertools"; "functools"].

(** The raw strings of the source; a backslash is an ordinary character
    of a Rocq string, as it is of a Python raw string. *)
Definition DANGEROUS_PATTERNS : list string :=
  [ "\bos\.";
    "\bsys\.";
    "\bsubprocess\.";
    "\bopen\s*\(";
    "\beval\s*\(";
    "\bexec\s*\(";
    "\bcompile\s*\(";
    "\b__import__\s*\(";
    "\bimport\s+os\b";
    "\bimport\s+sys\b";
    "\bimport\s+subprocess\b";
    "\bfrom\s+os\b";
    "\bfrom\s+sys\b";
    "\bfrom\s+subprocess\b";
    "\bshutil\.";
    "\brequests\.";
    "\burllib\.";
    "\bsocket\.";
    "\bpickle\." ].

(** The [for pattern in ...: if re.search(...): found.append(pattern)]
    loop, over any pattern list. *)
Fixpoint scan_patterns (L : Lib) (patterns : list string) (code : string)
  : list string :=
  match patterns with
  | [] => []
  | pattern :: rest =>
      if re_search L pattern code
      then pattern :: scan_patterns L rest code
      else scan_patterns L rest code
  end.

Definition check_dangerous_patterns (L : Lib) (code : string)
  : bool * list string :=
  let found_patterns := scan_patterns L DANGEROUS_PATTERNS code in
  (Nat.eqb (length found_patterns) 0, found_patterns).

(** [except SyntaxError] catches nothing else: another exception of the
    parser leaves [check_syntax], and with it [validate_manim_code]. *)
Definition check_syntax (L : Lib) (code : string)
  : Py.outcome (bool * string) :=
  match ast_parse L code with
  | Parsed _ => Py.Return (true, EmptyString)
  | SyntaxError lineno msg =>
      Py.Return (false, "Syntax error at line " +:+ Py.str_opt_int lineno
                        +:+ ": " +:+ msg)
  | OtherException e => Py.Raise e
  end.

(** [ast.walk]: every statement of the tree.  [check_structure] only
    computes flags from the nodes, so the order of the walk is not
    observable. *)
Fixpoint walk (s : stmt) : list stmt :=
  s :: match s with
       | ClassDef _ _ body => flat_map walk body
       | FunctionDef _ body => flat_map walk body
       | OtherStmt body => flat_map walk body
       | ImportFrom _ | Import _ => []
       end.

Definition ast_walk (tree : list stmt) : list stmt := flat_map walk tree.

Definition is_manim_import (node : stmt) : bool :=
  match node with
  | ImportFrom module => bool_decide (module = Some "manim")
  | Import names => existsb (fun alias => bool_decide (alias = "manim")) names
  | _ => false
  end.

Definition is_Scene_base (base : expr) : bool :=
  match base with
  | Name id => bool_decide (id = "Scene")
  | OtherExpr => false
  end.

Definition is_construct_def (item : stmt) : bool :=
  match item with
  | FunctionDef name _ => bool_decide (name = "construct")
  | _ => false
  end.

Definition is_scene_class (node : stmt) : bool :=
  match node with
  | ClassDef _ bases _ => existsb is_Scene_base bases
  | _ => false
  end.

Definition is_scene_class_with_construct (node : stmt) : bool :=
  match node with
  | ClassDef _ bases body =>
      existsb is_Scene_base bases && existsb is_construct_def body
  | _ => false
  end.

(** [str(e)] of the [SyntaxError] that [ast.parse] raises (its file name
    is ["<unknown>"]). *)
Definition str_SyntaxError (lineno : option Z) (msg : string) : string :=
  match lineno with
  | Some n => msg +:+ " (<unknown>, line " +:+ Py.str_int n +:+ ")"
  | None => msg +:+ " (<unknown>)"
  end.

Definition check_structure (L : Lib) (code : string) : bool * string :=
  match ast_parse L code with
  | Parsed tree =>
      let nodes := ast_walk tree in
      let has_manim_import := existsb is_manim_import nodes in
      if negb has_manim_import then
        (false, "Code must import from manim (e.g., 'from manim import *')")
      else
        let has_scene_class := existsb is_scene_class nodes in
        let has_construct_method :=
          existsb is_scene_class_with_construct nodes in
        if negb has_scene_class then
          (false, "Code must define a class that inherits from Scene")
        else if negb has_construct_method then
          (false, "Scene class must have a construct method")
        else (true, EmptyString)
  | SyntaxError lineno msg =>
      (false, "Error analyzing code structure: " +:+ str_SyntaxError lineno msg)
  | OtherException e => (false, "Error analyzing code structure: " +:+ e)
  end.

Definition validate_manim_code (L : Lib) (code : string)
  : Py.outcome (bool * string) :=
  if negb (Py.truthy code) || negb (Py.truthy (Py.strip code)) then
    Py.Return (false, "Code is empty")
  else
    match check_syntax L code with
    | Py.Raise e => Py.Raise e
    | Py.Return (is_valid_syntax, syntax_error) =>
    if negb is_valid_syntax then Py.Return (false, syntax_error)
    else
      let '(is_safe, dangerous_patterns) := check_dangerous_patterns L code in
      if negb is_safe then
        Py.Return (false, "Code contains dangerous patterns: "
                          +:+ Py.join ", " dangerous_patterns)
      else
        let '(is_valid_structure, structure_error) := check_structure L code in
        if negb is_valid_structure then Py.Return (false, structure_error)
        else Py.Return (true, EmptyString)
    end.

(** The error taxonomy of the specification, read off the message the
    validator returns. *)
Definition EmptyCode : bool * string := (false, "Code is empty").

Definition SyntaxInvalid (lineno : option Z) (msg : string) : bool * string :=
  (false, "Syntax error at line " +:+ Py.str_opt_int lineno +:+ ": " +:+ msg).

Definition UnsafeConstruct (matched : list string) : bool * string :=
  (false, "Code contains dangerous patterns: " +:+ Py.join ", " matched).

End Validator.

(** ** routers/scenes.py: the scene records *)

Module Scenes.

(** Python [float]: IEEE 754 binary64. *)
Definition float : Type := spec_float.
Definition prec : Z := 53.
Definition emax : Z := 1024.

(** [float(n)] for an [int] below 2^53 in absolute value (exact). *)
Definition float_of_int (n : Z) : float := binary_normalize prec emax n 0 false.

Inductive SceneStatus := pending | generating | rendering | completed | failed.

#[global] Instance SceneStatus_eq_dec : EqDecision SceneStatus.
Proof. solve_decision. Defined.

(** One dictionary of [scenes_db]; [datetime] values are clock readings. *)
Record Scene := {
  id : string;
  project_id : string;
  prompt : string;
  code : option string;
  video_url : option string;
  thumbnail_url : option string;
  duration_seconds : float;
  order_index : Z;
  status : SceneStatus;
  error_message : option string;
  created_at : nat;
  updated_at : nat;
}.

Definition set_status (v : SceneStatus) (s : Scene) : Scene :=
  {| id := id s; project_id := project_id s; prompt := prompt s;
     code := code s; video_url := video_url s;
     thumbnail_url := thumbnail_url s;
     duration_seconds := duration_seconds s; order_index := order_index s;
     status := v; error_message := error_message s;
     created_at := created_at s; updated_at := updated_at s |}.

Definition set_error_message (v : string) (s : Scene) : Scene :=
  {| id := id s; project_id := project_id s; prompt := prompt s;
     code := code s; video_url := video_url s;
     thumbnail_url := thumbnail_url s;
     duration_seconds := duration_seconds s; order_index := order_index s;
     status := status s; error_message := Some v;
     created_at := created_at s; updated_at := updated_at s |}.

Definition set_video_url (v : string) (s : Scene) : Scene :=
  {| id := id s; project_id := project_id s; prompt := prompt s;
     code := code s; video_url := Some v;
     thumbnail_url := thumbnail_url s;
     duration_seconds := duration_seconds s; order_index := order_index s;
     status := status s; error_message := error_message s;
     created_at := created_at s; updated_at := updated_at s |}.

Definition set_thumbnail_url (v : option string) (s : Scene) : Scene :=
  {| id := id s; project_id := project_id s; prompt := prompt s;
     code := code s; video_url := video_url s;
     thumbnail_url := v;
     duration_seconds := duration_seconds s; order_index := order_index s;
     status := status s; error_message := error_message s;
     created_at := created_at s; updated_at := updated_at s |}.

Definition set_duration_seconds (v : float) (s : Scene) : Scene :=
  {| id := id s; project_id := project_id s; prompt := prompt s;
     code := code s; video_url := video_url s;
     thumbnail_url := thumbnail_url s;
     duration_seconds := v; order_index := order_index s;
     status := status s; error_message := error_message s;
     created_at := created_at s; updated_at := updated_at s |}.

Definition set_updated_at (v : nat) (s : Scene) : Scene :=
  {| id := id s; project_id := project_id s; prompt := prompt s;
     code := code s; video_url := video_url s;
     thumbnail_url := thumbnail_url s;
     duration_seconds := duration_seconds s; order_index := order_index s;
     status := status s; error_message := error_message s;
     created_at := created_at s; updated_at := v |}.

End Scenes.

(** ** services/render_service.py *)

Module RenderService.
Import Py Scenes.

(** The literal [5.0]. *)
Definition default_duration : float := float_of_int 5.

(** [os.path.basename]: what follows the last slash. *)
Fixpoint basename_from (cur p : string) : string :=
  match p with
  | EmptyString => cur
  | String c rest =>
      if Ascii.eqb c "/" then basename_from EmptyString rest
      else basename_from (cur +:+ String c EmptyString) rest
  end.

Definition basename (p : string) : string := basename_from EmptyString p.

Fixpoint ends_with_slash (a : string) : bool :=
  match a with
  | EmptyString => false
  | String c EmptyString => Ascii.eqb c "/"
  | String _ rest => ends_with_slash rest
  end.

(** [os.path.join(a, b)] on POSIX. *)
Definition path_join (a b : string) : string :=
  match b with
  | String "/" _ => b
  | _ => if negb (truthy a) || ends_with_slash a then a +:+ b
         else a +:+ "/" +:+ b
  end.

(** The file system and the clock the service runs against.  [files] holds
    the absolute paths that exist; each external program that is run
    advances [clock], so an oracle may answer differently each time. *)
Record World := {
  files : gset string;
  clock : nat;
}.

Definition tick (w : World) : World :=
  {| files := files w; clock := S (clock w) |}.

Definition add_file (path : string) (w : World) : World :=
  {| files := {[ path ]} ∪ files w; clock := clock w |}.

(** [os.path.exists] *)
Definition path_exists (w : World) (path : string) : bool :=
  bool_decide (path ∈ files w).

(** What [process.communicate()] and [process.returncode] give back
    ([stderr] already decoded). *)
Record process_result := {
  returncode : Z;
  stderr : string;
}.

(** Settings and external programs.  [output_dir_abs] and
    [upload_dir_abs] are [os.path.abspath] of [settings.output_dir] and
    [settings.upload_dir]; a relative path of the source under
    [settings.output_dir] names the same file as the absolute one. *)
Record Env := {
  output_dir_abs : string;
  upload_dir_abs : string;
  (** [manim render -ql -o scene_id --media_dir ... scene.py GeneratedScene]
      on the given code: its exit, and whether the walk of the media
      directory then finds an [.mp4] file *)
  manim : World -> string -> string -> process_result * bool;
  (** whether the thumbnail that ffmpeg was asked for is there when
      [render_scene] tests for it *)
  ffmpeg_thumbnail : World -> string -> bool;
  (** [float(stdout.decode().strip())] of ffprobe, [None] when that
      raises *)
  ffprobe_duration : World -> string -> option float;
  (** [ffmpeg -f concat -safe 0 -i files.txt -c copy -y combined.mp4] on
      the given lines of [files.txt] *)
  ffmpeg_concat : World -> list string -> process_result;
  (** [ffmpeg -i combined.mp4 -i audio -c:v copy -c:a aac -shortest -y
      output]: its exit, and whether it wrote the output file *)
  ffmpeg_mux : World -> string -> string -> process_result * bool;
}.

Record render_result := {
  r_video_url : string;
  r_thumbnail_url : option string;
  r_duration : float;
}.

Definition get_video_duration (E : Env) (video_path : string) (w : World)
  : World * float :=
  (tick w, default default_duration (ffprobe_duration E w video_path)).

Definition render_scene (E : Env) (code : option string) (scene_id : string)
    (w : World) : World * outcome render_result :=
  match code with
  | None => (w, Raise "write() argument must be str, not None")
  | Some code =>
      let '(process, video_file) := manim E w code scene_id in
      let w := tick w in
      if negb (returncode process =? 0)%Z then
        let error_msg :=
          if truthy (stderr process) then stderr process
          else "Unknown render error" in
        (w, Raise ("Manim render failed: " +:+ error_msg))
      else if negb video_file then
        (w, Raise "No video file generated")
      else
        let output_filename := scene_id +:+ ".mp4" in
        let output_path := path_join (output_dir_abs E) output_filename in
        let w := add_file output_path w in
        let thumbnail_filename := scene_id +:+ "_thumb.png" in
        let thumbnail_path := path_join (output_dir_abs E) thumbnail_filename in
        let w :=
          if ffmpeg_thumbnail E w output_path
          then add_file thumbnail_path (tick w) else tick w in
        let '(w, duration) := get_video_duration E output_path w in
        (w, Return {| r_video_url := "/outputs/" +:+ output_filename;
                      r_thumbnail_url :=
                        if path_exists w thumbnail_path
                        then Some ("/outputs/" +:+ thumbnail_filename)
                        else None;
                      r_duration := duration |})
  end.

Definition newline : string := String "010"%char EmptyString.

(** The path a scene's [video_url] is looked for at. *)
Definition video_path_of (E : Env) (video_url : string) : string :=
  path_join (output_dir_abs E) (basename video_url).

(** One line of [files.txt]. *)
Definition file_line (video_path : string) : string :=
  "file '" +:+ video_path +:+ "'" +:+ newline.

(** The loop that writes [files.txt]: [f] is what has been written so
    far, one element per [f.write]. *)
Fixpoint write_file_list (E : Env) (w : World) (scenes : list Scene)
    (f : list string) (video_count : nat) : list string * nat :=
  match scenes with
  | [] => (f, video_count)
  | scene :: rest =>
      match video_url scene with
      | Some url =>
          if truthy url then
            let video_path := video_path_of E url in
            if path_exists w video_path
            then write_file_list E w rest (f ++ [file_line video_path])
                                 (S video_count)
            else write_file_list E w rest f video_count
          else write_file_list E w rest f video_count
      | None => write_file_list E w rest f video_count
      end
  end.

Definition compile_project (E : Env) (scenes : list Scene)
    (project_id : string) (audio_url : option string) (w : World)
  : World * outcome string :=
  match scenes with
  | [] => (w, Raise "No scenes to compile")
  | _ =>
      let '(file_list, video_count) := write_file_list E w scenes [] 0 in
      if Nat.eqb video_count 0 then
        (w, Raise "No rendered video files found to compile")
      else
        let output_filename := project_id +:+ "_final.mp4" in
        let output_path := path_join (output_dir_abs E) output_filename in
        let process := ffmpeg_concat E w file_list in
        let w := tick w in
        if negb (returncode process =? 0)%Z then
          (w, Raise ("Video concatenation failed: " +:+ stderr process))
        else
          let w :=
            match audio_url with
            | Some url =>
                if truthy url then
                  let audio_path :=
                    path_join (upload_dir_abs E) (basename url) in
                  if path_exists w audio_path then
                    let '(_, written) :=
                      ffmpeg_mux E w audio_path output_path in
                    if written then add_file output_path (tick w)
                    else tick w
                  else add_file output_path w
                else add_file output_path w
            | None => add_file output_path w
            end in
          (w, Return ("/outputs/" +:+ output_filename))
  end.

(** The error taxonomy of the specification. *)
Definition NoScenes : string := "No scenes to compile".
Definition NoArtifacts : string := "No rendered video files found to compile".

End RenderService.

(** ** routers/render.py *)

Module Render.
Import Py RenderService.
Import Scenes (Scene, SceneStatus, float, float_of_int).

(** The keys of a [projects_db] dictionary that [render.py] reads. *)
Record Project := {
  scenes : list string;
  audio_url : option string;
}.

(** One dictionary of [render_jobs]. *)
Record Job := {
  id : string;
  scene_id : option string;
  project_id : option string;
  status : string;
  progress : Z;
  output_url : option string;
  error_message : option string;
  created_at : nat;
}.

(** An assignment [job[key] = v]. *)
Inductive job_write :=
| SetStatus (v : string)
| SetProgress (v : Z)
| SetOutputUrl (v : string)
| SetErrorMessage (v : string).

Definition apply_write (wr : job_write) (j : Job) : Job :=
  match wr with
  | SetStatus v =>
      {| id := id j; scene_id := scene_id j; project_id := project_id j;
         status := v; progress := progress j; output_url := output_url j;
         error_message := error_message j; created_at := created_at j |}
  | SetProgress v =>
      {| id := id j; scene_id := scene_id j; project_id := project_id j;
         status := status j; progress := v; output_url := output_url j;
         error_message := error_message j; created_at := created_at j |}
  | SetOutputUrl v =>
      {| id := id j; scene_id := scene_id j; project_id := project_id j;
         status := status j; progress := progress j; output_url := Some v;
         error_message := error_message j; created_at := created_at j |}
  | SetErrorMessage v =>
      {| id := id j; scene_id := scene_id j; project_id := project_id j;
         status := status j; progress := progress j;
         output_url := output_url j;
         error_message := Some v; created_at := created_at j |}
  end.

(** What a task does that is visible from outside, in order: job records
    created, job keys assigned, and the awaited calls into the render
    service (the only points where another coroutine can run). *)
Inductive event :=
| JobCreated (job_id : string) (j : Job)
| JobWrite (job_id : string) (wr : job_write)
| RenderSceneCall (code : option string) (scene_id : string)
| CompileProjectCall (scenes : list Scene) (project_id : string)
                     (audio_url : option string).

(** The module-level dictionaries, the world outside, and the events so
    far. *)
Record State := {
  render_jobs : gmap string Job;
  scenes_db : gmap string Scene;
  projects_db : gmap string Project;
  world : World;
  trace : list event;
}.

Definition emit (e : event) (σ : State) : State :=
  {| render_jobs := render_jobs σ; scenes_db := scenes_db σ;
     projects_db := projects_db σ; world := world σ;
     trace := trace σ ++ [e] |}.

(** [job[key] = v] on the dictionary [render_jobs[job_id]]. *)
Definition write_job (job_id : string) (wr : job_write) (σ : State) : State :=
  emit (JobWrite job_id wr)
    {| render_jobs := alter (apply_write wr) job_id (render_jobs σ);
       scenes_db := scenes_db σ; projects_db := projects_db σ;
       world := world σ; trace := trace σ |}.

(** [scene[key] = v] on the dictionary [scenes_db[ref]]. *)
Definition write_scene (ref : string) (f : Scene -> Scene) (σ : State)
  : State :=
  {| render_jobs := render_jobs σ;
     scenes_db := alter f ref (scenes_db σ);
     projects_db := projects_db σ; world := world σ; trace := trace σ |}.

Definition set_world (w : World) (σ : State) : State :=
  {| render_jobs := render_jobs σ; scenes_db := scenes_db σ;
     projects_db := projects_db σ; world := w; trace := trace σ |}.

(** [datetime.utcnow()] *)
Definition utcnow (σ : State) : nat := clock (world σ).

(** [await render_scene(code, scene_id)] *)
Definition await_render_scene (E : Env) (code : option string)
    (scene_id : string) (σ : State) : State * outcome render_result :=
  let σ := emit (RenderSceneCall code scene_id) σ in
  let '(w, r) := render_scene E code scene_id (world σ) in
  (set_world w σ, r).

(** [await compile_project(scenes=..., project_id=..., audio_url=...)] *)
Definition await_compile_project (E : Env) (scenes : list Scene)
    (project_id : string) (audio_url : option string) (σ : State)
  : State * outcome string :=
  let σ := emit (CompileProjectCall scenes project_id audio_url) σ in
  let '(w, r) := compile_project E scenes project_id audio_url (world σ) in
  (set_world w σ, r).

(** The assignments to the scene after a successful render. *)
Definition store_render_result (ref : string) (result : render_result)
    (σ : State) : State :=
  let σ := write_scene ref (Scenes.set_video_url (r_video_url result)) σ in
  let σ := write_scene ref (Scenes.set_thumbnail_url (r_thumbnail_url result)) σ in
  let σ := write_scene ref (Scenes.set_duration_seconds (r_duration result)) σ in
  let σ := write_scene ref (Scenes.set_status Scenes.completed) σ in
  write_scene ref (Scenes.set_updated_at (utcnow σ)) σ.

(** The [except Exception as e] block shared by the three tasks. *)
Definition job_failed (job_id : string) (e : string) (σ : State) : State :=
  let σ := write_job job_id (SetStatus "failed") σ in
  write_job job_id (SetErrorMessage e) σ.

(** The three assignments that end a task's [try] block. *)
Definition job_completed (job_id : string) (video_url : string) (σ : State)
  : State :=
  let σ := write_job job_id (SetProgress 100) σ in
  let σ := write_job job_id (SetStatus "completed") σ in
  write_job job_id (SetOutputUrl video_url) σ.

(** [KeyError] of a dictionary lookup outside any [try]. *)
Definition KeyError (key : string) : string := "'" +:+ key +:+ "'".

Definition process_render (E : Env) (job_id scene_id : string) (σ : State)
  : State * outcome unit :=
  match render_jobs σ !! job_id with
  | None => (σ, Raise (KeyError job_id))
  | Some _ =>
  match scenes_db σ !! scene_id with
  | None => (σ, Raise (KeyError scene_id))
  | Some scene =>
      let σ := write_job job_id (SetStatus "rendering") σ in
      let σ := write_job job_id (SetProgress 10) σ in
      let σ := write_scene scene_id (Scenes.set_status Scenes.rendering) σ in
      let '(σ, r) := await_render_scene E (Scenes.code scene) scene_id σ in
      match r with
      | Return result =>
          let σ := job_completed job_id (r_video_url result) σ in
          (store_render_result scene_id result σ, Return ())
      | Raise e =>
          let σ := job_failed job_id e σ in
          let σ := write_scene scene_id (Scenes.set_status Scenes.failed) σ in
          let σ := write_scene scene_id (Scenes.set_error_message e) σ in
          let σ := write_scene scene_id (Scenes.set_updated_at (utcnow σ)) σ in
          (σ, Return ())
      end
  end
  end.

(** [scenes.sort(key=lambda s: s["order_index"])]: a stable sort; the
    list holds references into [scenes_db]. *)
Definition order_index_of (db : gmap string Scene) (ref : string) : Z :=
  match db !! ref with Some s => Scenes.order_index s | None => 0%Z end.

Fixpoint insert_sorted (db : gmap string Scene) (x : string)
    (l : list string) : list string :=
  match l with
  | [] => [x]
  | y :: l' =>
      if (order_index_of db x <=? order_index_of db y)%Z then x :: y :: l'
      else y :: insert_sorted db x l'
  end.

Fixpoint sort_by_order_index (db : gmap string Scene) (l : list string)
  : list string :=
  match l with
  | [] => []
  | x :: l' => insert_sorted db x (sort_by_order_index db l')
  end.

(** [[scenes_db[sid] for sid in scene_ids if sid in scenes_db]], sorted:
    the dictionaries are shared with [scenes_db], so the list is kept as
    references. *)
Definition project_scenes (σ : State) (project : Project) : list string :=
  sort_by_order_index (scenes_db σ)
    (List.filter (fun sid => bool_decide (is_Some (scenes_db σ !! sid)))
                 (scenes project)).

(** The dictionaries the references stand for, as they are now. *)
Definition deref (σ : State) (refs : list string) : list Scene :=
  omap (fun ref => scenes_db σ !! ref) refs.

Definition process_export (E : Env) (job_id project_id : string) (σ : State)
  : State * outcome unit :=
  match render_jobs σ !! job_id with
  | None => (σ, Raise (KeyError job_id))
  | Some _ =>
  match projects_db σ !! project_id with
  | None => (σ, Raise (KeyError project_id))
  | Some project =>
      let σ := write_job job_id (SetStatus "compiling") σ in
      let σ := write_job job_id (SetProgress 10) σ in
      let scenes := deref σ (project_scenes σ project) in
      let '(σ, r) :=
        await_compile_project E scenes project_id (audio_url project) σ in
      match r with
      | Return video_url => (job_completed job_id video_url σ, Return ())
      | Raise e => (job_failed job_id e σ, Return ())
      end
  end
  end.

(** [int(x)]: truncation toward zero of a finite float. *)
Definition int_of_float (x : float) : Z :=
  match x with
  | S754_finite s m e =>
      let a := if (0 <=? e)%Z then (Z.pos m * 2 ^ e)%Z
               else (Z.pos m / 2 ^ (- e))%Z in
      if s then (- a)%Z else a
  | _ => 0%Z
  end.

(** [int((i / total_scenes) * 80)], in binary64 arithmetic. *)
Definition render_progress (i total_scenes : nat) : Z :=
  int_of_float
    (SFmul Scenes.prec Scenes.emax
       (SFdiv Scenes.prec Scenes.emax
          (float_of_int (Z.of_nat i)) (float_of_int (Z.of_nat total_scenes)))
       (float_of_int 80)).

Definition str_nat (n : nat) : string := str_int (Z.of_nat n).

(** Phase 1, [for i, scene in enumerate(scenes)], from index [i] on.  A
    reference always finds its dictionary (nothing here deletes one); a
    lookup that failed would raise. *)
Fixpoint render_each (E : Env) (job_id : string) (total_scenes i : nat)
    (scenes : list string) (σ : State) : State * outcome unit :=
  match scenes with
  | [] => (σ, Return ())
  | ref :: rest =>
      match scenes_db σ !! ref with
      | None => (σ, Raise (KeyError ref))
      | Some scene =>
          let scene_id := Scenes.id scene in
          let σ := write_job job_id
                     (SetStatus ("Rendering scene " +:+ str_nat (i + 1)
                                 +:+ "/" +:+ str_nat total_scenes)) σ in
          let σ := write_job job_id
                     (SetProgress (render_progress i total_scenes)) σ in
          if negb (bool_decide (Scenes.status scene = Scenes.completed))
             || negb (truthy_opt (Scenes.video_url scene))
          then
            let σ := write_scene ref (Scenes.set_status Scenes.rendering) σ in
            let '(σ, r) :=
              await_render_scene E (Scenes.code scene) scene_id σ in
            match r with
            | Return result =>
                render_each E job_id total_scenes (S i) rest
                  (store_render_result ref result σ)
            | Raise e =>
                let σ := write_scene ref (Scenes.set_status Scenes.failed) σ in
                let σ := write_scene ref (Scenes.set_error_message e) σ in
                (σ, Raise ("Failed to render scene " +:+ str_nat (i + 1)
                           +:+ ": " +:+ e))
            end
          else render_each E job_id total_scenes (S i) rest σ
      end
  end.

Definition process_render_all_and_combine (E : Env)
    (job_id project_id : string) (σ : State) : State * outcome unit :=
  match render_jobs σ !! job_id with
  | None => (σ, Raise (KeyError job_id))
  | Some _ =>
  match projects_db σ !! project_id with
  | None => (σ, Raise (KeyError project_id))
  | Some project =>
      let scenes := project_scenes σ project in
      let total_scenes := length scenes in
      let '(σ, r) := render_each E job_id total_scenes 0 scenes σ in
      match r with
      | Raise e => (job_failed job_id e σ, Return ())
      | Return _ =>
          let σ := write_job job_id (SetStatus "Combining scenes") σ in
          let σ := write_job job_id (SetProgress 85) σ in
          let '(σ, r) :=
            await_compile_project E (deref σ scenes) project_id
                                  (audio_url project) σ in
          match r with
          | Return video_url => (job_completed job_id video_url σ, Return ())
          | Raise e => (job_failed job_id e σ, Return ())
          end
      end
  end
  end.

(** *** The submission endpoints *)

(** [background_tasks.add_task(f, job_id, x)]: the task runs after the
    response has been produced. *)
Inductive background_task :=
| ProcessRender (job_id scene_id : string)
| ProcessExport (job_id project_id : string)
| ProcessRenderAllAndCombine (job_id project_id : string).

Definition run_task (E : Env) (t : background_task) (σ : State)
  : State * outcome unit :=
  match t with
  | ProcessRender job_id scene_id => process_render E job_id scene_id σ
  | ProcessExport job_id project_id => process_export E job_id project_id σ
  | ProcessRenderAllAndCombine job_id project_id =>
      process_render_all_and_combine E job_id project_id σ
  end.

Record RenderResponse := {
  success : bool;
  data : option Job;
  message : option string;
}.

(** An endpoint raises [HTTPException] or returns its response, having
    scheduled a task. *)
Inductive reply :=
| HTTPException (status_code : Z) (detail : string)
| Accepted (response : RenderResponse) (task : background_task).

(** [render_jobs[job_id] = job] *)
Definition create_job (job_id : string) (job : Job) (σ : State) : State :=
  emit (JobCreated job_id job)
    {| render_jobs := <[job_id := job]> (render_jobs σ);
       scenes_db := scenes_db σ; projects_db := projects_db σ;
       world := world σ; trace := trace σ |}.

(** [job_id] is the value of [str(uuid.uuid4())]. *)
Definition render_single_scene (scene_id : string) (job_id : string)
    (σ : State) : State * reply :=
  match scenes_db σ !! scene_id with
  | None => (σ, HTTPException 404 "Scene not found")
  | Some scene =>
      if negb (truthy_opt (Scenes.code scene)) then
        (σ, HTTPException 400 "Scene has no code to render")
      else
        let job := {| id := job_id; scene_id := Some scene_id;
                      project_id := Some (Scenes.project_id scene);
                      status := "pending"; progress := 0;
                      output_url := None; error_message := None;
                      created_at := utcnow σ |} in
        (create_job job_id job σ,
         Accepted {| success := true; data := Some job;
                     message := Some "Render job started" |}
                  (ProcessRender job_id scene_id))
  end.

(** The loop [for sid in scene_ids] of [export_project]: the first
    scene that is in [scenes_db] and not completed. *)
Fixpoint first_not_rendered (db : gmap string Scene) (scene_ids : list string)
  : option string :=
  match scene_ids with
  | [] => None
  | sid :: rest =>
      match db !! sid with
      | Some scene =>
          if negb (bool_decide (Scenes.status scene = Scenes.completed))
          then Some sid
          else first_not_rendered db rest
      | None => first_not_rendered db rest
      end
  end.

Definition export_project (project_id : string) (job_id : string)
    (σ : State) : State * reply :=
  match projects_db σ !! project_id with
  | None => (σ, HTTPException 404 "Project not found")
  | Some project =>
      let scene_ids := scenes project in
      match scene_ids with
      | [] => (σ, HTTPException 400 "Project has no scenes")
      | _ =>
          match first_not_rendered (scenes_db σ) scene_ids with
          | Some sid =>
              (σ, HTTPException 400
                    ("Scene " +:+ sid +:+ " is not rendered yet"))
          | None =>
              let job := {| id := job_id; scene_id := None;
                            project_id := Some project_id;
                            status := "pending"; progress := 0;
                            output_url := None; error_message := None;
                            created_at := utcnow σ |} in
              (create_job job_id job σ,
               Accepted {| success := true; data := Some job;
                           message := Some "Export job started" |}
                        (ProcessExport job_id project_id))
          end
      end
  end.

(** The loop of [render_all_and_combine]: the first scene that is in
    [scenes_db] and has no code, with the name the error gives it,
    [scene.get('prompt', sid)]. *)
Fixpoint first_without_code (db : gmap string Scene) (scene_ids : list string)
  : option string :=
  match scene_ids with
  | [] => None
  | sid :: rest =>
      match db !! sid with
      | Some scene =>
          if negb (truthy_opt (Scenes.code scene))
          then Some (Scenes.prompt scene)
          else first_without_code db rest
      | None => first_without_code db rest
      end
  end.

Definition render_all_and_combine (project_id : string) (job_id : string)
    (σ : State) : State * reply :=
  match projects_db σ !! project_id with
  | None => (σ, HTTPException 404 "Project not found")
  | Some project =>
      let scene_ids := scenes project in
      match scene_ids with
      | [] => (σ, HTTPException 400 "Project has no scenes to render")
      | _ =>
          match first_without_code (scenes_db σ) scene_ids with
          | Some name =>
              (σ, HTTPException 400 ("Scene '" +:+ name +:+ "' has no code"))
          | None =>
              let job := {| id := job_id; scene_id := None;
                            project_id := Some project_id;
                            status := "pending"; progress := 0;
                            output_url := None; error_message := None;
                            created_at := utcnow σ |} in
              (create_job job_id job σ,
               Accepted {| success := true; data := Some job;
                           message :=
                             Some ("Started rendering "
                                   +:+ str_nat (length scene_ids)
                                   +:+ " scenes") |}
                        (ProcessRenderAllAndCombine job_id project_id))
          end
      end
  end.

(** *** Reading a trace *)

(** The values the key [progress] of job [job_id] takes, in order. *)
Definition progress_of_event (job_id : string) (e : event) : option Z :=
  match e with
  | JobCreated j job =>
      if bool_decide (j = job_id) then Some (progress job) else None
  | JobWrite j (SetProgress v) =>
      if bool_decide (j = job_id) then Some v else None
  | _ => None
  end.

Definition progress_values (job_id : string) (t : list event) : list Z :=
  omap (progress_of_event job_id) t.

(** The assignments to keys of job [job_id], in order. *)
Definition write_of_event (job_id : string) (e : event) : option job_write :=
  match e with
  | JobWrite j wr => if bool_decide (j = job_id) then Some wr else None
  | _ => None
  end.

Definition job_writes (job_id : string) (t : list event) : list job_write :=
  omap (write_of_event job_id) t.

Definition is_compile_call (e : event) : bool :=
  match e with CompileProjectCall _ _ _ => true | _ => false end.

(** [status] values after which the specification allows no change. *)
Definition terminal (status : string) : bool :=
  bool_decide (status = "completed") || bool_decide (status = "failed").

End Render.

(** ** More Python built-ins, used by the routers and the LLM service *)

Module PyStr.
Import Py.

(** [str.lower] on one code point below 256: A..Z and the capital letters
    of Latin-1 move up by 32, everything else stays. *)
Definition lower_char (c : ascii) : ascii :=
  let n := Ascii.N_of_ascii c in
  if ((65 <=? n) && (n <=? 90) || (192 <=? n) && (n <=? 214)
      || (216 <=? n) && (n <=? 222))%N
  then Ascii.ascii_of_N (n + 32) else c.

Fixpoint lower (s : string) : string :=
  match s with
  | EmptyString => EmptyString
  | String c s' => String (lower_char c) (lower s')
  end.

(** [s.split()]: the maximal runs of characters that are not white
    space; [cur] is the run being read. *)
Fixpoint split_from (cur s : string) : list string :=
  match s with
  | EmptyString => if truthy cur then [cur] else []
  | String c s' =>
      if isspace c then
        if truthy cur then cur :: split_from EmptyString s'
        else split_from EmptyString s'
      else split_from (cur +:+ String c EmptyString) s'
  end.

Definition split (s : string) : list string := split_from EmptyString s.

(** [l[:n]] for an [int] [n]: a negative [n] counts from the end. *)
Definition slice_to {A} (n : Z) (l : list A) : list A :=
  if (n <? 0)%Z then take (Z.to_nat (Z.of_nat (length l) + n)) l
  else take (Z.to_nat n) l.

(** [l.remove(x)] when [x in l]: the first occurrence goes. *)
Fixpoint remove (x : string) (l : list string) : list string :=
  match l with
  | [] => []
  | y :: l' => if bool_decide (y = x) then l' else y :: remove x l'
  end.

(** [s.rfind(c)]: the index of the last [c], or -1. *)
Fixpoint rfind_from (c : ascii) (s : string) (i found : Z) : Z :=
  match s with
  | EmptyString => found
  | String d s' =>
      rfind_from c s' (i + 1) (if Ascii.eqb d c then i else found)
  end.

Definition rfind (c : ascii) (s : string) : Z := rfind_from c s 0 (-1).

(** [s[i:]] *)
Fixpoint drop_chars (i : nat) (s : string) : string :=
  match i, s with
  | O, _ => s
  | S i', String _ s' => drop_chars i' s'
  | S _, EmptyString => EmptyString
  end.

Fixpoint has_non_dot (s : string) : bool :=
  match s with
  | EmptyString => false
  | String c s' => negb (Ascii.eqb c ".") || has_non_dot s'
  end.

(** [os.path.splitext(p)[1]] on POSIX: what starts at the last dot, when
    that dot comes after the last slash and after some character of the
    file name that is not a dot. *)
Definition splitext_ext (p : string) : string :=
  let sepIndex := rfind "/" p in
  let dotIndex := rfind "." p in
  if (sepIndex <? dotIndex)%Z then
    let filenameIndex := (sepIndex + 1)%Z in
    if has_non_dot (substring (Z.to_nat filenameIndex)
                              (Z.to_nat (dotIndex - filenameIndex)) p)
    then drop_chars (Z.to_nat dotIndex) p
    else EmptyString
  else EmptyString.

End PyStr.

(** ** routers/projects.py *)

Module Projects.
Import Py RenderService.

(** The pydantic model [Project]: the keys of a [projects_db] dictionary
    other than ["scenes"]. *)
Record Project := {
  id : string;
  name : string;
  description : option string;
  created_at : nat;
  updated_at : nat;
  scene_count : Z;
  audio_url : option string;
}.

(** One dictionary of [projects_db]: the keys of the model and the
    list under ["scenes"]. *)
Record ProjectDict := {
  fields : Project;
  scenes : list string;
}.

Definition set_name (v : string) (p : ProjectDict) : ProjectDict :=
  {| fields := {| id := id (fields p); name := v;
                  description := description (fields p);
                  created_at := created_at (fields p);
                  updated_at := updated_at (fields p);
                  scene_count := scene_count (fields p);
                  audio_url := audio_url (fields p) |};
     scenes := scenes p |}.

Definition set_description (v : string) (p : ProjectDict) : ProjectDict :=
  {| fields := {| id := id (fields p); name := name (fields p);
                  description := Some v;
                  created_at := created_at (fields p);
                  updated_at := updated_at (fields p);
                  scene_count := scene_count (fields p);
                  audio_url := audio_url (fields p) |};
     scenes := scenes p |}.

Definition set_updated_at (v : nat) (p : ProjectDict) : ProjectDict :=
  {| fields := {| id := id (fields p); name := name (fields p);
                  description := description (fields p);
                  created_at := created_at (fields p);
                  updated_at := v;
                  scene_count := scene_count (fields p);
                  audio_url := audio_url (fields p) |};
     scenes := scenes p |}.

Definition set_scene_count (v : Z) (p : ProjectDict) : ProjectDict :=
  {| fields := {| id := id (fields p); name := name (fields p);
                  description := description (fields p);
                  created_at := created_at (fields p);
                  updated_at := updated_at (fields p);
                  scene_count := v;
                  audio_url := audio_url (fields p) |};
     scenes := scenes p |}.

Definition set_audio_url (v : option string) (p : ProjectDict) : ProjectDict :=
  {| fields := {| id := id (fields p); name := name (fields p);
                  description := description (fields p);
                  created_at := created_at (fields p);
                  updated_at := updated_at (fields p);
                  scene_count := scene_count (fields p);
                  audio_url := v |};
     scenes := scenes p |}.

Definition set_scenes (v : list string) (p : ProjectDict) : ProjectDict :=
  {| fields := fields p; scenes := v |}.

(** The dictionaries [projects_db] (this file) and [scenes_db]
    (routers/scenes.py), and the world outside: the files and the clock. *)
Record Store := {
  projects_db : gmap string ProjectDict;
  scenes_db : gmap string Scenes.Scene;
  world : World;
}.

Definition set_projects_db (m : gmap string ProjectDict) (st : Store) : Store :=
  {| projects_db := m; scenes_db := scenes_db st; world := world st |}.

Definition set_scenes_db (m : gmap string Scenes.Scene) (st : Store) : Store :=
  {| projects_db := projects_db st; scenes_db := m; world := world st |}.

Definition set_world (w : World) (st : Store) : Store :=
  {| projects_db := projects_db st; scenes_db := scenes_db st; world := w |}.

(** [project[key] = v] on the dictionary [projects_db[project_id]]. *)
Definition write_project (project_id : string)
    (f : ProjectDict -> ProjectDict) (st : Store) : Store :=
  set_projects_db (alter f project_id (projects_db st)) st.

(** [datetime.utcnow()] *)
Definition utcnow (st : Store) : nat := clock (world st).

(** The response models [ProjectResponse], [SceneResponse] and the
    like; a plain dictionary with the keys [success] and [message] is a
    response without data. *)
Record Response (A : Type) := {
  success : bool;
  data : option A;
  message : option string;
}.
Arguments success {A} _.
Arguments data {A} _.
Arguments message {A} _.

(** An endpoint raises [HTTPException] or returns its response. *)
Inductive reply (A : Type) :=
| HTTPException (status_code : Z) (detail : string)
| Returns (response : Response A).
Arguments HTTPException {A} status_code detail.
Arguments Returns {A} response.

(** [project_id] is the value of [str(uuid.uuid4())]. *)
Definition create_project (name : string) (description : option string)
    (project_id : string) (st : Store) : Store * reply Project :=
  let now := utcnow st in
  let new_project :=
    {| fields := {| id := project_id; name := name;
                    description := description;
                    created_at := now; updated_at := now;
                    scene_count := 0; audio_url := None |};
       scenes := [] |} in
  (set_projects_db (<[project_id := new_project]> (projects_db st)) st,
   Returns {| success := true; data := Some (fields new_project);
              message := Some "Project created successfully" |}).

Definition get_project (project_id : string) (st : Store)
  : Store * reply Project :=
  match projects_db st !! project_id with
  | None => (st, HTTPException 404 "Project not found")
  | Some project =>
      (st, Returns {| success := true; data := Some (fields project);
                      message := None |})
  end.

(** [update.name] and [update.description] are [None] when the request
    leaves them out. *)
Definition update_project (project_id : string)
    (name description : option string) (st : Store)
  : Store * reply Project :=
  match projects_db st !! project_id with
  | None => (st, HTTPException 404 "Project not found")
  | Some _ =>
      let st := match name with
                | Some v => write_project project_id (set_name v) st
                | None => st
                end in
      let st := match description with
                | Some v => write_project project_id (set_description v) st
                | None => st
                end in
      let st := write_project project_id (set_updated_at (utcnow st)) st in
      (st, Returns {| success := true;
                      data := fields <$> projects_db st !! project_id;
                      message := Some "Project updated successfully" |})
  end.

Definition delete_project (project_id : string) (st : Store)
  : Store * reply unit :=
  match projects_db st !! project_id with
  | None => (st, HTTPException 404 "Project not found")
  | Some _ =>
      (set_projects_db (delete project_id (projects_db st)) st,
       Returns {| success := true; data := None;
                  message := Some "Project deleted successfully" |})
  end.

End Projects.

(** ** routers/scenes.py: the endpoints *)

Module SceneRoutes.
Import Py PyStr RenderService Projects.
Import Scenes (Scene, SceneStatus).

Definition set_prompt (v : string) (s : Scene) : Scene :=
  {| Scenes.id := Scenes.id s; Scenes.project_id := Scenes.project_id s;
     Scenes.prompt := v;
     Scenes.code := Scenes.code s; Scenes.video_url := Scenes.video_url s;
     Scenes.thumbnail_url := Scenes.thumbnail_url s;
     Scenes.duration_seconds := Scenes.duration_seconds s;
     Scenes.order_index := Scenes.order_index s;
     Scenes.status := Scenes.status s;
     Scenes.error_message := Scenes.error_message s;
     Scenes.created_at := Scenes.created_at s;
     Scenes.updated_at := Scenes.updated_at s |}.

Definition set_code (v : string) (s : Scene) : Scene :=
  {| Scenes.id := Scenes.id s; Scenes.project_id := Scenes.project_id s;
     Scenes.prompt := Scenes.prompt s;
     Scenes.code := Some v; Scenes.video_url := Scenes.video_url s;
     Scenes.thumbnail_url := Scenes.thumbnail_url s;
     Scenes.duration_seconds := Scenes.duration_seconds s;
     Scenes.order_index := Scenes.order_index s;
     Scenes.status := Scenes.status s;
     Scenes.error_message := Scenes.error_message s;
     Scenes.created_at := Scenes.created_at s;
     Scenes.updated_at := Scenes.updated_at s |}.

Definition set_order_index (v : Z) (s : Scene) : Scene :=
  {| Scenes.id := Scenes.id s; Scenes.project_id := Scenes.project_id s;
     Scenes.prompt := Scenes.prompt s;
     Scenes.code := Scenes.code s; Scenes.video_url := Scenes.video_url s;
     Scenes.thumbnail_url := Scenes.thumbnail_url s;
     Scenes.duration_seconds := Scenes.duration_seconds s;
     Scenes.order_index := v;
     Scenes.status := Scenes.status s;
     Scenes.error_message := Scenes.error_message s;
     Scenes.created_at := Scenes.created_at s;
     Scenes.updated_at := Scenes.updated_at s |}.

(** [scene["video_url"] = None] *)
Definition clear_video_url (s : Scene) : Scene :=
  {| Scenes.id := Scenes.id s; Scenes.project_id := Scenes.project_id s;
     Scenes.prompt := Scenes.prompt s;
     Scenes.code := Scenes.code s; Scenes.video_url := None;
     Scenes.thumbnail_url := Scenes.thumbnail_url s;
     Scenes.duration_seconds := Scenes.duration_seconds s;
     Scenes.order_index := Scenes.order_index s;
     Scenes.status := Scenes.status s;
     Scenes.error_message := Scenes.error_message s;
     Scenes.created_at := Scenes.created_at s;
     Scenes.updated_at := Scenes.updated_at s |}.

(** [scene["error_message"] = None] *)
Definition clear_error_message (s : Scene) : Scene :=
  {| Scenes.id := Scenes.id s; Scenes.project_id := Scenes.project_id s;
     Scenes.prompt := Scenes.prompt s;
     Scenes.code := Scenes.code s; Scenes.video_url := Scenes.video_url s;
     Scenes.thumbnail_url := Scenes.thumbnail_url s;
     Scenes.duration_seconds := Scenes.duration_seconds s;
     Scenes.order_index := Scenes.order_index s;
     Scenes.status := Scenes.status s;
     Scenes.error_message := None;
     Scenes.created_at := Scenes.created_at s;
     Scenes.updated_at := Scenes.updated_at s |}.

(** [scene[key] = v] on the dictionary [scenes_db[scene_id]]. *)
Definition write_scene (scene_id : string) (f : Scene -> Scene) (st : Store)
  : Store :=
  set_scenes_db (alter f scene_id (scenes_db st)) st.

(** [project["scenes"].append(scene_id)] *)
Definition append_scene (scene_id : string) (p : ProjectDict) : ProjectDict :=
  set_scenes (scenes p ++ [scene_id]) p.

(** [project["scene_count"] = len(project["scenes"])] *)
Definition count_scenes (p : ProjectDict) : ProjectDict :=
  set_scene_count (Z.of_nat (length (scenes p))) p.

(** [len(project.get("scenes", []))] for the dictionary
    [projects_db[project_id]]. *)
Definition scenes_len (project_id : string) (st : Store) : nat :=
  match projects_db st !! project_id with
  | Some project => length (scenes project)
  | None => 0
  end.

Section WithLLM.

(** The two functions imported from [services.llm_service]:
    [await generate_manim_code(prompt)], which may run for a while and
    raise, and [get_multi_scene_codes(prompt, num_scenes)]. *)
Variable generate_manim_code : string -> World -> World * outcome string.
Variable get_multi_scene_codes : string -> Z -> list (string * string).

(** The [try] block around the generation, on the scene's dictionary. *)
Definition generate_into (scene_id prompt : string)
    (on_success : Scene -> Scene) (st : Store) : Store :=
  let '(w, r) := generate_manim_code prompt (world st) in
  let st := set_world w st in
  match r with
  | Return generated_code =>
      let st := write_scene scene_id (set_code generated_code) st in
      let st := write_scene scene_id on_success st in
      write_scene scene_id (Scenes.set_updated_at (utcnow st)) st
  | Raise e =>
      let st := write_scene scene_id (Scenes.set_status Scenes.failed) st in
      let st := write_scene scene_id (Scenes.set_error_message e) st in
      write_scene scene_id (Scenes.set_updated_at (utcnow st)) st
  end.

(** [scene_id] is the value of [str(uuid.uuid4())]. *)
Definition create_scene (project_id prompt : string) (scene_id : string)
    (st : Store) : Store * reply Scene :=
  match projects_db st !! project_id with
  | None => (st, HTTPException 404 "Project not found")
  | Some project =>
      let now := utcnow st in
      let order_index := Z.of_nat (length (scenes project)) in
      let new_scene :=
        {| Scenes.id := scene_id; Scenes.project_id := project_id;
           Scenes.prompt := prompt; Scenes.code := None;
           Scenes.video_url := None; Scenes.thumbnail_url := None;
           Scenes.duration_seconds := Scenes.float_of_int 0;
           Scenes.order_index := order_index;
           Scenes.status := Scenes.generating;
           Scenes.error_message := None;
           Scenes.created_at := now; Scenes.updated_at := now |} in
      let st := set_scenes_db (<[scene_id := new_scene]> (scenes_db st)) st in
      let st := write_project project_id (append_scene scene_id) st in
      let st := write_project project_id count_scenes st in
      let st := generate_into scene_id prompt
                  (Scenes.set_status Scenes.pending) st in
      (st, Returns {| success := true; data := scenes_db st !! scene_id;
                      message := Some "Scene created successfully" |})
  end.

(** [scenes.sort(key=lambda s: s.order_index)] on the models: a stable
    sort. *)
Fixpoint insert_scene (x : Scene) (l : list Scene) : list Scene :=
  match l with
  | [] => [x]
  | y :: l' =>
      if (Scenes.order_index x <=? Scenes.order_index y)%Z then x :: y :: l'
      else y :: insert_scene x l'
  end.

Fixpoint sort_scenes (l : list Scene) : list Scene :=
  match l with
  | [] => []
  | x :: l' => insert_scene x (sort_scenes l')
  end.

Definition list_scenes (project_id : string) (st : Store)
  : Store * reply (list Scene) :=
  match projects_db st !! project_id with
  | None => (st, HTTPException 404 "Project not found")
  | Some project =>
      let scenes := omap (fun sid => scenes_db st !! sid) (scenes project) in
      (st, Returns {| success := true; data := Some (sort_scenes scenes);
                      message := None |})
  end.

Definition get_scene (scene_id : string) (st : Store) : Store * reply Scene :=
  match scenes_db st !! scene_id with
  | None => (st, HTTPException 404 "Scene not found")
  | Some scene =>
      (st, Returns {| success := true; data := Some scene; message := None |})
  end.

(** The three fields of [SceneUpdate] are [None] when the request
    leaves them out. *)
Definition update_scene (scene_id : string) (prompt code : option string)
    (order_index : option Z) (st : Store) : Store * reply Scene :=
  match scenes_db st !! scene_id with
  | None => (st, HTTPException 404 "Scene not found")
  | Some _ =>
      let st := match prompt with
                | Some v => write_scene scene_id (set_prompt v) st
                | None => st
                end in
      let st := match code with
                | Some v => write_scene scene_id (set_code v) st
                | None => st
                end in
      let st := match order_index with
                | Some v => write_scene scene_id (set_order_index v) st
                | None => st
                end in
      let st := write_scene scene_id (Scenes.set_updated_at (utcnow st)) st in
      (st, Returns {| success := true; data := scenes_db st !! scene_id;
                      message := Some "Scene updated successfully" |})
  end.

Definition delete_scene (scene_id : string) (st : Store)
  : Store * reply unit :=
  match scenes_db st !! scene_id with
  | None => (st, HTTPException 404 "Scene not found")
  | Some scene =>
      let project_id := Scenes.project_id scene in
      let st :=
        match projects_db st !! project_id with
        | Some project =>
            if bool_decide (scene_id ∈ scenes project) then
              let st := write_project project_id
                          (fun p => set_scenes (remove scene_id (scenes p)) p)
                          st in
              write_project project_id count_scenes st
            else st
        | None => st
        end in
      (set_scenes_db (delete scene_id (scenes_db st)) st,
       Returns {| success := true; data := None;
                  message := Some "Scene deleted successfully" |})
  end.

(** What follows the generation in [regenerate_scene] when it
    succeeds. *)
Definition regenerated (prompt : string) (s : Scene) : Scene :=
  clear_error_message
    (Scenes.set_thumbnail_url None
       (clear_video_url
          (Scenes.set_status Scenes.pending (set_prompt prompt s)))).

Definition regenerate_scene (scene_id : string) (new_prompt : option string)
    (st : Store) : Store * reply Scene :=
  match scenes_db st !! scene_id with
  | None => (st, HTTPException 404 "Scene not found")
  | Some scene =>
      let prompt := if truthy_opt new_prompt
                    then default EmptyString new_prompt
                    else Scenes.prompt scene in
      let st := write_scene scene_id (Scenes.set_status Scenes.generating) st in
      let st := write_scene scene_id (Scenes.set_updated_at (utcnow st)) st in
      let st := generate_into scene_id prompt (regenerated prompt) st in
      (st, Returns {| success := true; data := scenes_db st !! scene_id;
                      message := Some "Scene regenerated successfully" |})
  end.

(** The loop of [create_multi_scenes] from index [i] on; [uuid4 i] is the
    value of the [i]-th [str(uuid.uuid4())], [created_scenes] the list
    built so far. *)
Fixpoint create_each (project_id : string) (now : nat) (uuid4 : nat -> string)
    (i : nat) (scene_data : list (string * string))
    (created_scenes : list Scene) (st : Store) : Store * list Scene :=
  match scene_data with
  | [] => (st, created_scenes)
  | (scene_prompt, scene_code) :: rest =>
      let scene_id := uuid4 i in
      let order_index := Z.of_nat (scenes_len project_id st + i) in
      let new_scene :=
        {| Scenes.id := scene_id; Scenes.project_id := project_id;
           Scenes.prompt := scene_prompt; Scenes.code := Some scene_code;
           Scenes.video_url := None; Scenes.thumbnail_url := None;
           Scenes.duration_seconds := Scenes.float_of_int 0;
           Scenes.order_index := order_index;
           Scenes.status := Scenes.pending;
           Scenes.error_message := None;
           Scenes.created_at := now; Scenes.updated_at := now |} in
      let st := set_scenes_db (<[scene_id := new_scene]> (scenes_db st)) st in
      let st := write_project project_id (append_scene scene_id) st in
      create_each project_id now uuid4 (S i) rest
        (created_scenes ++ [new_scene]) st
  end.

Definition create_multi_scenes (project_id prompt : string) (num_scenes : Z)
    (uuid4 : nat -> string) (st : Store) : Store * reply (list Scene) :=
  match projects_db st !! project_id with
  | None => (st, HTTPException 404 "Project not found")
  | Some _ =>
      let scene_data := get_multi_scene_codes prompt num_scenes in
      let now := utcnow st in
      let '(st, created_scenes) :=
        create_each project_id now uuid4 0 scene_data [] st in
      let st := write_project project_id count_scenes st in
      (st, Returns {| success := true; data := Some created_scenes;
                      message :=
                        Some ("Created "
                              +:+ str_int (Z.of_nat (length created_scenes))
                              +:+ " scenes. Render each one and then export to create your video.") |})
  end.

End WithLLM.

End SceneRoutes.

(** ** services/llm_service.py *)

Module LLM.
Import Py PyStr RenderService.

(** One entry of the [messages] list sent to the API. *)
Record message := {
  role : string;
  content : string;
}.

(** The texts of the module, which are not reproduced here: the mock
    templates by key, the system prompt, the few-shot examples, and the
    templates that [generate_scene_code_for_part] fills in for a scene
    title, its description, its index and the number of scenes. *)
Record Texts := {
  MOCK_CODE_TEMPLATES : string -> string;
  SYSTEM_PROMPT : string;
  FEW_SHOT_EXAMPLES : list message;
  generate_scene_code_for_part : string -> string -> nat -> nat -> string;
}.

(** What the [try] block of one attempt sees of the HTTP exchange. *)
Inductive exchange :=
| TimedOut                         (** [httpx.TimeoutException] *)
| Failed (e : string)              (** any other exception, with its [str(e)] *)
| ErrorStatus (error : string)     (** a status other than 200, with the
                                       error message read from the body *)
| Content (generated_text : string).
                                   (** status 200 and the text under
                                       [choices[0].message.content] *)

(** The setting, the HTTP client and the library calls. *)
Record Client := {
  openrouter_api_key : string;
  (** [client.post(OPENROUTER_API_URL, ...)] with the given messages *)
  post : World -> list message -> exchange;
  (** [re.findall(pattern, text, re.DOTALL)] for a pattern with one group *)
  re_findall : string -> string -> list string;
  validator : Validator.Lib;
  (** [str.title] *)
  str_title : string -> string;
}.

Definition get_mock_code (T : Texts) (prompt : string) : string :=
  let prompt_lower := lower prompt in
  if contains "pythagorean" prompt_lower || contains "theorem" prompt_lower
  then MOCK_CODE_TEMPLATES T "pythagorean"
  else if contains "sort" prompt_lower || contains "bubble" prompt_lower
          || contains "algorithm" prompt_lower
  then MOCK_CODE_TEMPLATES T "sort"
  else if contains "client" prompt_lower || contains "server" prompt_lower
          || contains "database" prompt_lower
          || contains "request" prompt_lower
  then MOCK_CODE_TEMPLATES T "client_server"
  else if contains "neural" prompt_lower || contains "network" prompt_lower
          || contains "ai" prompt_lower
          || contains "machine learning" prompt_lower
  then MOCK_CODE_TEMPLATES T "neural_network"
  else if contains "formula" prompt_lower || contains "equation" prompt_lower
          || contains "quadratic" prompt_lower
          || contains "euler" prompt_lower
  then MOCK_CODE_TEMPLATES T "formula"
  else if contains "transform" prompt_lower || contains "morph" prompt_lower
          || contains "change" prompt_lower
  then MOCK_CODE_TEMPLATES T "transform"
  else if contains "triangle" prompt_lower
  then MOCK_CODE_TEMPLATES T "triangle"
  else if contains "circle" prompt_lower
  then MOCK_CODE_TEMPLATES T "circle"
  else if contains "square" prompt_lower || contains "rectangle" prompt_lower
  then MOCK_CODE_TEMPLATES T "square"
  else MOCK_CODE_TEMPLATES T "default".

(** The character U+00B2 (superscript two). *)
Definition sup2 : string := String (Ascii.ascii_of_nat 178) EmptyString.

Definition STOP_WORDS : list string :=
  ["the"; "and"; "for"; "with"; "how"; "what"; "why"; "show"; "explain";
   "create"; "make"; "visualize"; "animate"; "demonstrate"].

Definition split_topic_into_scenes (C : Client) (prompt : string)
  : list (string * string) :=
  let prompt_lower := lower prompt in
  if contains "sort" prompt_lower || contains "bubble" prompt_lower then
    [ ("Introduction", "Title: Bubble Sort Algorithm - How it works");
      ("Unsorted Array", "Show initial unsorted array of numbers");
      ("Compare & Swap",
       "Demonstrate comparing adjacent elements and swapping");
      ("Multiple Passes", "Show multiple passes through the array");
      ("Sorted Result", "Show final sorted array with summary") ]
  else if contains "binary search" prompt_lower
          || contains "search" prompt_lower then
    [ ("Introduction", "Title: Binary Search - Efficient searching");
      ("Sorted Array", "Show a sorted array we'll search in");
      ("Find Middle", "Highlight the middle element");
      ("Compare & Narrow",
       "Compare target with middle, narrow search range");
      ("Found Target", "Show successful search with complexity O(log n)") ]
  else if contains "neural" prompt_lower || contains "network" prompt_lower
          || contains "deep learning" prompt_lower then
    [ ("Introduction", "Title: Neural Networks Explained");
      ("Input Layer", "Show input neurons receiving data");
      ("Hidden Layers", "Visualize hidden layer processing");
      ("Weights & Connections", "Animate data flowing through connections");
      ("Output Layer", "Show final output and prediction") ]
  else if contains "pythagorean" prompt_lower
          || contains "theorem" prompt_lower then
    [ ("Introduction", "Title: The Pythagorean Theorem");
      ("Right Triangle", "Draw a right triangle with sides a, b, c");
      ("Squares on Sides", "Draw squares on each side of the triangle");
      ("Area Comparison",
       "Show a" +:+ sup2 +:+ " + b" +:+ sup2 +:+ " = c" +:+ sup2
       +:+ " visually");
      ("Formula", "Display the famous equation") ]
  else if contains "client" prompt_lower || contains "server" prompt_lower
          || contains "api" prompt_lower then
    [ ("Introduction", "Title: Client-Server Architecture");
      ("The Client", "Show client making a request");
      ("The Server", "Server receives and processes request");
      ("Database Query", "Server queries the database");
      ("Response Flow", "Data flows back to client") ]
  else if contains "recursion" prompt_lower
          || contains "fibonacci" prompt_lower then
    [ ("Introduction", "Title: Recursion & Fibonacci");
      ("Base Case", "Show the base case F(0)=0, F(1)=1");
      ("Recursive Call", "Visualize function calling itself");
      ("Call Stack", "Show the call stack building up");
      ("Result", "Show final computed value") ]
  else if contains "tree" prompt_lower
          || contains "binary tree" prompt_lower then
    [ ("Introduction", "Title: Binary Tree Data Structure");
      ("Root Node", "Create and show the root node");
      ("Adding Children", "Add left and right children");
      ("Tree Traversal", "Show in-order, pre-order traversal");
      ("Complete Tree", "Display the full tree structure") ]
  else if contains "stack" prompt_lower || contains "queue" prompt_lower then
    [ ("Introduction",
       "Title: "
       +:+ (if contains "stack" prompt_lower then "Stack (LIFO)"
            else "Queue (FIFO)")
       +:+ " Data Structure");
      ("Empty Structure", "Show empty stack/queue");
      ("Push/Enqueue", "Add elements to the structure");
      ("Pop/Dequeue", "Remove elements showing order");
      ("Use Cases", "Show common applications") ]
  else if contains "graph" prompt_lower || contains "bfs" prompt_lower
          || contains "dfs" prompt_lower then
    [ ("Introduction", "Title: Graph Traversal Algorithms");
      ("Create Graph", "Show nodes and edges");
      ("Start Node", "Highlight the starting node");
      ("Traversal Steps", "Animate visiting each node");
      ("Visited All", "Show complete traversal path") ]
  else if contains "array" prompt_lower || contains "list" prompt_lower then
    [ ("Introduction", "Title: Arrays and Lists");
      ("Create Array", "Show array with indices");
      ("Access Element", "Highlight accessing by index O(1)");
      ("Insert/Delete", "Show insert and delete operations");
      ("Summary", "Compare time complexities") ]
  else
    let words :=
      List.filter
        (fun w => (3 <? String.length w)%nat
                  && negb (bool_decide (lower w ∈ STOP_WORDS)))
        (split prompt) in
    let topic :=
      match words with
      | [] => "Animation"
      | _ => str_title C (join " " (take 4 words))
      end in
    [ ("Introduction", "Title: " +:+ topic);
      ("Core Concept", "Explain the main idea of " +:+ topic);
      ("Visualization", "Visual demonstration of " +:+ topic);
      ("Details", "Additional details and examples");
      ("Summary", "Recap of " +:+ topic +:+ " with key points") ].

(** The loop [for i, (title, description) in enumerate(scene_parts)]
    from index [i] on. *)
Fixpoint scene_codes (T : Texts) (total : nat) (i : nat)
    (scene_parts : list (string * string)) : list (string * string) :=
  match scene_parts with
  | [] => []
  | (title, description) :: rest =>
      let code := generate_scene_code_for_part T title description i total in
      (title, code) :: scene_codes T total (S i) rest
  end.

Definition get_multi_scene_codes (T : Texts) (C : Client) (prompt : string)
    (num_scenes : Z) : list (string * string) :=
  let scene_parts := slice_to num_scenes (split_topic_into_scenes C prompt) in
  scene_codes T (length scene_parts) 0 scene_parts.

(** The raw string of the source. *)
Definition code_block_pattern : string := "```(?:python)?\s*(.*?)```".

Definition extract_code (C : Client) (response_text : string) : string :=
  match re_findall C code_block_pattern response_text with
  | m :: _ => strip m
  | [] => strip response_text
  end.

(** [str(x)] for an [Optional[str]], as an f-string formats it. *)
Definition str_opt (o : option string) : string :=
  match o with Some s => s | None => "None" end.

(** The message appended after a response that does not validate. *)
Definition feedback (generated_text error_message : string)
  : list message :=
  [ {| role := "assistant"; content := generated_text |};
    {| role := "user";
       content := "The previous code had an error: " +:+ error_message
                  +:+ newline
                  +:+ "Please fix it and generate valid Manim code." |} ].

(** The loop [for attempt in range(max_retries + 1)] over the attempts
    that are left; every request advances the clock. *)
Fixpoint attempt_loop (C : Client) (max_retries : Z) (attempts : list nat)
    (messages : list message) (last_error : option string) (w : World)
  : World * outcome string :=
  match attempts with
  | [] =>
      (w, Raise ("Failed to generate valid Manim code after "
                 +:+ str_int (max_retries + 1) +:+ " attempts: "
                 +:+ str_opt last_error))
  | attempt :: rest =>
      let attempt := Z.of_nat attempt in
      let response := post C w messages in
      let w := tick w in
      let on_exception (e : string) :=
        if (attempt =? max_retries)%Z
        then (w, Raise ("Failed to generate Manim code: " +:+ e))
        else attempt_loop C max_retries rest messages (Some e) w in
      match response with
      | Content generated_text =>
          let generated_code := extract_code C generated_text in
          match Validator.validate_manim_code (validator C) generated_code with
          | Raise e => on_exception e
          | Return (is_valid, error_message) =>
              if is_valid then (w, Return generated_code)
              else if (attempt <? max_retries)%Z then
                attempt_loop C max_retries rest
                  (messages ++ feedback generated_text error_message)
                  last_error w
              else
                attempt_loop C max_retries rest messages (Some error_message) w
          end
      | TimedOut => on_exception "Request timed out"
      | Failed e => on_exception e
      | ErrorStatus error => on_exception ("OpenRouter API error: " +:+ error)
      end
  end.

(** The condition under which no request is made. *)
Definition mock_mode (api_key : string) : bool :=
  negb (truthy api_key)
  || bool_decide (api_key = "your_openrouter_api_key_here")
  || String.prefix "your_" api_key.

Definition first_messages (T : Texts) (prompt : string) : list message :=
  {| role := "system"; content := SYSTEM_PROMPT T |}
  :: FEW_SHOT_EXAMPLES T ++ [ {| role := "user"; content := prompt |} ].

Definition generate_manim_code (T : Texts) (C : Client) (prompt : string)
    (max_retries : Z) (w : World) : World * outcome string :=
  if mock_mode (openrouter_api_key C) then (w, Return (get_mock_code T prompt))
  else
    attempt_loop C max_retries (seq 0 (Z.to_nat (max_retries + 1)))
      (first_messages T prompt) None w.

End LLM.

(** ** routers/audio.py *)

Module Audio.
Import Py PyStr RenderService Projects.

Record AudioUpload := {
  id : string;
  project_id : string;
  filename : string;
  url : string;
  duration_seconds : option Scenes.float;
  created_at : nat;
}.

Definition allowed_types : list string :=
  ["audio/mpeg"; "audio/wav"; "audio/mp3"; "audio/x-wav"].

(** [os.remove(path)] of a file that exists. *)
Definition remove_file (path : string) (w : World) : World :=
  {| files := files w ∖ {[ path ]}; clock := clock w |}.

(** [content_type] and [filename] are those of the uploaded file (the
    upload names its file), [audio_id] is the value of
    [str(uuid.uuid4())].  The file is written to
    [os.path.join(settings.upload_dir, filename)], a path relative to the
    working directory; the world holds absolute paths, and for the
    working directory of the service that path is
    [upload_dir_abs/filename]. *)
Definition upload_audio (E : Env) (project_id : string)
    (content_type : option string) (file_filename : string)
    (audio_id : string) (st : Store) : Store * reply AudioUpload :=
  match projects_db st !! project_id with
  | None => (st, HTTPException 404 "Project not found")
  | Some _ =>
      if negb (bool_decide (content_type ∈ (Some <$> allowed_types))) then
        (st, HTTPException 400 "Invalid file type. Allowed: MP3, WAV")
      else
        let file_ext :=
          if truthy (splitext_ext file_filename)
          then splitext_ext file_filename else ".mp3" in
        let filename := audio_id +:+ file_ext in
        let filepath := path_join (upload_dir_abs E) filename in
        let st := set_world (add_file filepath (world st)) st in
        let audio_url := "/uploads/" +:+ filename in
        let st := write_project project_id (set_audio_url (Some audio_url)) st in
        let st := write_project project_id (set_updated_at (utcnow st)) st in
        (st, Returns {| success := true;
                        data := Some {| id := audio_id;
                                        project_id := project_id;
                                        filename := file_filename;
                                        url := audio_url;
                                        duration_seconds := None;
                                        created_at := utcnow st |};
                        message := Some "Audio uploaded successfully" |})
  end.

Definition delete_audio (E : Env) (project_id : string) (st : Store)
  : Store * reply unit :=
  match projects_db st !! project_id with
  | None => (st, HTTPException 404 "Project not found")
  | Some project =>
      let st :=
        match audio_url (fields project) with
        | Some audio_url =>
            if truthy audio_url then
              let filepath :=
                path_join (upload_dir_abs E) (basename audio_url) in
              if path_exists (world st) filepath
              then set_world (remove_file filepath (world st)) st
              else st
            else st
        | None => st
        end in
      let st := write_project project_id (set_audio_url None) st in
      let st := write_project project_id (set_updated_at (utcnow st)) st in
      (st, Returns {| success := true; data := None;
                      message := Some "Audio removed successfully" |})
  end.

Definition generate_tts (project_id : string) (st : Store)
  : Store * reply AudioUpload :=
  match projects_db st !! project_id with
  | None => (st, HTTPException 404 "Project not found")
  | Some _ =>
      (st, HTTPException 501
             "TTS feature coming soon. Please upload an audio file instead.")
  end.

End Audio.

(** ** routers/render.py: the status endpoint *)

Module RenderStatus.
Import Render.

Definition get_render_status (job_id : string) (σ : State)
  : State * Projects.reply Job :=
  match render_jobs σ !! job_id with
  | None => (σ, Projects.HTTPException 404 "Render job not found")
  | Some job =>
      (σ, Projects.Returns {| Projects.success := true;
                              Projects.data := Some job;
                              Projects.message := None |})
  end.

End RenderStatus.

(** ** The routers on one state *)

Module App.
Import Py RenderService.

(** The keys of a project that [render.py] reads. *)
Definition project_view (p : Projects.ProjectDict) : Render.Project :=
  {| Render.scenes := Projects.scenes p;
     Render.audio_url := Projects.audio_url (Projects.fields p) |}.

(** The state of the whole application: the dictionaries of the three
    routers, the world, and the events of the render jobs so far. *)
Record State := {
  store : Projects.Store;
  render_jobs : gmap string Render.Job;
  trace : list Render.event;
}.

(** The state as [render.py] sees it. *)
Definition render_state (a : State) : Render.State :=
  {| Render.render_jobs := render_jobs a;
     Render.scenes_db := Projects.scenes_db (store a);
     Render.projects_db := project_view <$> Projects.projects_db (store a);
     Render.world := Projects.world (store a);
     Render.trace := trace a |}.

(** What a step of [render.py] leaves: it never assigns to a project. *)
Definition after_render (a : State) (σ : Render.State) : State :=
  {| store := {| Projects.projects_db := Projects.projects_db (store a);
                 Projects.scenes_db := Render.scenes_db σ;
                 Projects.world := Render.world σ |};
     render_jobs := Render.render_jobs σ;
     trace := Render.trace σ |}.

Definition with_store (a : State) (st : Projects.Store) : State :=
  {| store := st; render_jobs := render_jobs a; trace := trace a |}.

(** What the routers call: the settings and programs of the render
    service and the two functions of the LLM service. *)
Record Services := {
  env : Env;
  generate_manim_code : string -> World -> World * outcome string;
  get_multi_scene_codes : string -> Z -> list (string * string);
}.

(** A request to one of the endpoints that can change the state, with
    the identifiers that [uuid.uuid4()] gives it, or the run of a
    scheduled background task. *)
Inductive action :=
| CreateProject (name : string) (description : option string)
                (project_id : string)
| UpdateProject (project_id : string) (name description : option string)
| DeleteProject (project_id : string)
| CreateScene (project_id prompt scene_id : string)
| UpdateScene (scene_id : string) (prompt code : option string)
              (order_index : option Z)
| DeleteScene (scene_id : string)
| RegenerateScene (scene_id : string) (new_prompt : option string)
| CreateMultiScenes (project_id prompt : string) (num_scenes : Z)
                    (uuid4 : nat -> string)
| UploadAudio (project_id : string) (content_type : option string)
              (file_filename audio_id : string)
| DeleteAudio (project_id : string)
| RenderSingleScene (scene_id job_id : string)
| ExportProject (project_id job_id : string)
| RenderAllAndCombine (project_id job_id : string)
| RunTask (task : Render.background_task).

(** The state after the action, whatever the endpoint answers. *)
Definition step (S : Services) (act : action) (a : State) : State :=
  match act with
  | CreateProject name description project_id =>
      with_store a
        (fst (Projects.create_project name description project_id (store a)))
  | UpdateProject project_id name description =>
      with_store a
        (fst (Projects.update_project project_id name description (store a)))
  | DeleteProject project_id =>
      with_store a (fst (Projects.delete_project project_id (store a)))
  | CreateScene project_id prompt scene_id =>
      with_store a
        (fst (SceneRoutes.create_scene (generate_manim_code S)
                project_id prompt scene_id (store a)))
  | UpdateScene scene_id prompt code order_index =>
      with_store a
        (fst (SceneRoutes.update_scene scene_id prompt code order_index
                (store a)))
  | DeleteScene scene_id =>
      with_store a (fst (SceneRoutes.delete_scene scene_id (store a)))
  | RegenerateScene scene_id new_prompt =>
      with_store a
        (fst (SceneRoutes.regenerate_scene (generate_manim_code S)
                scene_id new_prompt (store a)))
  | CreateMultiScenes project_id prompt num_scenes uuid4 =>
      with_store a
        (fst (SceneRoutes.create_multi_scenes (get_multi_scene_codes S)
                project_id prompt num_scenes uuid4 (store a)))
  | UploadAudio project_id content_type file_filename audio_id =>
      with_store a
        (fst (Audio.upload_audio (env S) project_id content_type
                file_filename audio_id (store a)))
  | DeleteAudio project_id =>
      with_store a (fst (Audio.delete_audio (env S) project_id (store a)))
  | RenderSingleScene scene_id job_id =>
      after_render a
        (fst (Render.render_single_scene scene_id job_id (render_state a)))
  | ExportProject project_id job_id =>
      after_render a
        (fst (Render.export_project project_id job_id (render_state a)))
  | RenderAllAndCombine project_id job_id =>
      after_render a
        (fst (Render.render_all_and_combine project_id job_id
                (render_state a)))
  | RunTask task =>
      after_render a (fst (Render.run_task (env S) task (render_state a)))
  end.

(** The identifiers the action draws are new: no scene has them, and
    those of one batch differ from each other. *)
Definition fresh (S : Services) (act : action) (a : State) : Prop :=
  match act with
  | CreateScene _ _ scene_id =>
      Projects.scenes_db (store a) !! scene_id = None
  | CreateMultiScenes _ prompt num_scenes uuid4 =>
      forall i, i < length (get_multi_scene_codes S prompt num_scenes) ->
        Projects.scenes_db (store a) !! uuid4 i = None
        /\ forall j, j < i -> uuid4 j <> uuid4 i
  | _ => True
  end.

(** The states the application can be in: from the empty start, by
    actions that draw fresh identifiers. *)
Definition start : State :=
  {| store := {| Projects.projects_db := ∅; Projects.scenes_db := ∅;
                 Projects.world := {| files := ∅; clock := 0 |} |};
     render_jobs := ∅;
     trace := [] |}.

Inductive reachable (S : Services) : State -> Prop :=
| reachable_start : reachable S start
| reachable_step act a :
    reachable S a -> fresh S act a -> reachable S (step S act a).

End App.

(** * Properties of the code validator *)

Module ValidatorFacts.
Import Validator.

Lemma rstrip_all_space s : Py.all_space s = true -> Py.rstrip s = EmptyString.
Proof.
  induction s as [|c s IH]; simpl; [done|].
  intros [Hc Hs]%andb_prop. by rewrite (IH Hs), Hc.
Qed.

Lemma rstrip_not_all_space s :
  Py.all_space s = false -> Py.rstrip s <> EmptyString.
Proof.
  induction s as [|c s IH]; simpl; [done|].
  destruct (Py.isspace c) eqn:Hc; simpl.
  - intros Hs. specialize (IH Hs). by destruct (Py.rstrip s).
  - intros _. by destruct (Py.rstrip s).
Qed.

Lemma lstrip_all_space s : Py.all_space (Py.lstrip s) = Py.all_space s.
Proof.
  induction s as [|c s IH]; simpl; [done|].
  destruct (Py.isspace c) eqn:Hc; simpl; [done|]. by rewrite Hc.
Qed.

(** [not code or not code.strip()] holds exactly for the strings made of
    white space only (the empty one included). *)
Lemma blank_test code :
  negb (Py.truthy code) || negb (Py.truthy (Py.strip code))
  = Py.all_space code.
Proof.
  unfold Py.strip. destruct (Py.all_space code) eqn:Hsp.
  - rewrite rstrip_all_space by (by rewrite lstrip_all_space).
    simpl. by rewrite orb_true_r.
  - destruct code as [|c code]; [done|]. simpl negb at 1. rewrite orb_false_l.
    pose proof (rstrip_not_all_space (Py.lstrip (String c code))) as Hne.
    rewrite lstrip_all_space in Hne. specialize (Hne Hsp).
    by destruct (Py.rstrip _).
Qed.

Lemma scan_patterns_filter L patterns code :
  scan_patterns L patterns code
  = List.filter (fun p => re_search L p code) patterns.
Proof.
  induction patterns as [|p ps IH]; simpl; [done|].
  by destruct (re_search L p code); rewrite IH.
Qed.

Lemma elem_of_scan_patterns L patterns code p :
  p ∈ scan_patterns L patterns code
  <-> p ∈ patterns /\ re_search L p code = true.
Proof.
  rewrite scan_patterns_filter, !list_elem_of_In, filter_In. tauto.
Qed.

(** What [validate_manim_code] returns once the code is not blank and
    parses. *)
Lemma validate_parsed L code tree :
  Py.all_space code = false ->
  ast_parse L code = Parsed tree ->
  validate_manim_code L code =
    Py.Return
      match scan_patterns L DANGEROUS_PATTERNS code with
      | [] => check_structure L code
      | matched => UnsafeConstruct matched
      end.
Proof.
  intros Hsp Hparse. unfold validate_manim_code.
  rewrite blank_test, Hsp. unfold check_syntax. rewrite Hparse.
  cbn [negb]. unfold check_dangerous_patterns.
  generalize (scan_patterns L DANGEROUS_PATTERNS code). intros [|p ps].
  - cbn [length Nat.eqb negb].
    destruct (check_structure L code) as [[] err] eqn:Hst; cbn [negb]; [|done].
    unfold check_structure in Hst. rewrite Hparse in Hst.
    repeat match type of Hst with
           | (if ?b then _ else _) = _ => destruct b
           end; congruence.
  - reflexivity.
Qed.

(** The tree of a well-formed scene: [from manim import *] and a class on
    [Scene] with a [construct] method. *)
Definition demo_scene : list stmt :=
  [ ImportFrom (Some "manim");
    ClassDef "GeneratedScene" [Name "Scene"]
      [FunctionDef "construct" [OtherStmt []]] ].

(** A source with a NUL character, which next to it calls [eval]. *)
Definition nul_code : string :=
  "eval('x')" +:+ String "000"%char EmptyString.

(** A small library to run the validator on: it knows four sources, and
    finds a pattern when the text the pattern is written for occurs. *)
Definition demo_lib : Lib :=
  {| ast_parse code :=
       if bool_decide (code = "import os (") then
         SyntaxError (Some 1%Z) "'(' was never closed"
       else if bool_decide (code = nul_code) then
         OtherException "source code string cannot contain null bytes"
       else if bool_decide (code = "import os; os.remove(eval('x'))") then
         Parsed [Import ["os"]; OtherStmt []]
       else Parsed demo_scene;
     re_search pattern code :=
       if bool_decide (pattern = "\bos\.") then Py.contains "os." code
       else if bool_decide (pattern = "\beval\s*\(") then Py.contains "eval(" code
       else if bool_decide (pattern = "\bimport\s+os\b")
            then Py.contains "import os" code
       else false |}.

(** C3. The four checks run fail-fast in the order emptiness, syntax,
    dangerous patterns, structure.  A blank input (empty or white space
    only) is answered with "Code is empty" whatever the parser and the
    pattern scan would say; a non-blank input on which [ast.parse]
    raises [SyntaxError] is answered with the syntax error, with its
    line number and message, whatever the scan would find; and on an
    input that parses, the scan decides before the structure check is
    consulted.  Where the claim and the code part: a non-blank input on
    which [ast.parse] raises another exception ([ValueError] for a NUL
    character, [MemoryError] or [RecursionError] for a source nested too
    deeply) fails to parse too, but [check_syntax] catches [SyntaxError]
    only, so [validate_manim_code] returns no verdict: the exception
    leaves it. *)
Theorem validate_fail_fast_order (L : Lib) (code : string) :
  (Py.all_space code = true ->
   validate_manim_code L code = Py.Return EmptyCode)
  /\ (forall lineno msg,
        Py.all_space code = false ->
        ast_parse L code = SyntaxError lineno msg ->
        validate_manim_code L code = Py.Return (SyntaxInvalid lineno msg))
  /\ (forall e,
        Py.all_space code = false ->
        ast_parse L code = OtherException e ->
        validate_manim_code L code = Py.Raise e)
  /\ (forall tree,
        Py.all_space code = false ->
        ast_parse L code = Parsed tree ->
        (scan_patterns L DANGEROUS_PATTERNS code <> [] ->
         validate_manim_code L code
         = Py.Return (UnsafeConstruct (scan_patterns L DANGEROUS_PATTERNS code)))
        /\ (scan_patterns L DANGEROUS_PATTERNS code = [] ->
            validate_manim_code L code
            = Py.Return (check_structure L code))).
Proof.
  split; [|split; [|split]].
  - intros Hsp. unfold validate_manim_code. by rewrite blank_test, Hsp.
  - intros lineno msg Hsp Hparse. unfold validate_manim_code.
    rewrite blank_test, Hsp. unfold check_syntax. by rewrite Hparse.
  - intros e Hsp Hparse. unfold validate_manim_code.
    rewrite blank_test, Hsp. unfold check_syntax. by rewrite Hparse.
  - intros tree Hsp Hparse. rewrite (validate_parsed L code tree Hsp Hparse).
    destruct (scan_patterns L DANGEROUS_PATTERNS code); split; done.
Qed.

Lemma validate_fail_fast_order_witness :
  validate_manim_code demo_lib "  " = Py.Return EmptyCode
  /\ validate_manim_code demo_lib "import os ("
     = Py.Return (SyntaxInvalid (Some 1%Z) "'(' was never closed")
  /\ validate_manim_code demo_lib nul_code
     = Py.Raise "source code string cannot contain null bytes"
  /\ validate_manim_code demo_lib "import os; os.remove(eval('x'))"
     = Py.Return
         (UnsafeConstruct ["\bos\."; "\beval\s*\("; "\bimport\s+os\b"])
  /\ validate_manim_code demo_lib "from manim import *"
     = Py.Return (check_structure demo_lib "from manim import *").
Proof.
  split; [|split; [|split; [|split]]].
  - apply (validate_fail_fast_order demo_lib "  "). reflexivity.
  - apply (validate_fail_fast_order demo_lib "import os (");
      reflexivity.
  - apply (validate_fail_fast_order demo_lib nul_code); reflexivity.
  - refine (proj1 (proj2 (proj2 (proj2 (validate_fail_fast_order demo_lib
             "import os; os.remove(eval('x'))"))) _ _ _) _);
      [reflexivity | reflexivity | discriminate].
  - refine (proj2 (proj2 (proj2 (proj2 (validate_fail_fast_order demo_lib
             "from manim import *"))) _ _ _) _); reflexivity.
Defined.

(** C4. A non-blank code that parses and in which at least one pattern
    of the denylist is found is rejected, and the message is
    "Code contains dangerous patterns: " followed by the comma-separated
    list of every pattern of the denylist that [re.search] finds in the
    code, each once and in denylist order, not only the first; the
    structure of the code plays no part. *)
Theorem validate_lists_every_dangerous_pattern
    (L : Lib) (code : string) (tree : list stmt) (p0 : string) :
  Py.all_space code = false ->
  ast_parse L code = Parsed tree ->
  p0 ∈ DANGEROUS_PATTERNS ->
  re_search L p0 code = true ->
  exists matched,
    validate_manim_code L code
    = Py.Return (false, "Code contains dangerous patterns: "
                        +:+ Py.join ", " matched)
    /\ matched = List.filter (fun p => re_search L p code) DANGEROUS_PATTERNS
    /\ (forall p, p ∈ matched
                  <-> p ∈ DANGEROUS_PATTERNS /\ re_search L p code = true).
Proof.
  intros Hsp Hparse Hin Hfound.
  exists (scan_patterns L DANGEROUS_PATTERNS code). split; [|split].
  - rewrite (validate_parsed L code tree Hsp Hparse).
    assert (Hp0 : p0 ∈ scan_patterns L DANGEROUS_PATTERNS code)
      by (by apply elem_of_scan_patterns).
    destruct (scan_patterns L DANGEROUS_PATTERNS code); [|done].
    by apply not_elem_of_nil in Hp0.
  - apply scan_patterns_filter.
  - intros p. apply elem_of_scan_patterns.
Qed.

Lemma validate_lists_every_dangerous_pattern_witness :
  exists matched,
    validate_manim_code demo_lib "import os; os.remove(eval('x'))"
    = Py.Return (false, "Code contains dangerous patterns: "
                        +:+ Py.join ", " matched)
    /\ matched = List.filter
                   (fun p => re_search demo_lib p
                               "import os; os.remove(eval('x'))")
                   DANGEROUS_PATTERNS
    /\ (forall p, p ∈ matched
                  <-> p ∈ DANGEROUS_PATTERNS
                      /\ re_search demo_lib p
                           "import os; os.remove(eval('x'))" = true).
Proof.
  apply (validate_lists_every_dangerous_pattern demo_lib
           "import os; os.remove(eval('x'))"
           [Import ["os"]; OtherStmt []] "\beval\s*\(").
  - reflexivity.
  - reflexivity.
  - unfold DANGEROUS_PATTERNS. do 4 apply list_elem_of_further.
    apply list_elem_of_here.
  - reflexivity.
Defined.

End ValidatorFacts.

(** * Properties of the combiner *)

Module CombinerFacts.
Import Py Scenes RenderService.

(** The filter of [compile_project]: the scene's [video_url] is set (not
    [None], not empty) and the path it resolves to exists. *)
Definition has_artifact (E : Env) (w : World) (scene : Scene) : bool :=
  match video_url scene with
  | Some url => truthy url && path_exists w (video_path_of E url)
  | None => false
  end.

(** The line [files.txt] gets for a scene that passes the filter. *)
Definition manifest_line (E : Env) (scene : Scene) : string :=
  file_line (video_path_of E (default EmptyString (video_url scene))).

Definition manifest (E : Env) (w : World) (scenes : list Scene)
  : list string :=
  map (manifest_line E) (List.filter (has_artifact E w) scenes).

Definition final_url (project_id : string) : string :=
  "/outputs/" +:+ project_id +:+ "_final.mp4".

Lemma manifest_cons E w scene rest :
  manifest E w (scene :: rest)
  = if has_artifact E w scene
    then manifest_line E scene :: manifest E w rest
    else manifest E w rest.
Proof.
  unfold manifest. cbn [List.filter]. by destruct (has_artifact E w scene).
Qed.

Lemma manifest_length E w scenes :
  length (manifest E w scenes)
  = length (List.filter (has_artifact E w) scenes).
Proof. unfold manifest. by rewrite length_map. Qed.

(** The loop writes the manifest and counts its lines. *)
Lemma write_file_list_spec E w scenes f n :
  write_file_list E w scenes f n
  = (f ++ manifest E w scenes, n + length (manifest E w scenes)).
Proof.
  revert f n. induction scenes as [|scene rest IH]; intros f n.
  - cbn. by rewrite app_nil_r, Nat.add_0_r.
  - cbn [write_file_list]. rewrite manifest_cons.
    unfold has_artifact, manifest_line.
    destruct (video_url scene) as [url|]; cbn [default]; [|by rewrite IH].
    destruct (truthy url); cbn [andb]; [|by rewrite IH].
    destruct (path_exists w (video_path_of E url)); rewrite IH; [|done].
    cbn [length]. rewrite <- app_assoc. cbn [app]. f_equal. lia.
Qed.

(** [compile_project] on the lines of the manifest: no line, no concat;
    otherwise the exit of the concat decides. *)
Lemma compile_project_outcome E scene rest project_id audio w :
  snd (compile_project E (scene :: rest) project_id audio w) =
    match manifest E w (scene :: rest) with
    | [] => Raise NoArtifacts
    | file_list =>
        let process := ffmpeg_concat E w file_list in
        if (returncode process =? 0)%Z then Return (final_url project_id)
        else Raise ("Video concatenation failed: " +:+ stderr process)
    end.
Proof.
  unfold compile_project. rewrite write_file_list_spec. cbn [app Nat.add].
  destruct (manifest E w (scene :: rest)) as [|l ls]; [done|].
  cbn [length Nat.eqb].
  destruct (returncode (ffmpeg_concat E w (l :: ls)) =? 0)%Z; [|done].
  cbn [negb snd]. reflexivity.
Qed.

Lemma filter_nil_iff {A} (f : A -> bool) (l : list A) :
  List.filter f l = [] <-> Forall (fun x => f x = false) l.
Proof.
  induction l as [|x l IH]; cbn [List.filter].
  - split; [constructor | done].
  - destruct (f x) eqn:Hx.
    + split; [done | intros H; inversion H; congruence].
    + rewrite IH. split; [by constructor | by inversion 1].
Qed.

Lemma manifest_nil_iff E w scenes :
  manifest E w scenes = []
  <-> Forall (fun scene => has_artifact E w scene = false) scenes.
Proof.
  rewrite <- filter_nil_iff. unfold manifest.
  destruct (List.filter (has_artifact E w) scenes); [done|].
  split; discriminate.
Qed.

(** Programs that always work, except that manim fails on code that
    contains "fail" and the audio mux always fails. *)
Definition demo_env : Env :=
  {| output_dir_abs := "/srv/outputs";
     upload_dir_abs := "/srv/uploads";
     manim _ code _ :=
       if contains "fail" code
       then ({| returncode := 1; stderr := "boom" |}, false)
       else ({| returncode := 0; stderr := EmptyString |}, true);
     ffmpeg_thumbnail _ _ := true;
     ffprobe_duration _ _ := None;
     ffmpeg_concat _ _ := {| returncode := 0; stderr := EmptyString |};
     ffmpeg_mux _ _ _ :=
       ({| returncode := 1; stderr := "Invalid data found" |}, false) |}.

Definition demo_scene (sid : string) (index : Z) (code : string)
    (st : SceneStatus) (url : option string) : Scene :=
  {| id := sid; project_id := "p"; prompt := "a circle";
     code := Some code; video_url := url; thumbnail_url := None;
     duration_seconds := float_of_int 0; order_index := index;
     status := st; error_message := None;
     created_at := 0; updated_at := 0 |}.

(** An output store that holds [a.mp4] (and an uploaded [song.mp3]) but
    not [b.mp4]. *)
Definition demo_world : World :=
  {| files := {[ "/srv/outputs/a.mp4"; "/srv/uploads/song.mp3" ]};
     clock := 0 |}.

Definition scene_a : Scene :=
  demo_scene "a" 0 "ok" completed (Some "/outputs/a.mp4").
Definition scene_b : Scene :=
  demo_scene "b" 1 "ok" completed (Some "/outputs/b.mp4").

(** C2. For a non-empty scene list, the loop of [compile_project] writes
    to the concat manifest one line for each scene whose [video_url] is
    set and resolves (under the output directory, by its base name) to a
    path that exists, in the order of the list, and nothing for the
    other scenes; the call raises "No rendered video files found to
    compile" exactly when no scene passes that filter, and when some
    scene does and the concat run on that manifest exits with 0 it
    returns the final url. *)
Theorem combine_keeps_existing_artifacts
    (E : Env) (w : World) (scenes : list Scene) (project_id : string)
    (audio : option string) :
  scenes <> [] ->
  let kept := List.filter (has_artifact E w) scenes in
  write_file_list E w scenes [] 0 = (map (manifest_line E) kept, length kept)
  /\ (snd (compile_project E scenes project_id audio w) = Raise NoArtifacts
      <-> Forall (fun scene => has_artifact E w scene = false) scenes)
  /\ (kept <> [] ->
      returncode (ffmpeg_concat E w (map (manifest_line E) kept)) = 0%Z ->
      snd (compile_project E scenes project_id audio w)
      = Return (final_url project_id)).
Proof.
  intros Hne kept. destruct scenes as [|scene rest]; [done|].
  split; [|split].
  - rewrite write_file_list_spec. cbn [app Nat.add]. unfold manifest.
    by rewrite length_map.
  - rewrite compile_project_outcome, <- manifest_nil_iff.
    destruct (manifest E w (scene :: rest)) as [|l ls]; [done|].
    cbv zeta.
    destruct (returncode (ffmpeg_concat E w (l :: ls)) =? 0)%Z;
      split; discriminate.
  - intros Hkept Hexit. rewrite compile_project_outcome.
    change (manifest E w (scene :: rest)) with (map (manifest_line E) kept).
    destruct (map (manifest_line E) kept) as [|l ls] eqn:Hm.
    + by destruct kept.
    + cbv zeta. by rewrite Hexit.
Qed.

Lemma combine_keeps_existing_artifacts_witness :
  write_file_list demo_env demo_world [scene_a; scene_b] [] 0
  = ([file_line "/srv/outputs/a.mp4"], 1)
  /\ snd (compile_project demo_env [scene_a; scene_b] "p" None demo_world)
     = Return "/outputs/p_final.mp4"
  /\ snd (compile_project demo_env [scene_b] "p" None demo_world)
     = Raise NoArtifacts.
Proof.
  pose proof (combine_keeps_existing_artifacts demo_env demo_world
                [scene_a; scene_b] "p" None) as H1.
  pose proof (combine_keeps_existing_artifacts demo_env demo_world
                [scene_b] "p" None) as H2.
  split; [|split].
  - apply H1. discriminate.
  - apply H1; [discriminate | vm_compute; discriminate | reflexivity].
  - apply H2; [discriminate |]. repeat constructor.
Defined.

(** The same settings and programs with another audio mux. *)
Definition with_mux (E : Env)
    (mux : World -> string -> string -> process_result * bool) : Env :=
  {| output_dir_abs := output_dir_abs E;
     upload_dir_abs := upload_dir_abs E;
     manim := manim E;
     ffmpeg_thumbnail := ffmpeg_thumbnail E;
     ffprobe_duration := ffprobe_duration E;
     ffmpeg_concat := ffmpeg_concat E;
     ffmpeg_mux := mux |}.

(** C10. When some scene has an artifact, the concat exits with 0 and
    the supplied audio url resolves to an existing file, the mux is run
    and [compile_project] returns the final url whatever the mux does:
    its exit code and stderr are not looked at, and the output file is
    there afterwards only if the mux wrote it.  A concat that exits with
    another code makes the call raise instead. *)
Theorem combine_ignores_mux_outcome
    (E : Env) (w : World) (scenes : list Scene) (project_id url : string)
    (mux : World -> string -> string -> process_result * bool) :
  manifest E w scenes <> [] ->
  truthy url = true ->
  path_exists w (path_join (upload_dir_abs E) (basename url)) = true ->
  let audio_path := path_join (upload_dir_abs E) (basename url) in
  let output_path :=
    path_join (output_dir_abs E) (project_id +:+ "_final.mp4") in
  let concat := ffmpeg_concat E w (manifest E w scenes) in
  (returncode concat = 0%Z ->
   compile_project (with_mux E mux) scenes project_id (Some url) w
   = (if snd (mux (tick w) audio_path output_path)
      then add_file output_path (tick (tick w)) else tick (tick w),
      Return (final_url project_id)))
  /\ (returncode concat <> 0%Z ->
      compile_project (with_mux E mux) scenes project_id (Some url) w
      = (tick w, Raise ("Video concatenation failed: " +:+ stderr concat))).
Proof.
  intros Hm Hurl Haudio audio_path output_path concat.
  destruct scenes as [|scene rest]; [done|].
  unfold compile_project. rewrite write_file_list_spec. cbn [app Nat.add].
  change (manifest (with_mux E mux) w (scene :: rest))
    with (manifest E w (scene :: rest)).
  destruct (manifest E w (scene :: rest)) as [|l ls] eqn:Hl; [done|].
  cbn [length Nat.eqb]. cbn [with_mux ffmpeg_concat ffmpeg_mux
    output_dir_abs upload_dir_abs]. fold concat.
  split.
  - intros ->. cbn [Z.eqb negb]. rewrite Hurl.
    change (path_exists (tick w)
              (path_join (upload_dir_abs E) (basename url)))
      with (path_exists w (path_join (upload_dir_abs E) (basename url))).
    rewrite Haudio. fold audio_path output_path.
    by destruct (mux (tick w) audio_path output_path) as [process []].
  - intros Hexit. apply Z.eqb_neq in Hexit. by rewrite Hexit.
Qed.

Lemma combine_ignores_mux_outcome_witness :
  compile_project demo_env [scene_a; scene_b] "p"
    (Some "/uploads/song.mp3") demo_world
  = ({| files := files demo_world; clock := 2 |},
     Return "/outputs/p_final.mp4").
Proof.
  refine (proj1 (combine_ignores_mux_outcome demo_env demo_world
                   [scene_a; scene_b] "p" "/uploads/song.mp3"
                   (ffmpeg_mux demo_env) _ _ _) _).
  - vm_compute. discriminate.
  - reflexivity.
  - vm_compute. reflexivity.
  - reflexivity.
Defined.

End CombinerFacts.

(** * Binary64 arithmetic of the progress computation *)

Module FloatFacts.
Import Scenes (float_of_int).
Import Render (int_of_float, render_progress).
Local Open Scope Z_scope.

Lemma digits2_pos_size p : digits2_pos p = Pos.size p.
Proof. induction p; simpl; congruence. Qed.

Lemma Zdigits2_log2 m : 0 < m -> Zdigits2 m = Z.log2 m + 1.
Proof.
  destruct m as [|p|p]; try lia. intros _. simpl Zdigits2.
  rewrite digits2_pos_size. destruct p; simpl; lia.
Qed.

Lemma Zdigits2_eq m d : 0 < d -> 2 ^ (d - 1) <= m < 2 ^ d -> Zdigits2 m = d.
Proof.
  intros Hd Hm. assert (0 < m) by (pose proof (Z.pow_pos_nonneg 2 (d - 1)); lia).
  rewrite Zdigits2_log2 by done.
  rewrite (Z.log2_unique m (d - 1)); [lia | lia |].
  by replace (Z.succ (d - 1)) with d by lia.
Qed.

Lemma shr_1_nonneg m r s :
  0 <= m -> shr_1 (Build_shr_record m r s) = Build_shr_record (m / 2) (Z.odd m) (r || s).
Proof.
  intros Hm. destruct m as [|p|p]; [reflexivity| |lia].
  destruct p as [p|p|]; cbn [shr_1].
  - f_equal. rewrite Pos2Z.inj_xI. apply Z.div_unique with 1; lia.
  - f_equal. rewrite Pos2Z.inj_xO. apply Z.div_unique with 0; lia.
  - reflexivity.
Qed.

Lemma iter_pos_nat {A} (f : A -> A) (p : positive) (x : A) :
  SpecFloat.iter_pos f p x = Nat.iter (Pos.to_nat p) f x.
Proof.
  revert x. induction p as [p IH|p IH|]; intros x; cbn [SpecFloat.iter_pos].
  - rewrite !IH, Pos2Nat.inj_xI.
    replace (S (2 * Pos.to_nat p))%nat with (Pos.to_nat p + (Pos.to_nat p + 1))%nat by lia.
    rewrite !Nat.iter_add. reflexivity.
  - rewrite !IH, Pos2Nat.inj_xO.
    replace (2 * Pos.to_nat p)%nat with (Pos.to_nat p + Pos.to_nat p)%nat by lia.
    rewrite Nat.iter_add. reflexivity.
  - reflexivity.
Qed.

(* k+1 shifts of an exact record *)
Lemma shr_iter_exact k m :
  0 <= m ->
  Nat.iter (S k) shr_1 (Build_shr_record m false false)
  = Build_shr_record (m / 2 ^ Z.of_nat (S k)) (Z.testbit m (Z.of_nat k))
      (negb (m mod 2 ^ Z.of_nat k =? 0)).
Proof.
  intros Hm. induction k as [|k IH].
  - cbn [Nat.iter]. rewrite shr_1_nonneg by done.
    change (Z.of_nat 1) with 1. change (Z.of_nat 0) with 0.
    rewrite Z.pow_1_r, Z.pow_0_r, Z.mod_1_r, Z.bit0_odd. reflexivity.
  - change (Nat.iter (S (S k)) shr_1 ?x) with (shr_1 (Nat.iter (S k) shr_1 x)).
    rewrite IH, shr_1_nonneg by (apply Z.div_pos; lia).
    f_equal.
    + rewrite Z.div_div by lia. f_equal.
      rewrite (Nat2Z.inj_succ (S k)), Z.pow_succ_r by lia. lia.
    + rewrite Z.testbit_odd, Z.shiftr_div_pow2 by lia. reflexivity.
    + rewrite (Nat2Z.inj_succ k), Z.pow_succ_r by lia.
      set (p := 2 ^ Z.of_nat k). assert (0 < p) by (apply Z.pow_pos_nonneg; lia).
      rewrite Z.testbit_odd, Z.shiftr_div_pow2 by lia. fold p.
      (* m mod (2p) = p * odd(m/p) + m mod p *)
      assert (Hdec : m mod (2 * p) = p * (m / p mod 2) + m mod p).
      { rewrite (Z.mul_comm 2 p), Z.rem_mul_r by lia. lia. }
      rewrite Hdec. rewrite Zodd_mod.
      pose proof (Z.mod_pos_bound (m / p) 2 ltac:(lia)).
      pose proof (Z.mod_pos_bound m p ltac:(lia)).
      destruct (Z.eqb_spec (m / p mod 2) 1) as [E1|E1];
      destruct (Z.eqb_spec (m mod p) 0) as [E2|E2]; cbn;
      symmetry; try apply negb_true_iff; try apply negb_false_iff;
      try apply Z.eqb_neq; try apply Z.eqb_eq; nia.
Qed.

(** Round to nearest, ties to even, from the round and sticky bits. *)
Definition rne (m : Z) (r s : bool) : Z :=
  if r then (if s then m + 1 else if Z.even m then m else m + 1) else m.

Lemma round_nearest_even_record m m' r s :
  round_nearest_even m (loc_of_shr_record (Build_shr_record m' r s)) = rne m r s.
Proof. by destruct r, s. Qed.

Lemma rne_bounds m r s : m <= rne m r s <= m + 1.
Proof. unfold rne. destruct r, s, (Z.even m); lia. Qed.

(** The shift [shr_fexp] makes on a mantissa of [53 + n] digits. *)
Lemma shr_fexp_shift m e l n :
  0 <= n -> 2 ^ (52 + n) <= m < 2 ^ (53 + n) -> -1074 <= e + n ->
  shr_fexp 53 1024 m e l = shr (shr_record_of_loc m l) e n.
Proof.
  intros Hn Hm He. unfold shr_fexp, fexp, emin.
  rewrite (Zdigits2_eq m (53 + n)); [|lia|].
  - f_equal. lia.
  - by replace (53 + n - 1) with (52 + n) by lia.
Qed.

(** The last step of [binary_round_aux]: a rounded mantissa has 53 digits
    or is 2^53. *)
Definition normalized (M E : Z) : spec_float :=
  if M <? 2 ^ 53 then S754_finite false (Z.to_pos M) E
  else S754_finite false (Z.to_pos (2 ^ 52)) (E + 1).

Lemma binary_round_aux_finish M E :
  2 ^ 52 <= M <= 2 ^ 53 -> -1074 <= E < 971 ->
  (let '(mrs, e) := shr_fexp 53 1024 M E loc_Exact in
   match shr_m mrs with
   | Z0 => S754_zero false
   | Zpos m => if e <=? 1024 - 53 then S754_finite false m e
               else S754_infinity false
   | Zneg _ => S754_nan
   end) = normalized M E.
Proof.
  intros HM HE. unfold normalized.
  destruct (Z.ltb_spec M (2 ^ 53)) as [Hlt|Hge].
  - rewrite (shr_fexp_shift M E loc_Exact 0) by lia.
    cbn [shr shr_record_of_loc shr_m].
    destruct M as [|p|p]; [lia| |lia].
    rewrite Pos2Z.id. destruct (Z.leb_spec E (1024 - 53)); [done|lia].
  - assert (M = 2 ^ 53) as -> by lia.
    rewrite (shr_fexp_shift (2 ^ 53) E loc_Exact 1) by lia.
    cbn [shr shr_record_of_loc]. unfold SpecFloat.iter_pos.
    rewrite shr_1_nonneg by lia. cbn [shr_m].
    change (2 ^ 53 / 2) with (2 ^ 52).
    change (2 ^ 52) with (Z.pos (Z.to_pos (2 ^ 52))) at 1.
    cbv iota. destruct (Z.leb_spec (E + 1) (1024 - 53)); [done|lia].
Qed.

(** [binary_round_aux] on an exact mantissa of [53 + n] digits, [n > 0]. *)
Lemma binary_round_aux_exact m e n :
  0 < n -> 2 ^ (52 + n) <= m < 2 ^ (53 + n) -> -1074 <= e + n < 971 ->
  binary_round_aux 53 1024 false m e loc_Exact
  = normalized (rne (m / 2 ^ n) (Z.testbit m (n - 1))
                    (negb (m mod 2 ^ (n - 1) =? 0)))
               (e + n).
Proof.
  intros Hn Hm He. unfold binary_round_aux.
  rewrite (shr_fexp_shift m e loc_Exact n) by lia.
  destruct n as [|p|p]; [lia| |lia]. cbn [shr shr_record_of_loc].
  rewrite iter_pos_nat.
  destruct (Pos.to_nat p) as [|k] eqn:Hk; [lia|].
  assert (Hp : Z.pos p = Z.of_nat (S k)) by lia.
  assert (0 < m) by (pose proof (Z.pow_pos_nonneg 2 (52 + Z.pos p)); lia).
  rewrite shr_iter_exact by lia. cbn [shr_m].
  rewrite round_nearest_even_record.
  replace (Z.of_nat k) with (Z.pos p - 1) by lia. rewrite <- Hp.
  apply binary_round_aux_finish; [|lia].
  assert (Hq : 2 ^ 52 <= m / 2 ^ Z.pos p < 2 ^ 53).
  { rewrite !(Z.add_comm _ (Z.pos p)), !Z.pow_add_r in Hm by lia.
    assert (0 < 2 ^ Z.pos p) by (apply Z.pow_pos_nonneg; lia).
    split; [apply Z.div_le_lower_bound | apply Z.div_lt_upper_bound]; lia. }
  pose proof (rne_bounds (m / 2 ^ Z.pos p) (Z.testbit m (Z.pos p - 1))
                (negb (m mod 2 ^ (Z.pos p - 1) =? 0))). lia.
Qed.

Lemma pos_iter_xO p k : Z.pos (Pos.iter xO p k) = Z.pos p * 2 ^ Z.pos k.
Proof.
  induction k as [|k IH] using Pos.peano_ind.
  - cbn [Pos.iter]. lia.
  - rewrite Pos.iter_succ, Pos2Z.inj_xO, IH, Pos2Z.inj_succ, Z.pow_succ_r by lia.
    lia.
Qed.

(** A mantissa of exactly 53 digits is left as it is. *)
Lemma binary_round_aux_53 m e :
  2 ^ 52 <= m < 2 ^ 53 -> -1074 <= e < 971 ->
  binary_round_aux 53 1024 false m e loc_Exact
  = S754_finite false (Z.to_pos m) e.
Proof.
  intros Hm He. unfold binary_round_aux.
  rewrite (shr_fexp_shift m e loc_Exact 0) by lia.
  cbn [shr shr_record_of_loc shr_m loc_of_shr_record round_nearest_even].
  rewrite binary_round_aux_finish by lia. unfold normalized.
  destruct (Z.ltb_spec m (2 ^ 53)); [done|lia].
Qed.

(** [float(n)] for [0 < n < 2^53]: the mantissa is [n] shifted to 53
    digits. *)
Lemma float_of_int_pos n :
  0 < n < 2 ^ 53 ->
  float_of_int n
  = S754_finite false (Z.to_pos (n * 2 ^ (53 - Zdigits2 n))) (Zdigits2 n - 53).
Proof.
  intros Hn. destruct n as [|p|p]; [lia| |lia].
  unfold float_of_int, Scenes.prec, Scenes.emax, binary_normalize, binary_round.
  change (Z.pos (digits2_pos p)) with (Zdigits2 (Z.pos p)).
  set (d := Zdigits2 (Z.pos p)).
  assert (Hd : 1 <= d <= 53).
  { unfold d. rewrite Zdigits2_log2 by lia.
    pose proof (Z.log2_nonneg (Z.pos p)).
    assert (Z.log2 (Z.pos p) < 53) by (apply Z.log2_lt_pow2; lia). lia. }
  assert (Hbounds : 2 ^ (d - 1) <= Z.pos p < 2 ^ d).
  { unfold d. rewrite Zdigits2_log2 by lia.
    replace (Z.log2 (Z.pos p) + 1 - 1) with (Z.log2 (Z.pos p)) by lia.
    replace (Z.log2 (Z.pos p) + 1) with (Z.succ (Z.log2 (Z.pos p))) by lia.
    apply Z.log2_spec. lia. }
  assert (Hfexp : fexp 53 1024 (d + 0) = d - 53) by (unfold fexp, emin; lia).
  rewrite Hfexp.
  assert (Hm : 2 ^ 52 <= Z.pos p * 2 ^ (53 - d) < 2 ^ 53).
  { assert (H52 : 2 ^ 52 = 2 ^ (d - 1) * 2 ^ (53 - d))
      by (rewrite <- Z.pow_add_r by lia; f_equal; lia).
    assert (H53 : 2 ^ 53 = 2 ^ d * 2 ^ (53 - d))
      by (rewrite <- Z.pow_add_r by lia; f_equal; lia).
    rewrite H52, H53.
    assert (0 < 2 ^ (53 - d)) by (apply Z.pow_pos_nonneg; lia).
    split; [apply Z.mul_le_mono_nonneg_r | apply Z.mul_lt_mono_pos_r]; lia. }
  unfold shl_align. destruct (d - 53 - 0) as [|k|k] eqn:Hk; [|lia|].
  - assert (d = 53) as Hd53 by lia. rewrite Hd53 in *.
    change (2 ^ (53 - 53)) with 1 in *. rewrite Z.mul_1_r in *.
    rewrite binary_round_aux_53 by lia. done.
  - assert (Hpk : Z.pos (Pos.iter xO p k) = Z.pos p * 2 ^ (53 - d)).
    { rewrite pos_iter_xO. f_equal. f_equal. lia. }
    rewrite Hpk, binary_round_aux_53 by lia. done.
Qed.

Lemma new_location_spec m2 r :
  0 < m2 -> 0 <= r < m2 ->
  new_location m2 r
  = if r =? 0 then loc_Exact else loc_Inexact (2 * r ?= m2).
Proof.
  intros Hm2 Hr. unfold new_location, new_location_even, new_location_odd.
  destruct (Z.even m2) eqn:Hev; [done|].
  destruct (r =? 0); [done|]. f_equal.
  assert (Hodd : Z.odd m2 = true) by (by rewrite <- Z.negb_even, Hev).
  apply Z.odd_spec in Hodd as [k Hk].
  destruct (Z.compare_spec (2 * r + 1) m2), (Z.compare_spec (2 * r) m2);
    try done; lia.
Qed.

Lemma SFdiv_core_binary_53 m1 e1 m2 e2 :
  2 ^ 52 <= m1 < 2 ^ 53 -> 2 ^ 52 <= m2 < 2 ^ 53 -> -1021 <= e1 - e2 ->
  SFdiv_core_binary 53 1024 m1 e1 m2 e2
  = (m1 * 2 ^ 53 / m2, e1 - e2 - 53, new_location m2 (m1 * 2 ^ 53 mod m2)).
Proof.
  intros H1 H2 He. unfold SFdiv_core_binary.
  rewrite (Zdigits2_eq m1 53), (Zdigits2_eq m2 53) by (done || lia).
  assert (He' : Z.min (fexp 53 1024 (53 + e1 - (53 + e2))) (e1 - e2)
                = e1 - e2 - 53) by (unfold fexp, emin; lia).
  rewrite He'. replace (e1 - e2 - (e1 - e2 - 53)) with 53 by lia.
  rewrite Z.shiftl_mul_pow2 by lia. unfold Z.div, Z.modulo.
  by destruct (Z.div_eucl (m1 * 2 ^ 53) m2).
Qed.

(** [binary_round_aux] on a quotient of 53 or 54 digits with its
    location. *)
Definition loc_inexact (l : location) : bool :=
  match l with loc_Exact => false | loc_Inexact _ => true end.

Lemma binary_round_aux_quotient q e l :
  2 ^ 52 <= q < 2 ^ 54 -> -1074 <= e < 970 ->
  binary_round_aux 53 1024 false q e l
  = if q <? 2 ^ 53 then normalized (round_nearest_even q l) e
    else normalized (rne (q / 2) (Z.odd q) (loc_inexact l)) (e + 1).
Proof.
  intros Hq He. unfold binary_round_aux.
  destruct (Z.ltb_spec q (2 ^ 53)) as [Hlt|Hge].
  - rewrite (shr_fexp_shift q e l 0) by lia. cbn [shr].
    assert (Hround :
              round_nearest_even (shr_m (shr_record_of_loc q l))
                (loc_of_shr_record (shr_record_of_loc q l))
              = round_nearest_even q l) by (by destruct l as [|[]]).
    rewrite Hround. apply binary_round_aux_finish; [|lia].
    destruct l as [|[]]; cbn [round_nearest_even]; try destruct (Z.even q); lia.
  - rewrite (shr_fexp_shift q e l 1) by lia. cbn [shr SpecFloat.iter_pos].
    assert (Hshift : shr_1 (shr_record_of_loc q l)
                     = Build_shr_record (q / 2) (Z.odd q) (loc_inexact l)).
    { destruct l as [|[]]; cbn [shr_record_of_loc];
        rewrite shr_1_nonneg by lia; done. }
    rewrite Hshift. cbn [shr_m]. rewrite round_nearest_even_record.
    apply binary_round_aux_finish; [|lia].
    pose proof (rne_bounds (q / 2) (Z.odd q) (loc_inexact l)).
    assert (2 ^ 52 <= q / 2 < 2 ^ 53); [|lia].
    change (2 ^ 54) with (2 ^ 53 * 2) in Hq. change (2 ^ 53) with (2 ^ 52 * 2) in Hge.
    split; [apply Z.div_le_lower_bound | apply Z.div_lt_upper_bound]; lia.
Qed.

(** The quotient of two floats with 53-digit mantissas [m1], [m2]: a
    mantissa [M] of 53 digits and an exponent [c] above [e1 - e2 - 53],
    within half a unit of [m1 / m2]. *)
Lemma SFdiv_spec m1 e1 m2 e2 :
  2 ^ 52 <= m1 < 2 ^ 53 -> 2 ^ 52 <= m2 < 2 ^ 53 ->
  -1021 <= e1 - e2 < 1021 ->
  exists M c,
    SFdiv 53 1024 (S754_finite false (Z.to_pos m1) e1)
                  (S754_finite false (Z.to_pos m2) e2)
    = S754_finite false (Z.to_pos M) (e1 - e2 - 53 + c)
    /\ 0 <= c <= 2
    /\ 2 ^ 52 <= M < 2 ^ 53
    /\ 2 * Z.abs (M * 2 ^ c * m2 - m1 * 2 ^ 53) <= 2 ^ c * m2.
Proof.
  intros H1 H2 He. unfold SFdiv.
  rewrite !Z2Pos.id by lia. rewrite SFdiv_core_binary_53 by lia.
  cbn [xorb].
  set (q := m1 * 2 ^ 53 / m2). set (r := m1 * 2 ^ 53 mod m2).
  assert (Hqr : m1 * 2 ^ 53 = m2 * q + r) by (apply Z.div_mod; lia).
  assert (Hr : 0 <= r < m2) by (apply Z.mod_pos_bound; lia).
  assert (Hq : 2 ^ 52 <= q < 2 ^ 54).
  { change (2 ^ 54) with (2 * 2 ^ 53). nia. }
  rewrite binary_round_aux_quotient, new_location_spec by lia.
  unfold normalized.
  destruct (Z.ltb_spec q (2 ^ 53)) as [Hlt|Hge].
  - set (Mr := round_nearest_even q _).
    assert (HMr : (Mr = q /\ 2 * r <= m2) \/ (Mr = q + 1 /\ m2 <= 2 * r)).
    { unfold Mr. destruct (Z.eqb_spec r 0) as [->|Hr0];
        cbn [round_nearest_even]; [left; lia|].
      destruct (Z.compare_spec (2 * r) m2); [|left; lia|right; lia].
      destruct (Z.even q); [left|right]; lia. }
    destruct (Z.ltb_spec Mr (2 ^ 53)).
    + exists Mr, 0. rewrite Z.add_0_r, Z.pow_0_r. split; [done|].
      split; [lia|]. split; [lia|]. lia.
    + exists (2 ^ 52), 1. split; [done|]. split; [lia|]. split; [lia|].
      change (2 ^ 52 * 2 ^ 1) with (2 ^ 53). change (2 ^ 1) with 2.
      assert (Mr = 2 ^ 53) by lia. lia.
  - set (Mr := rne (q / 2) (Z.odd q) _).
    assert (Hq2 : q = 2 * (q / 2) + (if Z.odd q then 1 else 0)).
    { rewrite (Z.div_mod q 2) at 1 by lia. rewrite Zodd_mod.
      pose proof (Z.mod_pos_bound q 2 ltac:(lia)).
      destruct (Z.eqb_spec (q mod 2) 1); lia. }
    assert (HMr : Z.abs (2 * Mr * m2 - m1 * 2 ^ 53) <= m2).
    { unfold Mr, rne. destruct (Z.odd q).
      - destruct (Z.eqb_spec r 0) as [->|Hr0]; cbn [loc_inexact].
        + destruct (Z.even (q / 2)); nia.
        + nia.
      - nia. }
    assert (2 ^ 52 <= q / 2 < 2 ^ 53).
    { change (2 ^ 54) with (2 ^ 53 * 2) in Hq. change (2 ^ 53) with (2 ^ 52 * 2) in Hge.
      split; [apply Z.div_le_lower_bound | apply Z.div_lt_upper_bound]; lia. }
    pose proof (rne_bounds (q / 2) (Z.odd q)
                  (loc_inexact (if r =? 0 then loc_Exact
                                else loc_Inexact (2 * r ?= m2)))) as Hb.
    fold Mr in Hb.
    destruct (Z.ltb_spec Mr (2 ^ 53)).
    + exists Mr, 1. split; [done|]. split; [lia|]. split; [lia|].
      change (2 ^ 1) with 2. lia.
    + exists (2 ^ 52), 2. split; [f_equal; lia|]. split; [lia|]. split; [lia|].
      assert (Mr = 2 ^ 53) by lia. change (2 ^ 2) with 4.
      change (2 ^ 52 * 4) with (2 * 2 ^ 53). lia.
Qed.

(** The parts of [A] that rounding at bit [g] looks at. *)
Lemma round_bits A g :
  0 < g -> 0 <= A ->
  A = 2 ^ g * (A / 2 ^ g)
      + 2 ^ (g - 1) * (if Z.testbit A (g - 1) then 1 else 0)
      + A mod 2 ^ (g - 1)
  /\ 0 <= A mod 2 ^ (g - 1) < 2 ^ (g - 1)
  /\ 2 ^ g = 2 * 2 ^ (g - 1).
Proof.
  intros Hg HA. set (h := 2 ^ (g - 1)).
  assert (Hh : 0 < h) by (apply Z.pow_pos_nonneg; lia).
  assert (H2h : 2 ^ g = 2 * h).
  { unfold h. rewrite <- Z.pow_succ_r by lia. f_equal. lia. }
  split; [|split; [apply Z.mod_pos_bound; lia | done]].
  rewrite H2h, Z.testbit_odd, Z.shiftr_div_pow2 by lia. fold h.
  rewrite Zodd_mod.
  pose proof (Z.mod_pos_bound (A / h) 2 ltac:(lia)).
  assert (Hdiv : A / (2 * h) = A / h / 2) by (rewrite (Z.mul_comm 2 h), Z.div_div; lia).
  rewrite Hdiv.
  pose proof (Z.div_mod A h ltac:(lia)). pose proof (Z.div_mod (A / h) 2 ltac:(lia)).
  destruct (Z.eqb_spec (A / h mod 2) 1); nia.
Qed.

(** Rounding to nearest even does not go below an even integer [K] that
    is at most half a unit above the exact value, and stays below an
    integer that is more than half a unit above it. *)
Lemma rne_lower A g K :
  0 < g -> 0 <= A -> Z.even K = true ->
  (2 * K - 1) * 2 ^ g <= 2 * A ->
  K <= rne (A / 2 ^ g) (Z.testbit A (g - 1)) (negb (A mod 2 ^ (g - 1) =? 0)).
Proof.
  intros Hg HA HK Hle. destruct (round_bits A g Hg HA) as (Hdec & Hlow & H2).
  set (q := A / 2 ^ g) in *. set (low := A mod 2 ^ (g - 1)) in *.
  set (h := 2 ^ (g - 1)) in *. rewrite H2 in *.
  apply Z.even_spec in HK as [k Hk].
  unfold rne. destruct (Z.testbit A (g - 1)).
  - destruct (Z.eqb_spec low 0) as [Hl0|Hl0]; cbn [negb].
    + destruct (Z.even q) eqn:Hq.
      * apply Z.even_spec in Hq as [j Hj]. nia.
      * nia.
    + nia.
  - nia.
Qed.

Lemma rne_upper A g K :
  0 < g -> 0 <= A ->
  2 * A < (2 * K - 1) * 2 ^ g ->
  rne (A / 2 ^ g) (Z.testbit A (g - 1)) (negb (A mod 2 ^ (g - 1) =? 0)) < K.
Proof.
  intros Hg HA Hlt. destruct (round_bits A g Hg HA) as (Hdec & Hlow & H2).
  set (q := A / 2 ^ g) in *. set (low := A mod 2 ^ (g - 1)) in *.
  set (h := 2 ^ (g - 1)) in *. rewrite H2 in *.
  unfold rne. destruct (Z.testbit A (g - 1)).
  - destruct (Z.eqb_spec low 0) as [Hl0|Hl0]; cbn [negb];
      [destruct (Z.even q)|]; nia.
  - nia.
Qed.

(** [x * 80.0]: the exact product [80 * M], rounded at bit [g]. *)
Lemma SFmul_80 M E :
  2 ^ 52 <= M < 2 ^ 53 -> -1080 <= E < 900 ->
  let g := if 5 * M <? 2 ^ 55 then 6 else 7 in
  SFmul 53 1024 (S754_finite false (Z.to_pos M) E) (float_of_int 80)
  = normalized (rne (80 * M / 2 ^ g) (Z.testbit (80 * M) (g - 1))
                    (negb ((80 * M) mod 2 ^ (g - 1) =? 0)))
               (E + g).
Proof.
  intros HM HE g.
  assert (H80 : float_of_int 80
                = S754_finite false (Z.to_pos (5 * 2 ^ 50)) (-46)) by done.
  rewrite H80. unfold SFmul. cbn [xorb].
  rewrite <- Z2Pos.inj_mul, Z2Pos.id by lia.
  assert (Hg : g = 6 /\ 5 * M < 2 ^ 55 \/ g = 7 /\ 2 ^ 55 <= 5 * M).
  { unfold g. destruct (Z.ltb_spec (5 * M) (2 ^ 55)); [left|right]; done. }
  assert (HA : M * (5 * 2 ^ 50) = 80 * M * 2 ^ 46).
  { change (2 ^ 50) with (16 * 2 ^ 46). lia. }
  rewrite HA, (binary_round_aux_exact _ _ (46 + g)).
  - replace (E + -46 + (46 + g)) with (E + g) by lia.
    assert (Hq : 80 * M * 2 ^ 46 / 2 ^ (46 + g) = 80 * M / 2 ^ g).
    { rewrite Z.pow_add_r, (Z.mul_comm (2 ^ 46)) by lia.
      apply Z.div_mul_cancel_r; lia. }
    assert (Hr : Z.testbit (80 * M * 2 ^ 46) (46 + g - 1)
                 = Z.testbit (80 * M) (g - 1)).
    { replace (46 + g - 1) with (46 + (g - 1)) by lia.
      apply Z.mul_pow2_bits_add. lia. }
    assert (Hs : ((80 * M * 2 ^ 46) mod 2 ^ (46 + g - 1) =? 0)
                 = ((80 * M) mod 2 ^ (g - 1) =? 0)).
    { replace (46 + g - 1) with (g - 1 + 46) by lia.
      rewrite Z.pow_add_r, Z.mul_mod_distr_r by lia.
      destruct (Z.eqb_spec ((80 * M) mod 2 ^ (g - 1)) 0) as [->|Hne];
        [done|]. apply Z.eqb_neq. lia. }
    by rewrite Hq, Hr, Hs.
  - lia.
  - destruct Hg as [[-> Hlt]|[-> Hge]]; lia.
  - lia.
Qed.

Lemma int_of_float_normalized M E :
  2 ^ 52 <= M <= 2 ^ 53 -> E < 0 ->
  int_of_float (normalized M E) = M / 2 ^ (- E).
Proof.
  intros HM HE. unfold normalized.
  destruct (Z.ltb_spec M (2 ^ 53)) as [Hlt|Hge]; cbn [int_of_float].
  - destruct (Z.leb_spec 0 E); [lia|]. by rewrite Z2Pos.id by lia.
  - assert (M = 2 ^ 53) as -> by lia. rewrite Z2Pos.id by lia.
    destruct (Z.leb_spec 0 (E + 1)).
    + assert (E = -1) as -> by lia. done.
    + replace (- E) with (1 + - (E + 1)) by lia.
      rewrite Z.pow_add_r by lia. change (2 ^ 53) with (2 ^ 1 * 2 ^ 52).
      rewrite Z.div_mul_cancel_l; [done| |lia].
      apply Z.pow_nonzero; lia.
Qed.

(** The arithmetic of [int((i / t) * 80)]: [M] is the mantissa of the
    quotient at exponent [-S], and the product is rounded at bit [g]. *)
Lemma progress_arith i t M S g :
  0 < i < t -> t <= 2 ^ 44 -> 51 <= S -> g = 6 \/ g = 7 ->
  0 <= M ->
  2 * Z.abs (M * t - i * 2 ^ S) <= t ->
  rne (80 * M / 2 ^ g) (Z.testbit (80 * M) (g - 1))
      (negb ((80 * M) mod 2 ^ (g - 1) =? 0)) / 2 ^ (S - g)
  = 80 * i / t.
Proof.
  intros Hi Ht HS Hg HM HD.
  set (N := 80 * i / t). set (rho := (80 * i) mod t).
  assert (Hdiv : 80 * i = t * N + rho) by (apply Z.div_mod; lia).
  assert (Hrho : 0 <= rho < t) by (apply Z.mod_pos_bound; lia).
  assert (HN : 0 <= N) by (apply Z.div_pos; lia).
  set (P := 2 ^ S) in *. set (Q := 2 ^ (S - g)).
  assert (HQ : 0 < Q) by (apply Z.pow_pos_nonneg; lia).
  assert (HPQ : P = Q * 2 ^ g).
  { unfold P, Q. rewrite <- Z.pow_add_r by lia. f_equal. lia. }
  assert (HP51 : 2 ^ 51 <= P) by (apply Z.pow_le_mono_r; lia).
  assert (HP16 : exists p, P = 16 * p).
  { exists (2 ^ (S - 4)). unfold P. change 16 with (2 ^ 4).
    rewrite <- Z.pow_add_r by lia. f_equal. lia. }
  assert (HQ2 : exists q', Q = 2 * q').
  { exists (2 ^ (S - g - 1)). unfold Q. rewrite <- Z.pow_succ_r by lia.
    f_equal. lia. }
  assert (H2g : 64 <= 2 ^ g <= 128) by (destruct Hg as [->| ->]; lia).
  set (G := 2 ^ g) in *.
  symmetry. apply Z.div_unique_pos with
    (r := rne (80 * M / G) (Z.testbit (80 * M) (g - 1))
              (negb ((80 * M) mod 2 ^ (g - 1) =? 0)) - Q * N); [|lia].
  fold N. split.
  - (* lower bound *)
    assert (Hlow : N * Q <= rne (80 * M / G) (Z.testbit (80 * M) (g - 1))
                               (negb ((80 * M) mod 2 ^ (g - 1) =? 0))).
    { apply rne_lower; [lia | lia | |].
      - destruct HQ2 as [q' ->]. rewrite Z.even_mul, (Z.even_mul 2).
        cbn. by rewrite orb_true_r.
      - fold G. 
        assert (Hgoal : 2 * N * P - G <= 160 * M); [|nia].
        destruct (Z.eq_dec rho 0) as [Hr0|Hr0].
        + (* exact quotient *)
          destruct HP16 as [p Hp].
          assert (Hc : t * (N * P - 80 * M) = 80 * (i * P - M * t)) by nia.
          assert (Hc40 : N * P - 80 * M <= 40) by nia.
          assert (Hc16 : N * P - 80 * M = 16 * (N * p - 5 * M)) by nia.
          lia.
        + nia. }
    lia.
  - assert (Hup : rne (80 * M / G) (Z.testbit (80 * M) (g - 1))
                      (negb ((80 * M) mod 2 ^ (g - 1) =? 0)) < N * Q + Q).
    { apply rne_upper; [lia | lia |]. fold G.
      assert (Hgoal : 160 * M < 2 * N * P + 2 * P - G); [|nia].
      assert (160 * M * t < (2 * N * P + 2 * P - G) * t); [|nia].
      nia. }
    lia.
Qed.

Lemma shifted_mantissa n :
  0 < n < 2 ^ 53 ->
  1 <= Zdigits2 n <= 53
  /\ 2 ^ 52 <= n * 2 ^ (53 - Zdigits2 n) < 2 ^ 53.
Proof.
  intros Hn. set (d := Zdigits2 n).
  assert (Hlog : d = Z.log2 n + 1) by (apply Zdigits2_log2; lia).
  assert (Hd : 1 <= d <= 53).
  { pose proof (Z.log2_nonneg n).
    assert (Z.log2 n < 53) by (apply Z.log2_lt_pow2; lia). lia. }
  split; [done|].
  assert (Hbounds : 2 ^ (d - 1) <= n < 2 ^ d).
  { rewrite Hlog. replace (Z.log2 n + 1 - 1) with (Z.log2 n) by lia.
    replace (Z.log2 n + 1) with (Z.succ (Z.log2 n)) by lia.
    apply Z.log2_spec. lia. }
  assert (H52 : 2 ^ 52 = 2 ^ (d - 1) * 2 ^ (53 - d))
    by (rewrite <- Z.pow_add_r by lia; f_equal; lia).
  assert (H53 : 2 ^ 53 = 2 ^ d * 2 ^ (53 - d))
    by (rewrite <- Z.pow_add_r by lia; f_equal; lia).
  rewrite H52, H53.
  assert (0 < 2 ^ (53 - d)) by (apply Z.pow_pos_nonneg; lia).
  split; [apply Z.mul_le_mono_nonneg_r | apply Z.mul_lt_mono_pos_r]; lia.
Qed.

(** [int((i / t) * 80)] in binary64 arithmetic is the floor of [80 i / t],
    for [0 <= i < t <= 2^44]. *)
Lemma float_progress_floor i t :
  0 <= i < t -> t <= 2 ^ 44 ->
  int_of_float
    (SFmul 53 1024 (SFdiv 53 1024 (float_of_int i) (float_of_int t))
       (float_of_int 80))
  = 80 * i / t.
Proof.
  intros Hi Ht.
  destruct (shifted_mantissa t ltac:(lia)) as (Hdt & Hm2).
  rewrite (float_of_int_pos t) by lia.
  destruct (Z.eq_dec i 0) as [->|Hi0]; [done|].
  destruct (shifted_mantissa i ltac:(lia)) as (Hdi & Hm1).
  rewrite (float_of_int_pos i) by lia.
  set (a := 53 - Zdigits2 i) in *. set (b := 53 - Zdigits2 t) in *.
  assert (Hab : b <= a).
  { unfold a, b. rewrite !Zdigits2_log2 by lia.
    pose proof (Z.log2_le_mono i t ltac:(lia)). lia. }
  replace (Zdigits2 i - 53) with (- a) by lia.
  replace (Zdigits2 t - 53) with (- b) by lia.
  destruct (SFdiv_spec (i * 2 ^ a) (- a) (t * 2 ^ b) (- b) Hm1 Hm2 ltac:(lia))
    as (M & c & -> & Hc & HM & HD).
  set (S := a - b + 53 - c).
  replace (- a - - b - 53 + c) with (- S) by lia.
  rewrite SFmul_80 by lia. cbv zeta.
  set (g := if 5 * M <? 2 ^ 55 then 6 else 7).
  assert (Hg : g = 6 \/ g = 7) by (unfold g; destruct (_ <? _); lia).
  rewrite int_of_float_normalized.
  - replace (- (- S + g)) with (S - g) by lia.
    apply progress_arith; try lia.
    (* move the bound of the division to [i] and [t] *)
    assert (Hpow : 2 ^ a * 2 ^ 53 = 2 ^ S * (2 ^ b * 2 ^ c)).
    { rewrite <- !Z.pow_add_r by lia. f_equal. lia. }
    set (B := 2 ^ b * 2 ^ c).
    assert (HB : 0 < B) by (apply Z.mul_pos_pos; apply Z.pow_pos_nonneg; lia).
    assert (H1 : M * 2 ^ c * (t * 2 ^ b) - i * 2 ^ a * 2 ^ 53
                 = (M * t - i * 2 ^ S) * B) by (unfold B; nia).
    assert (H2 : 2 ^ c * (t * 2 ^ b) = t * B) by (unfold B; lia).
    rewrite H1, H2, Z.abs_mul, (Z.abs_eq B) in HD by lia.
    nia.
  - pose proof (rne_bounds (80 * M / 2 ^ g) (Z.testbit (80 * M) (g - 1))
                  (negb ((80 * M) mod 2 ^ (g - 1) =? 0))) as Hb.
    assert (2 ^ 52 <= 80 * M / 2 ^ g < 2 ^ 53); [|lia].
    unfold g in *. destruct (Z.ltb_spec (5 * M) (2 ^ 55));
      (split; [apply Z.div_le_lower_bound | apply Z.div_lt_upper_bound]; lia).
  - lia.
Qed.

(** The progress the loop assigns before the scene at index [i] of
    [total_scenes], for up to 2^44 scenes. *)
Lemma render_progress_floor (i total_scenes : nat) :
  (i < total_scenes)%nat -> Z.of_nat total_scenes <= 2 ^ 44 ->
  render_progress i total_scenes = 80 * Z.of_nat i / Z.of_nat total_scenes.
Proof.
  intros Hi Ht. unfold render_progress. apply float_progress_floor; lia.
Qed.

Lemma render_progress_mono (i j total_scenes : nat) :
  (i <= j < total_scenes)%nat -> Z.of_nat total_scenes <= 2 ^ 44 ->
  render_progress i total_scenes <= render_progress j total_scenes.
Proof.
  intros Hij Ht. rewrite !render_progress_floor by lia.
  apply Z.div_le_mono; lia.
Qed.

Lemma render_progress_range (i total_scenes : nat) :
  (i < total_scenes)%nat -> Z.of_nat total_scenes <= 2 ^ 44 ->
  0 <= render_progress i total_scenes < 80.
Proof.
  intros Hi Ht. rewrite render_progress_floor by lia. split.
  - apply Z.div_pos; lia.
  - apply Z.div_lt_upper_bound; lia.
Qed.

End FloatFacts.

(** * Properties of the render jobs *)

Module RenderFacts.
Import Py RenderService Render.
Import Scenes (Scene).

(** ** The state operations *)

Lemma scenes_db_write_job job_id wr σ :
  scenes_db (write_job job_id wr σ) = scenes_db σ.
Proof. reflexivity. Qed.

Lemma world_write_job job_id wr σ : world (write_job job_id wr σ) = world σ.
Proof. reflexivity. Qed.

Lemma trace_write_job job_id wr σ :
  trace (write_job job_id wr σ) = trace σ ++ [JobWrite job_id wr].
Proof. reflexivity. Qed.

Lemma render_jobs_write_job job_id wr σ :
  render_jobs (write_job job_id wr σ)
  = alter (apply_write wr) job_id (render_jobs σ).
Proof. reflexivity. Qed.

Lemma await_render_scene_eq E code scene_id σ :
  await_render_scene E code scene_id σ
  = (set_world (fst (render_scene E code scene_id (world σ)))
       (emit (RenderSceneCall code scene_id) σ),
     snd (render_scene E code scene_id (world σ))).
Proof.
  unfold await_render_scene. cbn [world emit].
  by destruct (render_scene E code scene_id (world σ)).
Qed.

Lemma await_compile_project_eq E scenes project_id audio σ :
  await_compile_project E scenes project_id audio σ
  = (set_world (fst (compile_project E scenes project_id audio (world σ)))
       (emit (CompileProjectCall scenes project_id audio) σ),
     snd (compile_project E scenes project_id audio (world σ))).
Proof.
  unfold await_compile_project. cbn [world emit].
  by destruct (compile_project E scenes project_id audio (world σ)).
Qed.

(** A url that [render_scene] returns is never empty. *)
Lemma render_scene_video_url E code scene_id w w' result :
  render_scene E code scene_id w = (w', Return result) ->
  r_video_url result = "/outputs/" +:+ scene_id +:+ ".mp4".
Proof.
  unfold render_scene. destruct code as [code|]; [|done].
  destruct (manim E w code scene_id) as [process video_file].
  destruct (negb (returncode process =? 0)%Z); [done|].
  destruct (negb video_file); [done|].
  unfold get_video_duration. by intros [= _ <-].
Qed.

(** Whether the loop of [process_render_all_and_combine] renders a
    scene. *)
Definition needs_render (scene : Scene) : bool :=
  negb (bool_decide (Scenes.status scene = Scenes.completed))
  || negb (truthy_opt (Scenes.video_url scene)).

(** The label the job's status gets before scene [i] (0-based). *)
Definition rendering_label (i total_scenes : nat) : string :=
  "Rendering scene " +:+ str_nat (i + 1) +:+ "/" +:+ str_nat total_scenes.

(** The state in which the loop decides about the scene at index [i]:
    status and progress of the job have been assigned. *)
Definition announce (job_id : string) (total_scenes i : nat) (σ : State)
  : State :=
  write_job job_id (SetProgress (render_progress i total_scenes))
    (write_job job_id (SetStatus (rendering_label i total_scenes)) σ).

(** One turn of the loop. *)
Lemma render_each_cons E job_id total_scenes i ref rest σ scene :
  scenes_db σ !! ref = Some scene ->
  render_each E job_id total_scenes i (ref :: rest) σ =
    let σ1 := announce job_id total_scenes i σ in
    if needs_render scene then
      let σ2 := write_scene ref (Scenes.set_status Scenes.rendering) σ1 in
      let run := render_scene E (Scenes.code scene) (Scenes.id scene)
                   (world σ) in
      let σ3 := set_world (fst run)
                  (emit (RenderSceneCall (Scenes.code scene)
                                         (Scenes.id scene)) σ2) in
      match snd run with
      | Return result =>
          render_each E job_id total_scenes (S i) rest
            (store_render_result ref result σ3)
      | Raise e =>
          (write_scene ref (Scenes.set_error_message e)
             (write_scene ref (Scenes.set_status Scenes.failed) σ3),
           Raise ("Failed to render scene " +:+ str_nat (i + 1)
                  +:+ ": " +:+ e))
      end
    else render_each E job_id total_scenes (S i) rest σ1.
Proof.
  intros Hscene. cbn [render_each]. rewrite Hscene.
  fold (rendering_label i total_scenes).
  fold (announce job_id total_scenes i σ). fold (needs_render scene).
  cbv zeta. destruct (needs_render scene); [|done].
  rewrite await_render_scene_eq.
  change (world (write_scene ref (Scenes.set_status Scenes.rendering)
                   (announce job_id total_scenes i σ))) with (world σ).
  by destruct (snd (render_scene E (Scenes.code scene) (Scenes.id scene)
                      (world σ))).
Qed.

(** ** What the writes do to the scenes *)

Lemma scenes_db_announce job_id total_scenes i σ :
  scenes_db (announce job_id total_scenes i σ) = scenes_db σ.
Proof. reflexivity. Qed.

Lemma lookup_store_render_result ref result σ sid :
  scenes_db (store_render_result ref result σ) !! sid
  = if decide (ref = sid)
    then (fun s =>
            Scenes.set_updated_at (utcnow σ)
              (Scenes.set_status Scenes.completed
                 (Scenes.set_duration_seconds (r_duration result)
                    (Scenes.set_thumbnail_url (r_thumbnail_url result)
                       (Scenes.set_video_url (r_video_url result) s)))))
         <$> scenes_db σ !! sid
    else scenes_db σ !! sid.
Proof.
  unfold store_render_result, write_scene, utcnow. cbn [scenes_db world].
  destruct (decide (ref = sid)) as [->|Hne].
  - rewrite !lookup_alter_eq. by destruct (scenes_db σ !! sid).
  - by rewrite !lookup_alter_ne.
Qed.

Lemma lookup_scene_failed ref e σ sid :
  scenes_db (write_scene ref (Scenes.set_error_message e)
               (write_scene ref (Scenes.set_status Scenes.failed) σ)) !! sid
  = if decide (ref = sid)
    then (fun s => Scenes.set_error_message e
                     (Scenes.set_status Scenes.failed s))
         <$> scenes_db σ !! sid
    else scenes_db σ !! sid.
Proof.
  unfold write_scene. cbn [scenes_db].
  destruct (decide (ref = sid)) as [->|Hne].
  - rewrite !lookup_alter_eq. by destruct (scenes_db σ !! sid).
  - by rewrite !lookup_alter_ne.
Qed.

Lemma render_each_app E job_id total_scenes l1 l2 :
  forall i σ,
    render_each E job_id total_scenes i (l1 ++ l2) σ =
      match render_each E job_id total_scenes i l1 σ with
      | (σ1, Return _) =>
          render_each E job_id total_scenes (i + length l1) l2 σ1
      | (σ1, Raise e) => (σ1, Raise e)
      end.
Proof.
  induction l1 as [|ref l1 IH]; intros i σ.
  - cbn [app render_each length]. by rewrite Nat.add_0_r.
  - cbn [app length].
    replace (i + S (length l1)) with (S i + length l1) by lia.
    destruct (scenes_db σ !! ref) as [scene|] eqn:Hscene.
    + rewrite !(render_each_cons _ _ _ _ _ _ _ scene Hscene). cbv zeta.
      destruct (needs_render scene); [|apply IH].
      destruct (snd (render_scene E _ _ _)); [apply IH | done].
    + cbn [render_each]. by rewrite Hscene.
Qed.

(** A run of the loop that comes to its end leaves alone the scenes it
    was not given, keeps rendered scenes rendered, and leaves every
    scene it was given completed with a video url. *)
Lemma render_each_returns E job_id total_scenes refs :
  forall i σ σ',
    render_each E job_id total_scenes i refs σ = (σ', Return ()) ->
    (forall sid, sid ∉ refs -> scenes_db σ' !! sid = scenes_db σ !! sid)
    /\ (forall sid s, scenes_db σ !! sid = Some s -> needs_render s = false ->
          exists s', scenes_db σ' !! sid = Some s' /\ needs_render s' = false)
    /\ (forall ref, ref ∈ refs ->
          exists s', scenes_db σ' !! ref = Some s' /\ needs_render s' = false).
Proof.
  induction refs as [|ref rest IH]; intros i σ σ' Hrun.
  - cbn [render_each] in Hrun. injection Hrun as <-.
    split; [done|]. split; [eauto|]. by intros ref Hin%elem_of_nil.
  - destruct (scenes_db σ !! ref) as [scene|] eqn:Hscene;
      [|by cbn [render_each] in Hrun; rewrite Hscene in Hrun].
    rewrite (render_each_cons _ _ _ _ _ _ _ scene Hscene) in Hrun.
    cbv zeta in Hrun.
    destruct (needs_render scene) eqn:Hneeds.
    + destruct (render_scene E (Scenes.code scene) (Scenes.id scene) (world σ))
        as [w' [result|e]] eqn:Hrender; cbn [fst snd] in Hrun; [|done].
      apply IH in Hrun as (Hframe & Hkeep & Hdone).
      pose proof (render_scene_video_url _ _ _ _ _ _ Hrender) as Hurl.
      match type of Hframe with
      | context [store_render_result ref result ?σ0] => set (σ3 := σ0) in *
      end.
      assert (Hmine : exists s',
                 scenes_db (store_render_result ref result σ3) !! ref = Some s'
                 /\ needs_render s' = false).
      { rewrite lookup_store_render_result, decide_True by done.
        change (scenes_db σ3) with (alter (Scenes.set_status Scenes.rendering)
                                      ref (scenes_db σ)).
        rewrite lookup_alter_eq, Hscene. eexists; split; [done|].
        unfold needs_render. cbn. by rewrite Hurl. }
      split; [|split].
      * intros sid [Hne Hnin]%not_elem_of_cons. rewrite Hframe by done.
        rewrite lookup_store_render_result, decide_False by done.
        change (scenes_db σ3) with (alter (Scenes.set_status Scenes.rendering)
                                      ref (scenes_db σ)).
        by rewrite lookup_alter_ne.
      * intros sid s Hs Hok. destruct (decide (ref = sid)) as [->|Hne].
        -- destruct Hmine as (s' & Hs' & Hok'). by apply (Hkeep _ s').
        -- apply (Hkeep sid s); [|done].
           rewrite lookup_store_render_result, decide_False by done.
           change (scenes_db σ3)
             with (alter (Scenes.set_status Scenes.rendering) ref
                     (scenes_db σ)).
           by rewrite lookup_alter_ne.
      * intros r [->|Hin]%elem_of_cons; [|by apply Hdone].
        destruct Hmine as (s' & Hs' & Hok'). by apply (Hkeep _ s').
    + apply IH in Hrun as (Hframe & Hkeep & Hdone).
      rewrite scenes_db_announce in *.
      split; [|split].
      * intros sid [Hne Hnin]%not_elem_of_cons. by apply Hframe.
      * done.
      * intros r [->|Hin]%elem_of_cons; [|by apply Hdone].
        by apply (Hkeep _ scene).
Qed.

(** ** What a task adds to the trace *)

(** The job dictionary after a sequence of assignments. *)
Definition replay (job_id : string) (ws : list job_write)
    (jobs : gmap string Job) : gmap string Job :=
  foldl (fun m wr => alter (apply_write wr) job_id m) jobs ws.

(** The events of the task that owns [job_id]: assignments to that job
    and awaited calls. *)
Definition task_event (job_id : string) (e : event) : Prop :=
  match e with
  | JobWrite j _ => j = job_id
  | RenderSceneCall _ _ | CompileProjectCall _ _ _ => True
  | JobCreated _ _ => False
  end.

(** [σ'] is [σ] after the events [new] of the task of [job_id]. *)
Record extends (job_id : string) (σ σ' : State) (new : list event) : Prop := {
  ext_trace : trace σ' = trace σ ++ new;
  ext_jobs :
    render_jobs σ' = replay job_id (job_writes job_id new) (render_jobs σ);
  ext_events : Forall (task_event job_id) new;
  ext_projects : projects_db σ' = projects_db σ;
}.

Lemma job_writes_app job_id t1 t2 :
  job_writes job_id (t1 ++ t2) = job_writes job_id t1 ++ job_writes job_id t2.
Proof. apply omap_app. Qed.

Lemma extends_refl job_id σ : extends job_id σ σ [].
Proof. split; [by rewrite app_nil_r | done | constructor | done]. Qed.

Lemma extends_trans job_id σ1 σ2 σ3 new1 new2 :
  extends job_id σ1 σ2 new1 -> extends job_id σ2 σ3 new2 ->
  extends job_id σ1 σ3 (new1 ++ new2).
Proof.
  intros [Ht1 Hj1 He1 Hp1] [Ht2 Hj2 He2 Hp2]. split.
  - by rewrite Ht2, Ht1, app_assoc.
  - rewrite job_writes_app. unfold replay in *.
    by rewrite foldl_app, <- Hj1, <- Hj2.
  - by apply Forall_app.
  - congruence.
Qed.

Lemma extends_write_job job_id wr σ :
  extends job_id σ (write_job job_id wr σ) [JobWrite job_id wr].
Proof.
  split; [done | | by repeat constructor | done].
  unfold job_writes. cbn [omap list_omap write_of_event].
  by rewrite bool_decide_eq_true_2.
Qed.

Lemma extends_write_scene job_id ref f σ :
  extends job_id σ (write_scene ref f σ) [].
Proof.
  split; [by cbn [write_scene trace]; rewrite app_nil_r | done
         | constructor | done].
Qed.

Lemma extends_store_render_result job_id ref result σ :
  extends job_id σ (store_render_result ref result σ) [].
Proof.
  split; [by cbn [store_render_result write_scene trace]; rewrite app_nil_r
         | done | constructor | done].
Qed.

Lemma extends_render_call job_id w code scene_id σ :
  extends job_id σ (set_world w (emit (RenderSceneCall code scene_id) σ))
    [RenderSceneCall code scene_id].
Proof. split; [done | done | by repeat constructor | done]. Qed.

Lemma extends_compile_call job_id w scenes project_id audio σ :
  extends job_id σ
    (set_world w (emit (CompileProjectCall scenes project_id audio) σ))
    [CompileProjectCall scenes project_id audio].
Proof. split; [done | done | by repeat constructor | done]. Qed.

Lemma extends_cons job_id σ σ1 σ' e new :
  extends job_id σ σ1 [e] -> extends job_id σ1 σ' new ->
  extends job_id σ σ' (e :: new).
Proof. apply (extends_trans job_id σ σ1 σ' [e] new). Qed.

Lemma extends_skip job_id σ σ1 σ' new :
  extends job_id σ σ1 [] -> extends job_id σ1 σ' new ->
  extends job_id σ σ' new.
Proof. apply (extends_trans job_id σ σ1 σ' [] new). Qed.

(** Follows a task statement by statement: an assignment to the job or an
    awaited call accounts for the next event, an assignment to a scene for
    none.  The state operations are kept folded, so that a step that does
    not fit fails at once; [fuel] bounds the number of statements. *)
Ltac extends_go fuel :=
  lazymatch fuel with
  | O => fail "extends_steps: out of fuel"
  | S ?fuel' =>
      solve
        [ apply extends_refl
        | eassumption
        | eapply extends_cons;
          [ first [ apply extends_write_job
                  | apply extends_render_call
                  | apply extends_compile_call ]
          | extends_go fuel' ]
        | eapply extends_skip;
          [ apply extends_write_scene | extends_go fuel' ] ]
  end.

Ltac extends_steps fuel :=
  unfold job_completed, job_failed, store_render_result;
  with_strategy opaque [write_job write_scene emit set_world create_job]
    (extends_go fuel).

Lemma extends_announce job_id total_scenes i σ :
  extends job_id σ (announce job_id total_scenes i σ)
    [JobWrite job_id (SetStatus (rendering_label i total_scenes));
     JobWrite job_id (SetProgress (render_progress i total_scenes))].
Proof. extends_steps 4. Qed.

Lemma extends_job_failed job_id e σ :
  extends job_id σ (job_failed job_id e σ)
    [JobWrite job_id (SetStatus "failed");
     JobWrite job_id (SetErrorMessage e)].
Proof. extends_steps 4. Qed.

Lemma extends_job_completed job_id url σ :
  extends job_id σ (job_completed job_id url σ)
    [JobWrite job_id (SetProgress 100);
     JobWrite job_id (SetStatus "completed");
     JobWrite job_id (SetOutputUrl url)].
Proof. extends_steps 4. Qed.

(** The two assignments that open the turn for scene [i]. *)
Definition turn_writes (total_scenes i : nat) : list job_write :=
  [SetStatus (rendering_label i total_scenes);
   SetProgress (render_progress i total_scenes)].

Lemma job_writes_task_cons job_id e new :
  job_writes job_id (e :: new)
  = match write_of_event job_id e with
    | Some wr => wr :: job_writes job_id new
    | None => job_writes job_id new
    end.
Proof. unfold job_writes. cbn [omap list_omap]. by destruct write_of_event. Qed.

Lemma job_writes_write job_id wr new :
  job_writes job_id (JobWrite job_id wr :: new) = wr :: job_writes job_id new.
Proof.
  rewrite job_writes_task_cons. cbn [write_of_event].
  by rewrite bool_decide_eq_true_2.
Qed.

(** The events of the turn for the scene at index [i]: the two
    assignments, then [call], the call of [render_scene] when the scene has
    to be rendered. *)
Definition turn_events (job_id : string) (total_scenes i : nat)
    (call : list event) : list event :=
  JobWrite job_id (SetStatus (rendering_label i total_scenes))
  :: JobWrite job_id (SetProgress (render_progress i total_scenes))
  :: call.

Definition render_call (call : list event) : Prop :=
  call = [] \/ exists code scene_id, call = [RenderSceneCall code scene_id].

(** The turns for the scenes at indices [i], [i+1], ... *)
Fixpoint turns (job_id : string) (total_scenes i : nat)
    (calls : list (list event)) : list event :=
  match calls with
  | [] => []
  | call :: rest =>
      turn_events job_id total_scenes i call
      ++ turns job_id total_scenes (S i) rest
  end.

Lemma turns_job_writes job_id total_scenes calls :
  Forall render_call calls ->
  forall i,
    job_writes job_id (turns job_id total_scenes i calls)
    = flat_map (turn_writes total_scenes) (seq i (length calls)).
Proof.
  induction 1 as [|call calls Hcall _ IH]; intros i; [done|].
  cbn [turns turn_events length seq flat_map turn_writes app].
  rewrite !job_writes_write, job_writes_app, IH.
  by destruct Hcall as [->|(code & scene_id & ->)].
Qed.

Lemma turns_no_compile job_id total_scenes calls :
  Forall render_call calls ->
  forall i,
    Forall (fun e => is_compile_call e = false)
           (turns job_id total_scenes i calls).
Proof.
  induction 1 as [|call calls Hcall _ IH]; intros i; [constructor|].
  cbn [turns turn_events app]. do 2 (constructor; [done|]).
  apply Forall_app. split; [|apply IH].
  destruct Hcall as [->|(code & scene_id & ->)]; by repeat constructor.
Qed.

(** The loop, started at index [i], makes one turn after the other, until
    it is through the list or a render fails. *)
Lemma render_each_turns E job_id total_scenes refs :
  forall i σ σ' r,
    render_each E job_id total_scenes i refs σ = (σ', r) ->
    exists calls,
      extends job_id σ σ' (turns job_id total_scenes i calls)
      /\ Forall render_call calls
      /\ length calls <= length refs
      /\ (forall u, r = Return u -> length calls = length refs).
Proof.
  induction refs as [|ref rest IH]; intros i σ σ' r Hrun.
  - cbn [render_each] in Hrun. injection Hrun as <- <-.
    exists []. split; [apply extends_refl|]. by repeat split.
  - destruct (scenes_db σ !! ref) as [scene|] eqn:Hscene.
    2:{ cbn [render_each] in Hrun. rewrite Hscene in Hrun.
        injection Hrun as <- <-. exists [].
        split; [apply extends_refl|]. repeat split; try done.
        cbn [length]. lia. }
    rewrite (render_each_cons _ _ _ _ _ _ _ scene Hscene) in Hrun.
    cbv zeta in Hrun.
    pose proof (extends_announce job_id total_scenes i σ) as Hann.
    destruct (needs_render scene).
    + destruct (snd (render_scene E (Scenes.code scene) (Scenes.id scene)
                       (world σ))) as [result|e].
      * apply IH in Hrun as (calls & Hext & Hcalls & Hk & Hret).
        exists ([RenderSceneCall (Scenes.code scene) (Scenes.id scene)]
                :: calls).
        split; [|split; [|split]].
        -- cbn [turns turn_events app]. extends_steps 12.
        -- constructor; [right; eauto | done].
        -- cbn [length]. lia.
        -- intros u Hu. cbn [length]. by rewrite (Hret u Hu).
      * injection Hrun as <- <-.
        exists [[RenderSceneCall (Scenes.code scene) (Scenes.id scene)]].
        split; [|split; [|split]].
        -- cbn [turns turn_events app]. extends_steps 8.
        -- constructor; [right; eauto | done].
        -- cbn [length]. lia.
        -- done.
    + apply IH in Hrun as (calls & Hext & Hcalls & Hk & Hret).
      exists ([] :: calls). split; [|split; [|split]].
      -- cbn [turns turn_events app]. extends_steps 4.
      -- constructor; [by left | done].
      -- cbn [length]. lia.
      -- intros u Hu. cbn [length]. by rewrite (Hret u Hu).
Qed.

(** In terms of the job alone: the loop opens [k] turns and never calls
    the combiner. *)
Lemma render_each_trace E job_id total_scenes refs i σ σ' r :
  render_each E job_id total_scenes i refs σ = (σ', r) ->
  exists new k,
    extends job_id σ σ' new
    /\ job_writes job_id new
       = flat_map (turn_writes total_scenes) (seq i k)
    /\ Forall (fun e => is_compile_call e = false) new
    /\ k <= length refs
    /\ (forall u, r = Return u -> k = length refs).
Proof.
  intros (calls & Hext & Hcalls & Hk & Hret)%render_each_turns.
  exists (turns job_id total_scenes i calls), (length calls).
  split; [done|]. split; [by apply turns_job_writes|].
  split; [by apply turns_no_compile|]. done.
Qed.

(** ** A scene that fails to render *)

(** The render of the scene at index [k] of [refs] fails with [e]: the
    loop gets through the [k] scenes before it, then finds that the
    scene [ref] at index [k] has to be rendered, and [render_scene]
    raises [e] on it. *)
Definition render_fails_at (E : Env) (job_id : string) (σ : State)
    (refs : list string) (k : nat) (ref e : string) : Prop :=
  exists σk scene,
    refs !! k = Some ref
    /\ render_each E job_id (length refs) 0 (take k refs) σ = (σk, Return ())
    /\ scenes_db σk !! ref = Some scene
    /\ needs_render scene = true
    /\ snd (render_scene E (Scenes.code scene) (Scenes.id scene) (world σk))
       = Raise e.

(** The state the loop stops in when the render at index [k] fails. *)
Lemma render_each_fails E job_id σ refs k ref e :
  render_fails_at E job_id σ refs k ref e ->
  exists σk scene σL,
    render_each E job_id (length refs) 0 (take k refs) σ = (σk, Return ())
    /\ scenes_db σk !! ref = Some scene
    /\ needs_render scene = true
    /\ render_each E job_id (length refs) 0 refs σ
       = (σL, Raise ("Failed to render scene " +:+ str_nat (k + 1)
                     +:+ ": " +:+ e))
    /\ (forall sid,
          scenes_db σL !! sid
          = if decide (ref = sid)
            then Some (Scenes.set_error_message e
                         (Scenes.set_status Scenes.failed
                            (Scenes.set_status Scenes.rendering scene)))
            else scenes_db σk !! sid).
Proof.
  intros (σk & scene & Hk & Hprefix & Hscene & Hneeds & Hraise).
  exists σk, scene.
  pose proof (take_drop_middle refs k ref Hk) as Hsplit.
  pose proof (lookup_lt_Some _ _ _ Hk) as Hlt.
  eexists. split; [done|]. split; [done|]. split; [done|].
  rewrite <- Hsplit at 2. rewrite render_each_app, Hprefix.
  rewrite length_take, Nat.min_l, Nat.add_0_l by lia.
  rewrite (render_each_cons _ _ _ _ _ _ _ scene Hscene). cbv zeta.
  rewrite Hneeds, Hraise. split; [reflexivity|].
  intros sid. rewrite lookup_scene_failed.
  cbn [set_world emit write_scene scenes_db announce write_job].
  destruct (decide (ref = sid)) as [->|Hne].
  - by rewrite lookup_alter_eq, Hscene.
  - by rewrite lookup_alter_ne.
Qed.

Lemma replay_lookup job_id ws jobs job :
  jobs !! job_id = Some job ->
  replay job_id ws jobs !! job_id = Some (foldl (fun j wr => apply_write wr j) job ws).
Proof.
  revert jobs job. induction ws as [|wr ws IH]; intros jobs job Hjob; [done|].
  cbn [replay foldl]. apply IH. by rewrite lookup_alter_eq, Hjob.
Qed.

Lemma insert_sorted_perm db x l : insert_sorted db x l ≡ₚ x :: l.
Proof.
  induction l as [|y l IH]; cbn [insert_sorted]; [done|].
  destruct (_ <=? _)%Z; [done|]. rewrite IH. apply Permutation_swap.
Qed.

Lemma sort_by_order_index_perm db l : sort_by_order_index db l ≡ₚ l.
Proof.
  induction l as [|x l IH]; cbn [sort_by_order_index]; [done|].
  by rewrite insert_sorted_perm, IH.
Qed.

Lemma project_scenes_NoDup σ project :
  NoDup (scenes project) -> NoDup (project_scenes σ project).
Proof.
  intros Hnd. unfold project_scenes. rewrite sort_by_order_index_perm.
  apply NoDup_ListNoDup, List.NoDup_filter. by apply NoDup_ListNoDup.
Qed.

Lemma needs_render_false scene :
  needs_render scene = false ->
  Scenes.status scene = Scenes.completed
  /\ truthy_opt (Scenes.video_url scene) = true.
Proof.
  unfold needs_render. intros [H1 H2]%orb_false_elim.
  apply negb_false_iff in H1, H2. by apply bool_decide_eq_true in H1.
Qed.

(** A project of three scenes in which the code of the second makes
    manim fail, and the state after [render_all_and_combine] has been
    asked for it. *)
Definition demo_state0 : State :=
  {| render_jobs := ∅;
     scenes_db :=
       {[ "s1" := CombinerFacts.demo_scene "s1" 0 "ok" Scenes.pending None;
          "s2" := CombinerFacts.demo_scene "s2" 1 "fail" Scenes.pending None;
          "s3" := CombinerFacts.demo_scene "s3" 2 "ok" Scenes.pending None ]};
     projects_db :=
       {[ "p" := {| scenes := ["s1"; "s2"; "s3"]; audio_url := None |} ]};
     world := {| files := ∅; clock := 0 |};
     trace := [] |}.

Definition demo_state : State :=
  fst (render_all_and_combine "p" "j" demo_state0).

(** C1. In a render-all-and-combine job, when the render of the scene at
    index [k] (in [order_index] order) fails with [e]: the job ends with
    status "failed" and the message "Failed to render scene k+1: e"; that
    scene ends with status [failed] and [e] as its error message; every
    scene before it in the order ends [completed]; every scene that is
    not among the first [k+1] is exactly as it was before the job ran
    (with distinct scene ids: every scene after it); and the task makes
    no call to [compile_project]. *)
Theorem failed_scene_aborts_job
    (E : Env) (job_id project_id : string) (σ : State) (job : Job)
    (project : Project) (k : nat) (ref e : string) :
  render_jobs σ !! job_id = Some job ->
  projects_db σ !! project_id = Some project ->
  render_fails_at E job_id σ (project_scenes σ project) k ref e ->
  let refs := project_scenes σ project in
  let σ' := fst (process_render_all_and_combine E job_id project_id σ) in
  (exists job',
      render_jobs σ' !! job_id = Some job'
      /\ status job' = "failed"
      /\ error_message job'
         = Some ("Failed to render scene " +:+ str_nat (k + 1) +:+ ": " +:+ e))
  /\ (exists s,
        scenes_db σ' !! ref = Some s
        /\ Scenes.status s = Scenes.failed
        /\ Scenes.error_message s = Some e)
  /\ (forall j r, j < k -> refs !! j = Some r ->
        exists s, scenes_db σ' !! r = Some s
                  /\ Scenes.status s = Scenes.completed)
  /\ (forall sid, sid ∉ take (S k) refs ->
        scenes_db σ' !! sid = scenes_db σ !! sid)
  /\ (NoDup (scenes project) ->
      forall j r, k < j -> refs !! j = Some r ->
        scenes_db σ' !! r = scenes_db σ !! r)
  /\ (exists new,
        trace σ' = trace σ ++ new
        /\ Forall (fun ev => is_compile_call ev = false) new).
Proof.
  intros Hjob Hproj Hfail refs σ'.
  pose proof Hfail as (_ & _ & Hk & _).
  destruct (render_each_fails _ _ _ _ _ _ _ Hfail)
    as (σk & scene & σL & Hprefix & Hscene & Hneeds & Hloop & HσL).
  fold refs in Hprefix, Hloop, Hk.
  set (msg := "Failed to render scene " +:+ str_nat (k + 1) +:+ ": " +:+ e)
    in *.
  assert (Hσ' : σ' = job_failed job_id msg σL).
  { unfold σ', process_render_all_and_combine. rewrite Hjob, Hproj.
    cbv zeta. fold refs. by rewrite Hloop. }
  destruct (render_each_trace _ _ _ _ _ _ _ _ Hloop)
    as (new & n & Hext & _ & Hnc & _).
  destruct (render_each_returns _ _ _ _ _ _ _ Hprefix)
    as (Hframe & _ & Hdone).
  assert (Hscenes : forall sid,
             scenes_db σ' !! sid
             = if decide (ref = sid)
               then Some (Scenes.set_error_message e
                            (Scenes.set_status Scenes.failed
                               (Scenes.set_status Scenes.rendering scene)))
               else scenes_db σk !! sid).
  { intros sid. rewrite Hσ'. apply HσL. }
  assert (Huntouched : forall sid, sid ∉ take (S k) refs ->
             scenes_db σ' !! sid = scenes_db σ !! sid).
  { intros sid Hnin. rewrite (take_S_r _ _ _ Hk) in Hnin.
    apply not_elem_of_app in Hnin as [Hnin Hne%not_elem_of_cons].
    rewrite Hscenes, decide_False by (intros ->; by destruct Hne).
    by apply Hframe. }
  split; [|split; [|split; [|split; [|split]]]].
  - rewrite Hσ'. unfold job_failed. rewrite !render_jobs_write_job.
    rewrite !lookup_alter_eq, (ext_jobs _ _ _ _ Hext).
    rewrite (replay_lookup _ _ _ _ Hjob). by eexists.
  - rewrite Hscenes, decide_True by done. by eexists.
  - intros j r Hj Hr.
    assert (Hin : r ∈ take k refs).
    { apply list_elem_of_lookup. exists j. by rewrite lookup_take_lt. }
    destruct (Hdone r Hin) as (s & Hs & Hok).
    exists s. split; [|by apply needs_render_false].
    rewrite Hscenes, decide_False; [done|]. intros <-. congruence.
  - exact Huntouched.
  - intros Hnd j r Hj Hr. apply Huntouched. intros Hin.
    apply list_elem_of_lookup in Hin as (i & Hi).
    pose proof (lookup_lt_Some _ _ _ Hi) as Hlen.
    rewrite length_take in Hlen.
    rewrite lookup_take_lt in Hi by lia.
    pose proof (project_scenes_NoDup σ project Hnd) as Hnd'.
    pose proof (NoDup_lookup _ _ _ _ Hnd' Hi Hr). lia.
  - eexists. rewrite Hσ'. split.
    + rewrite (ext_trace _ _ _ _ (extends_job_failed job_id msg σL)).
      rewrite (ext_trace _ _ _ _ Hext), <- app_assoc. reflexivity.
    + apply Forall_app. split; [done|]. by repeat constructor.
Qed.

Lemma demo_render_fails :
  render_fails_at CombinerFacts.demo_env "j" demo_state
    (project_scenes demo_state
       {| scenes := ["s1"; "s2"; "s3"]; audio_url := None |})
    1 "s2" "Manim render failed: boom".
Proof.
  eexists _, _. split; [reflexivity|]. split; [vm_compute; reflexivity|].
  split; [vm_compute; reflexivity|]. split; reflexivity.
Defined.

Lemma failed_scene_aborts_job_witness :
  let σ' := fst (process_render_all_and_combine CombinerFacts.demo_env
                   "j" "p" demo_state) in
  (exists job',
      render_jobs σ' !! "j" = Some job'
      /\ status job' = "failed"
      /\ error_message job'
         = Some "Failed to render scene 2: Manim render failed: boom")
  /\ (exists s,
        scenes_db σ' !! "s2" = Some s
        /\ Scenes.status s = Scenes.failed
        /\ Scenes.error_message s = Some "Manim render failed: boom")
  /\ (exists s, scenes_db σ' !! "s1" = Some s
                /\ Scenes.status s = Scenes.completed)
  /\ scenes_db σ' !! "s3" = scenes_db demo_state !! "s3".
Proof.
  intros σ'.
  destruct (failed_scene_aborts_job CombinerFacts.demo_env "j" "p"
              demo_state _ _ 1 "s2" "Manim render failed: boom"
              eq_refl eq_refl demo_render_fails)
    as (H1 & H2 & H3 & H4 & _).
  split; [exact H1|]. split; [exact H2|]. split.
  - apply (H3 0 "s1"); [lia | reflexivity].
  - apply H4. apply (bool_decide_unpack _). vm_compute. exact I.
Defined.

(** ** The single-scene job *)

(** The events of [process_render] once its two lookups succeed. *)
Lemma process_render_events E job_id scene_id σ job scene :
  render_jobs σ !! job_id = Some job ->
  scenes_db σ !! scene_id = Some scene ->
  let run := render_scene E (Scenes.code scene) scene_id (world σ) in
  exists σ',
    process_render E job_id scene_id σ = (σ', Return ())
    /\ extends job_id σ σ'
         ([JobWrite job_id (SetStatus "rendering");
           JobWrite job_id (SetProgress 10);
           RenderSceneCall (Scenes.code scene) scene_id]
          ++ match snd run with
             | Return result =>
                 [JobWrite job_id (SetProgress 100);
                  JobWrite job_id (SetStatus "completed");
                  JobWrite job_id (SetOutputUrl (r_video_url result))]
             | Raise e =>
                 [JobWrite job_id (SetStatus "failed");
                  JobWrite job_id (SetErrorMessage e)]
             end).
Proof.
  intros Hjob Hscene run. unfold process_render. rewrite Hjob, Hscene.
  rewrite await_render_scene_eq.
  change (world (write_scene scene_id _ (write_job job_id _ (write_job job_id _ σ))))
    with (world σ).
  fold run. destruct (snd run) as [result|e]; eexists; (split; [reflexivity|]).
  - cbn [app]. extends_steps 14.
  - cbn [app]. extends_steps 12.
Qed.

(** The events of [process_export] once its two lookups succeed. *)
Lemma process_export_events E job_id project_id σ job project :
  render_jobs σ !! job_id = Some job ->
  projects_db σ !! project_id = Some project ->
  let scenes := deref σ (project_scenes σ project) in
  let run := compile_project E scenes project_id (audio_url project) (world σ) in
  exists σ',
    process_export E job_id project_id σ = (σ', Return ())
    /\ extends job_id σ σ'
         ([JobWrite job_id (SetStatus "compiling");
           JobWrite job_id (SetProgress 10);
           CompileProjectCall scenes project_id (audio_url project)]
          ++ match snd run with
             | Return url =>
                 [JobWrite job_id (SetProgress 100);
                  JobWrite job_id (SetStatus "completed");
                  JobWrite job_id (SetOutputUrl url)]
             | Raise e =>
                 [JobWrite job_id (SetStatus "failed");
                  JobWrite job_id (SetErrorMessage e)]
             end).
Proof.
  intros Hjob Hproj scenes run. unfold process_export. rewrite Hjob, Hproj.
  cbv zeta. rewrite await_compile_project_eq.
  change (world (write_job job_id _ (write_job job_id _ σ))) with (world σ).
  change (deref (write_job job_id _ (write_job job_id _ σ))
            (project_scenes (write_job job_id _ (write_job job_id _ σ)) project))
    with scenes.
  fold run. destruct (snd run) as [url|e]; eexists; (split; [reflexivity|]).
  - cbn [app]. extends_steps 8.
  - cbn [app]. extends_steps 8.
Qed.

(** How a render-all-and-combine task ends after [k] turns of its loop over
    [total_scenes] scenes: the combiner is reached only after a turn for
    every scene. *)
Inductive render_all_ending (job_id project_id : string)
    (audio : option string) (total_scenes k : nat) : list event -> Prop :=
| EndCombined scenes url :
    k = total_scenes ->
    render_all_ending job_id project_id audio total_scenes k
      [JobWrite job_id (SetStatus "Combining scenes");
       JobWrite job_id (SetProgress 85);
       CompileProjectCall scenes project_id audio;
       JobWrite job_id (SetProgress 100);
       JobWrite job_id (SetStatus "completed");
       JobWrite job_id (SetOutputUrl url)]
| EndCombineFailed scenes e :
    k = total_scenes ->
    render_all_ending job_id project_id audio total_scenes k
      [JobWrite job_id (SetStatus "Combining scenes");
       JobWrite job_id (SetProgress 85);
       CompileProjectCall scenes project_id audio;
       JobWrite job_id (SetStatus "failed");
       JobWrite job_id (SetErrorMessage e)]
| EndSceneFailed e :
    render_all_ending job_id project_id audio total_scenes k
      [JobWrite job_id (SetStatus "failed");
       JobWrite job_id (SetErrorMessage e)].

(** The events of [process_render_all_and_combine] once its two lookups
    succeed: the turns of the loop, then one of the three endings. *)
Lemma process_render_all_events E job_id project_id σ job project :
  render_jobs σ !! job_id = Some job ->
  projects_db σ !! project_id = Some project ->
  let total_scenes := length (project_scenes σ project) in
  exists σ' calls ending,
    process_render_all_and_combine E job_id project_id σ = (σ', Return ())
    /\ extends job_id σ σ' (turns job_id total_scenes 0 calls ++ ending)
    /\ Forall render_call calls
    /\ length calls <= total_scenes
    /\ render_all_ending job_id project_id (audio_url project)
         total_scenes (length calls) ending.
Proof.
  intros Hjob Hproj total_scenes. unfold process_render_all_and_combine.
  rewrite Hjob, Hproj. cbv zeta. fold total_scenes.
  destruct (render_each E job_id total_scenes 0 (project_scenes σ project) σ)
    as [σL r] eqn:Hloop.
  destruct (render_each_turns _ _ _ _ _ _ _ _ Hloop)
    as (calls & Hext & Hcalls & Hk & Hret).
  fold total_scenes in Hk, Hret.
  destruct r as [[]|e].
  - rewrite await_compile_project_eq.
    match goal with
    | |- context [compile_project E ?sc project_id ?au ?w] =>
        destruct (compile_project E sc project_id au w) as [w' [url|e]]
    end; cbn [fst snd]; eexists _, calls, _;
      (split; [reflexivity|]); (split; [|split; [done|]]).
    + eapply extends_trans; [exact Hext|].
      do 2 (eapply extends_cons; [apply extends_write_job|]).
      eapply extends_cons; [apply extends_compile_call|].
      apply extends_job_completed.
    + split; [done|]. constructor. by apply (Hret ()).
    + eapply extends_trans; [exact Hext|].
      do 2 (eapply extends_cons; [apply extends_write_job|]).
      eapply extends_cons; [apply extends_compile_call|].
      apply extends_job_failed.
    + split; [done|]. constructor. by apply (Hret ()).
  - eexists _, calls, _. split; [reflexivity|]. split; [|split; [done|]].
    + eapply extends_trans; [exact Hext|]. apply extends_job_failed.
    + split; [done|]. constructor.
Qed.

(** ** Terminal status *)

Definition task_job (t : background_task) : string :=
  match t with
  | ProcessRender job_id _ => job_id
  | ProcessExport job_id _ => job_id
  | ProcessRenderAllAndCombine job_id _ => job_id
  end.

(** No assignment follows the assignment of a terminal status. *)
Definition frozen_once_terminal (ws : list job_write) : Prop :=
  forall pre s post,
    ws = pre ++ SetStatus s :: post -> terminal s = true -> post = [].

Definition not_terminal_write (ev : event) : Prop :=
  match ev with
  | JobWrite _ (SetStatus s) => terminal s = false
  | _ => True
  end.

(** The events end with the assignment of a terminal status and one more
    assignment to the same job, of its output url after "completed" and of
    its error message after "failed"; no terminal status is assigned
    before. *)
Definition settles (job_id : string) (new : list event) : Prop :=
  exists pre s wr,
    new = pre ++ [JobWrite job_id (SetStatus s); JobWrite job_id wr]
    /\ Forall not_terminal_write pre
    /\ ((s = "completed" /\ exists url, wr = SetOutputUrl url)
        \/ (s = "failed" /\ exists e, wr = SetErrorMessage e)).

Lemma terminal_rendering_label i total_scenes :
  terminal (rendering_label i total_scenes) = false.
Proof.
  unfold terminal, rendering_label. cbn [String.append].
  by rewrite !bool_decide_eq_false_2.
Qed.

Lemma elem_of_job_writes job_id wr new :
  JobWrite job_id wr ∈ new -> wr ∈ job_writes job_id new.
Proof.
  intros Hin. unfold job_writes. apply list_elem_of_omap.
  exists (JobWrite job_id wr). split; [done|].
  cbn [write_of_event]. by rewrite bool_decide_eq_true_2.
Qed.

Lemma turns_not_terminal job_id total_scenes turns i k :
  Forall (task_event job_id) turns ->
  job_writes job_id turns = flat_map (turn_writes total_scenes) (seq i k) ->
  Forall not_terminal_write turns.
Proof.
  intros Hev Hw. apply Forall_forall. intros ev Hin.
  destruct ev as [| j [s| | |] | |]; try done.
  rewrite Forall_forall in Hev. specialize (Hev _ Hin). cbn in Hev. subst j.
  apply elem_of_job_writes in Hin. rewrite Hw in Hin.
  apply list_elem_of_In, in_flat_map in Hin as (n & _ & Hin).
  cbn [turn_writes] in Hin. destruct Hin as [[= <-]|[[=]|[]]].
  apply terminal_rendering_label.
Qed.

Lemma run_task_lookups E t σ σ' :
  run_task E t σ = (σ', Return ()) ->
  is_Some (render_jobs σ !! task_job t)
  /\ match t with
     | ProcessRender _ scene_id => is_Some (scenes_db σ !! scene_id)
     | ProcessExport _ project_id
     | ProcessRenderAllAndCombine _ project_id =>
         is_Some (projects_db σ !! project_id)
     end.
Proof.
  destruct t as [job_id scene_id|job_id project_id|job_id project_id];
    cbn [run_task task_job];
    [unfold process_render; destruct (scenes_db σ !! scene_id)
    |unfold process_export; destruct (projects_db σ !! project_id)
    |unfold process_render_all_and_combine;
     destruct (projects_db σ !! project_id)];
    destruct (render_jobs σ !! job_id); try done; by eauto.
Qed.

(** The state in which the job "j" for scene "s1" has been accepted. *)
Definition demo_single : State :=
  fst (render_single_scene "s1" "j" demo_state0).

(** C8, as stated, fails: in the run of a single-scene job whose render
    succeeds, the job's output url is assigned after its status has become
    "completed". *)
Lemma terminal_job_counterexample :
  ~ frozen_once_terminal
      (job_writes "j"
         (trace (fst (run_task CombinerFacts.demo_env
                        (ProcessRender "j" "s1") demo_single)))).
Proof.
  intros Hfrozen.
  assert (Hpost : [SetOutputUrl "/outputs/s1.mp4"] = []); [|discriminate].
  apply (Hfrozen [SetStatus "rendering"; SetProgress 10; SetProgress 100]
           "completed"); [vm_compute|]; reflexivity.
Qed.

(** C8, amended. A task that runs assigns a terminal status to its job
    exactly once: no terminal status is assigned before, the only event
    after it is one more assignment to the same job (its output url after
    "completed", its error message after "failed", with no awaited call in
    between), and then the task is over; status and progress are not
    assigned again.  The task assigns to no other job. *)
Theorem terminal_status_then_one_write
    (E : Env) (t : background_task) (σ σ' : State) :
  run_task E t σ = (σ', Return ()) ->
  exists new,
    extends (task_job t) σ σ' new /\ settles (task_job t) new.
Proof.
  intros Hrun. destruct (run_task_lookups _ _ _ _ Hrun) as [[job Hjob] Hsome].
  destruct t as [job_id scene_id|job_id project_id|job_id project_id];
    cbn [run_task task_job] in *.
  - destruct Hsome as [scene Hscene].
    destruct (process_render_events E _ _ _ _ _ Hjob Hscene)
      as (σ'' & Heq & Hext).
    rewrite Heq in Hrun. injection Hrun as <-.
    eexists. split; [exact Hext|].
    destruct (snd (render_scene E (Scenes.code scene) scene_id (world σ))).
    + eexists [JobWrite job_id (SetStatus "rendering");
              JobWrite job_id (SetProgress 10);
              RenderSceneCall (Scenes.code scene) scene_id;
              JobWrite job_id (SetProgress 100)], "completed", _.
      split; [reflexivity|]. split; [by repeat constructor|]. left. eauto.
    + eexists [JobWrite job_id (SetStatus "rendering");
              JobWrite job_id (SetProgress 10);
              RenderSceneCall (Scenes.code scene) scene_id], "failed", _.
      split; [reflexivity|]. split; [by repeat constructor|]. right. eauto.
  - destruct Hsome as [project Hproj].
    destruct (process_export_events E _ _ _ _ _ Hjob Hproj)
      as (σ'' & Heq & Hext).
    rewrite Heq in Hrun. injection Hrun as <-.
    eexists. split; [exact Hext|].
    destruct (snd (compile_project E _ project_id _ (world σ))).
    + eexists [JobWrite job_id (SetStatus "compiling");
               JobWrite job_id (SetProgress 10);
               CompileProjectCall _ project_id (audio_url project);
               JobWrite job_id (SetProgress 100)], "completed", _.
      split; [reflexivity|]. split; [by repeat constructor|]. left. eauto.
    + eexists [JobWrite job_id (SetStatus "compiling");
               JobWrite job_id (SetProgress 10);
               CompileProjectCall _ project_id (audio_url project)],
        "failed", _.
      split; [reflexivity|]. split; [by repeat constructor|]. right. eauto.
  - destruct Hsome as [project Hproj].
    destruct (process_render_all_events E _ _ _ _ _ Hjob Hproj)
      as (σ'' & calls & ending & Heq & Hext & Hcalls & _ & Hend).
    rewrite Heq in Hrun. injection Hrun as <-.
    eexists. split; [exact Hext|].
    set (turns := turns job_id _ 0 calls) in *.
    assert (Hturns : Forall not_terminal_write turns).
    { eapply turns_not_terminal; [|by apply turns_job_writes].
      by destruct (proj1 (Forall_app _ _ _) (ext_events _ _ _ _ Hext)). }
    destruct Hend as [scenes url _|scenes e _|e].
    + eexists (turns ++ [JobWrite job_id (SetStatus "Combining scenes");
                        JobWrite job_id (SetProgress 85);
                        CompileProjectCall scenes project_id
                          (audio_url project);
                        JobWrite job_id (SetProgress 100)]), "completed", _.
      split; [by rewrite <- app_assoc|].
      split; [apply Forall_app; split; [done|by repeat constructor]|].
      left. eauto.
    + eexists (turns ++ [JobWrite job_id (SetStatus "Combining scenes");
                        JobWrite job_id (SetProgress 85);
                        CompileProjectCall scenes project_id
                          (audio_url project)]), "failed", _.
      split; [by rewrite <- app_assoc|].
      split; [apply Forall_app; split; [done|by repeat constructor]|].
      right. eauto.
    + eexists turns, "failed", _.
      split; [reflexivity|]. split; [done|]. right. eauto.
Qed.

Lemma terminal_status_then_one_write_witness :
  exists new,
    extends "j" demo_state
      (fst (run_task CombinerFacts.demo_env
              (ProcessRenderAllAndCombine "j" "p") demo_state)) new
    /\ settles "j" new.
Proof.
  apply (terminal_status_then_one_write CombinerFacts.demo_env
           (ProcessRenderAllAndCombine "j" "p") demo_state).
  vm_compute. reflexivity.
Defined.

(** ** Progress of a single-scene job *)

Lemma progress_values_app job_id t1 t2 :
  progress_values job_id (t1 ++ t2)
  = progress_values job_id t1 ++ progress_values job_id t2.
Proof. apply omap_app. Qed.

Definition progress_of_write (wr : job_write) : option Z :=
  match wr with SetProgress v => Some v | _ => None end.

(** Among the events of a task, the progress values are those of its
    assignments. *)
Lemma progress_values_task job_id new :
  Forall (task_event job_id) new ->
  progress_values job_id new = omap progress_of_write (job_writes job_id new).
Proof.
  induction 1 as [|ev new Hev _ IH]; [done|].
  rewrite job_writes_task_cons. unfold progress_values in *.
  cbn [omap list_omap]. rewrite IH.
  destruct ev as [|j wr| |]; cbn in Hev; try done. subst j.
  cbn [write_of_event progress_of_event]. rewrite bool_decide_eq_true_2 by done.
  by destruct wr.
Qed.

Lemma progress_values_created job_id job new :
  progress_values job_id (JobCreated job_id job :: new)
  = progress job :: progress_values job_id new.
Proof.
  unfold progress_values. cbn [omap list_omap progress_of_event].
  by rewrite bool_decide_eq_true_2.
Qed.

(** C7, as stated, fails: the task of a single-scene job assigns 10 to the
    job's progress when it starts. *)
Lemma single_render_progress_counterexample :
  ~ Forall (fun v => v = 0%Z \/ v = 100%Z)
      (progress_values "j"
         (trace (fst (run_task CombinerFacts.demo_env
                        (ProcessRender "j" "s1") demo_single)))).
Proof.
  assert (Hvalues :
            progress_values "j"
              (trace (fst (run_task CombinerFacts.demo_env
                             (ProcessRender "j" "s1") demo_single)))
            = [0; 10; 100]%Z) by (vm_compute; reflexivity).
  rewrite Hvalues. intros Hall.
  apply Forall_cons in Hall as [_ Hall].
  apply Forall_cons in Hall as [[H10|H10] _]; discriminate.
Qed.

(** C7, amended. The progress of a single-scene job is 0 when the job is
    created, 10 once its task has started, and 100 only when the render
    has succeeded.  The task calls the render service once, on the
    scene's code, and the outcome of that call decides: when it returns,
    the task assigns 100, the values the progress takes are 0, 10, 100
    and the job ends "completed" with progress 100 and the video url of
    the result as its output url; when it raises, no further value is
    assigned, the values are 0, 10 and the job ends "failed" with its
    progress left at 10 and the error as its message. *)
Theorem single_render_progress_values
    (E : Env) (scene_id job_id : string) (σ σ1 : State)
    (response : RenderResponse) (task : background_task) :
  render_single_scene scene_id job_id σ = (σ1, Accepted response task) ->
  exists scene job σ2 new job',
    scenes_db σ !! scene_id = Some scene
    /\ data response = Some job
    /\ progress job = 0%Z
    /\ run_task E task σ1 = (σ2, Return ())
    /\ trace σ2 = trace σ ++ new
    /\ render_jobs σ2 !! job_id = Some job'
    /\ match snd (render_scene E (Scenes.code scene) scene_id (world σ)) with
       | Return result =>
           new = [JobCreated job_id job;
                  JobWrite job_id (SetStatus "rendering");
                  JobWrite job_id (SetProgress 10);
                  RenderSceneCall (Scenes.code scene) scene_id;
                  JobWrite job_id (SetProgress 100);
                  JobWrite job_id (SetStatus "completed");
                  JobWrite job_id (SetOutputUrl (r_video_url result))]
           /\ progress_values job_id new = [0; 10; 100]%Z
           /\ status job' = "completed" /\ progress job' = 100%Z
           /\ output_url job' = Some (r_video_url result)
       | Raise e =>
           new = [JobCreated job_id job;
                  JobWrite job_id (SetStatus "rendering");
                  JobWrite job_id (SetProgress 10);
                  RenderSceneCall (Scenes.code scene) scene_id;
                  JobWrite job_id (SetStatus "failed");
                  JobWrite job_id (SetErrorMessage e)]
           /\ progress_values job_id new = [0; 10]%Z
           /\ status job' = "failed" /\ progress job' = 10%Z
           /\ error_message job' = Some e
       end.
Proof.
  unfold render_single_scene.
  destruct (scenes_db σ !! scene_id) as [scene|] eqn:Hscene; [|done].
  destruct (negb (truthy_opt (Scenes.code scene))); [done|].
  intros [= <- <- <-]. cbn [run_task data].
  match goal with
  | |- context [create_job job_id ?j σ] => set (job := j)
  end.
  assert (Hjob : render_jobs (create_job job_id job σ) !! job_id = Some job)
    by apply lookup_insert_eq.
  destruct (process_render_events E job_id scene_id _ job scene Hjob Hscene)
    as (σ2 & Heq & Hext).
  change (world (create_job job_id job σ)) with (world σ) in Hext.
  exists scene, job, σ2. eexists (JobCreated job_id job :: _), _.
  split; [reflexivity|]. split; [reflexivity|]. split; [reflexivity|].
  split; [exact Heq|]. split; [|split].
  - rewrite (ext_trace _ _ _ _ Hext). cbn [create_job emit trace].
    by rewrite <- app_assoc.
  - rewrite (ext_jobs _ _ _ _ Hext). by apply replay_lookup.
  - rewrite progress_values_created,
      (progress_values_task _ _ (ext_events _ _ _ _ Hext)).
    destruct (snd (render_scene E (Scenes.code scene) scene_id (world σ)));
      cbn [app]; (split; [reflexivity|]);
      rewrite !job_writes_write, job_writes_task_cons;
      cbn [write_of_event]; rewrite !job_writes_write; done.
Qed.

Lemma single_render_progress_values_witness :
  exists σ2 job',
    run_task CombinerFacts.demo_env (ProcessRender "j" "s1") demo_single
    = (σ2, Return ())
    /\ progress_values "j" (trace σ2) = [0; 10; 100]%Z
    /\ render_jobs σ2 !! "j" = Some job'
    /\ status job' = "completed"
    /\ progress job' = 100%Z
    /\ output_url job' = Some "/outputs/s1.mp4".
Proof.
  destruct (single_render_progress_values CombinerFacts.demo_env "s1" "j"
              demo_state0 demo_single
              {| success := true;
                 data := Some {| id := "j"; scene_id := Some "s1";
                                 project_id := Some "p"; status := "pending";
                                 progress := 0; output_url := None;
                                 error_message := None; created_at := 0 |};
                 message := Some "Render job started" |}
              (ProcessRender "j" "s1") eq_refl)
    as (scene & job & σ2 & new & job' & Hscene & _ & _ & Hrun & Htrace & Hjob
        & Hcase).
  vm_compute in Hscene. injection Hscene as <-.
  destruct (snd (render_scene CombinerFacts.demo_env _ "s1" _))
    as [result|e] eqn:Hrender; vm_compute in Hrender; [|discriminate].
  injection Hrender as <-.
  destruct Hcase as (_ & Hvalues & Hstatus & Hprogress & Hurl).
  exists σ2, job'. split; [exact Hrun|]. rewrite Htrace.
  split; [exact Hvalues|]. split; [exact Hjob|]. split; [exact Hstatus|].
  split; [exact Hprogress | exact Hurl].
Defined.

(** ** Submitting an export *)

(** Every scene of the list that is in the registry is completed. *)
Definition all_rendered (db : gmap string Scene) (scene_ids : list string)
  : Prop :=
  forall sid s, sid ∈ scene_ids -> db !! sid = Some s ->
                Scenes.status s = Scenes.completed.

Lemma first_not_rendered_None db scene_ids :
  first_not_rendered db scene_ids = None <-> all_rendered db scene_ids.
Proof.
  unfold all_rendered. induction scene_ids as [|sid rest IH];
    cbn [first_not_rendered].
  - split; [|done]. by intros _ sid s Hin%elem_of_nil.
  - destruct (db !! sid) as [scene|] eqn:Hscene.
    + destruct (decide (Scenes.status scene = Scenes.completed)) as [Hc|Hc].
      * rewrite bool_decide_eq_true_2 by done. cbn [negb]. rewrite IH.
        split.
        -- intros Hrest x s [->|Hin]%elem_of_cons Hx; [congruence|eauto].
        -- intros Hall x s Hin. apply Hall. by right.
      * rewrite bool_decide_eq_false_2 by done. cbn [negb].
        split; [done|]. intros Hall. destruct Hc. apply (Hall sid); [left|done].
    + rewrite IH. split.
      * intros Hrest x s [->|Hin]%elem_of_cons Hx; [congruence|eauto].
      * intros Hall x s Hin. apply Hall. by right.
Qed.

Lemma first_not_rendered_Some db scene_ids sid :
  first_not_rendered db scene_ids = Some sid ->
  exists pre post s,
    scene_ids = pre ++ sid :: post
    /\ db !! sid = Some s
    /\ Scenes.status s <> Scenes.completed
    /\ all_rendered db pre.
Proof.
  induction scene_ids as [|x rest IH]; cbn [first_not_rendered]; [done|].
  assert (Hskip : first_not_rendered db rest = Some sid ->
                  (forall s, db !! x = Some s ->
                             Scenes.status s = Scenes.completed) ->
                  exists pre post s,
                    x :: rest = pre ++ sid :: post /\ db !! sid = Some s
                    /\ Scenes.status s <> Scenes.completed
                    /\ all_rendered db pre).
  { intros (pre & post & s & -> & Hs & Hns & Hpre)%IH Hx.
    exists (x :: pre), post, s. split; [done|]. split; [done|]. split; [done|].
    intros y sy [->|Hin]%elem_of_cons Hy; [by apply Hx | by apply (Hpre y)]. }
  destruct (db !! x) as [scene|] eqn:Hscene; [|intros H; by apply Hskip].
  destruct (decide (Scenes.status scene = Scenes.completed)) as [Hc|Hc].
  - rewrite bool_decide_eq_true_2 by done. cbn [negb].
    intros H. apply Hskip; [done|]. by intros s [= <-].
  - rewrite bool_decide_eq_false_2 by done. cbn [negb]. intros [= <-].
    exists [], rest, scene. split; [done|]. split; [done|]. split; [done|].
    by intros y sy Hin%elem_of_nil.
Qed.

(** The precondition the specification states: the project is known, it
    references at least one scene, and every scene it references has
    status [completed]. *)
Definition export_precondition (σ : State) (project_id : string) : Prop :=
  exists project,
    projects_db σ !! project_id = Some project
    /\ scenes project <> []
    /\ forall sid, sid ∈ scenes project ->
         exists s, scenes_db σ !! sid = Some s
                   /\ Scenes.status s = Scenes.completed.

(** Every scene that a project lists is in the scene registry.  The
    scene routes keep it so: a scene is entered into [scenes_db] before
    its id is appended to the project's list, and its id is removed from
    the list before the entry is deleted. *)
Definition references_resolve (σ : State) : Prop :=
  forall project_id project sid,
    projects_db σ !! project_id = Some project ->
    sid ∈ scenes project -> is_Some (scenes_db σ !! sid).

(** The job record an accepted export creates. *)
Definition export_job (job_id project_id : string) (σ : State) : Job :=
  {| id := job_id; scene_id := None; project_id := Some project_id;
     status := "pending"; progress := 0; output_url := None;
     error_message := None; created_at := utcnow σ |}.

(** C9. In a state whose scene references resolve, an export-combine
    submission is rejected synchronously with a 4xx error, and the state
    is left as it was (no job record is created), unless the project is
    known, references at least one scene, and every scene it references
    has status completed.  The rejection is 404 for an unknown project
    and 400 otherwise; for a project that references scenes it names the
    offending scene, "Scene <id> is not rendered yet", which is the first
    referenced scene that is not completed.  When the precondition holds
    the job record is created with status "pending" and progress 0 and
    returned, and the task is only scheduled: creating the record is the
    only event. *)
Theorem export_project_precondition
    (project_id job_id : string) (σ : State) :
  references_resolve σ ->
  (~ export_precondition σ project_id ->
   exists status_code detail,
     export_project project_id job_id σ
     = (σ, HTTPException status_code detail)
     /\ (400 <= status_code < 500)%Z
     /\ (projects_db σ !! project_id = None ->
         status_code = 404%Z /\ detail = "Project not found")
     /\ (forall project,
           projects_db σ !! project_id = Some project ->
           status_code = 400%Z
           /\ (scenes project = [] -> detail = "Project has no scenes")
           /\ (scenes project <> [] ->
               exists pre sid post s,
                 scenes project = pre ++ sid :: post
                 /\ scenes_db σ !! sid = Some s
                 /\ Scenes.status s <> Scenes.completed
                 /\ all_rendered (scenes_db σ) pre
                 /\ detail = "Scene " +:+ sid +:+ " is not rendered yet")))
  /\ (export_precondition σ project_id ->
      let job := export_job job_id project_id σ in
      let σ' := fst (export_project project_id job_id σ) in
      export_project project_id job_id σ
      = (create_job job_id job σ,
         Accepted {| success := true; data := Some job;
                     message := Some "Export job started" |}
                  (ProcessExport job_id project_id))
      /\ render_jobs σ' !! job_id = Some job
      /\ trace σ' = trace σ ++ [JobCreated job_id job]
      /\ scenes_db σ' = scenes_db σ).
Proof.
  intros Hres. split.
  - intros Hnot. unfold export_project.
    destruct (projects_db σ !! project_id) as [project|] eqn:Hproject.
    2:{ exists 404%Z, "Project not found". split; [done|]. split; [lia|].
        split; [done|]. intros project [=]. }
    cbv zeta. destruct (scenes project) as [|x rest] eqn:Hsc.
    + exists 400%Z, "Project has no scenes". split; [done|]. split; [lia|].
      split; [intros [=]|]. intros p [= <-]. split; [done|].
      split; [done|]. by rewrite Hsc.
    + destruct (first_not_rendered (scenes_db σ) (x :: rest)) as [sid|]
        eqn:Hfirst.
      * exists 400%Z, ("Scene " +:+ sid +:+ " is not rendered yet").
        split; [done|]. split; [lia|]. split; [intros [=]|].
        intros p [= <-]. split; [done|]. rewrite Hsc. split; [done|].
        intros _.
        apply first_not_rendered_Some in Hfirst
          as (pre & post & s & Hsplit & Hs & Hns & Hpre).
        by exists pre, sid, post, s.
      * exfalso. apply Hnot. exists project. split; [done|].
        rewrite Hsc. split; [done|]. intros sid Hin.
        apply first_not_rendered_None in Hfirst.
        destruct (Hres project_id project sid Hproject) as [s Hs];
          [by rewrite Hsc|].
        exists s. split; [done|]. by apply (Hfirst sid s).
  - intros (project & Hproject & Hne & Hall). cbv zeta.
    unfold export_project. rewrite Hproject. cbv zeta.
    assert (Hfirst : first_not_rendered (scenes_db σ) (scenes project) = None).
    { apply first_not_rendered_None. intros sid s Hin Hs.
      destruct (Hall sid Hin) as (s' & Hs' & Hc). congruence. }
    destruct (scenes project) as [|x rest] eqn:Hsc; [done|].
    rewrite Hfirst. cbn [fst]. split; [done|].
    split; [apply lookup_insert_eq|]. done.
Qed.

(** A project with one completed and one pending scene, and the same
    project once both are completed. *)
Definition export_state (second : Scenes.SceneStatus) : State :=
  {| render_jobs := ∅;
     scenes_db :=
       {[ "a" := CombinerFacts.scene_a;
          "b" := CombinerFacts.demo_scene "b" 1 "ok" second
                   (Some "/outputs/b.mp4") ]};
     projects_db :=
       {[ "p" := {| scenes := ["a"; "b"]; audio_url := None |} ]};
     world := CombinerFacts.demo_world;
     trace := [] |}.

Lemma export_state_project second project_id project :
  projects_db (export_state second) !! project_id = Some project ->
  project_id = "p" /\ project = {| scenes := ["a"; "b"]; audio_url := None |}.
Proof.
  unfold export_state. cbn [projects_db].
  by intros [-> <-]%lookup_singleton_Some.
Qed.

Lemma export_state_resolves second : references_resolve (export_state second).
Proof.
  intros project_id project sid [_ ->]%export_state_project Hin.
  cbn [scenes] in Hin.
  apply elem_of_cons in Hin as [->|Hin]; [by eexists|].
  apply list_elem_of_singleton in Hin as ->. by eexists.
Qed.

Lemma export_state_pending_not_ready :
  ~ export_precondition (export_state Scenes.pending) "p".
Proof.
  intros (project & [_ ->]%export_state_project & _ & Hall).
  destruct (Hall "b") as (s & Hs & Hc).
  - cbn [scenes]. apply list_elem_of_further, list_elem_of_here.
  - vm_compute in Hs. injection Hs as <-. discriminate.
Qed.

Lemma export_state_completed_ready :
  export_precondition (export_state Scenes.completed) "p".
Proof.
  exists {| scenes := ["a"; "b"]; audio_url := None |}.
  split; [reflexivity|]. split; [discriminate|]. cbn [scenes].
  intros sid Hin. apply elem_of_cons in Hin as [->|Hin]; [by eexists|].
  apply list_elem_of_singleton in Hin as ->. by eexists.
Qed.

Lemma export_project_precondition_witness :
  (exists status_code detail,
      export_project "p" "j" (export_state Scenes.pending)
      = (export_state Scenes.pending, HTTPException status_code detail)
      /\ (400 <= status_code < 500)%Z
      /\ forall project,
           projects_db (export_state Scenes.pending) !! "p" = Some project ->
           status_code = 400%Z
           /\ (scenes project = [] -> detail = "Project has no scenes")
           /\ (scenes project <> [] ->
               exists pre sid post s,
                 scenes project = pre ++ sid :: post
                 /\ scenes_db (export_state Scenes.pending) !! sid = Some s
                 /\ Scenes.status s <> Scenes.completed
                 /\ all_rendered (scenes_db (export_state Scenes.pending)) pre
                 /\ detail = "Scene " +:+ sid +:+ " is not rendered yet"))
  /\ render_jobs (fst (export_project "p" "j" (export_state Scenes.completed)))
       !! "j"
     = Some (export_job "j" "p" (export_state Scenes.completed)).
Proof.
  split.
  - destruct (proj1 (export_project_precondition "p" "j"
                       (export_state Scenes.pending)
                       (export_state_resolves Scenes.pending))
                export_state_pending_not_ready)
      as (status_code & detail & Hreply & Hclass & _ & Hdetail).
    exists status_code, detail. split; [exact Hreply|].
    split; [exact Hclass | exact Hdetail].
  - exact (proj1 (proj2 (proj2 (export_project_precondition "p" "j"
                                  (export_state Scenes.completed)
                                  (export_state_resolves Scenes.completed))
                           export_state_completed_ready))).
Defined.

(** ** Progress of a render-all-and-combine job *)

(** The turns with the progress written as the floor of [80 i / total]. *)
Fixpoint floor_turns (job_id : string) (total_scenes i : nat)
    (calls : list (list event)) : list event :=
  match calls with
  | [] => []
  | call :: rest =>
      JobWrite job_id (SetStatus (rendering_label i total_scenes))
      :: JobWrite job_id
           (SetProgress (80 * Z.of_nat i / Z.of_nat total_scenes)%Z)
      :: call ++ floor_turns job_id total_scenes (S i) rest
  end.

Lemma turns_floor_turns job_id total_scenes calls :
  (Z.of_nat total_scenes <= 2 ^ 44)%Z ->
  forall i,
    i + length calls <= total_scenes ->
    turns job_id total_scenes i calls = floor_turns job_id total_scenes i calls.
Proof.
  intros Htotal. induction calls as [|call calls IH]; intros i Hi; [done|].
  cbn [length] in Hi. cbn [turns turn_events floor_turns app].
  rewrite FloatFacts.render_progress_floor, IH by lia. done.
Qed.

(** A project of two scenes that render. *)
Definition demo_ok_state0 : State :=
  {| render_jobs := ∅;
     scenes_db :=
       {[ "s1" := CombinerFacts.demo_scene "s1" 0 "ok" Scenes.pending None;
          "s2" := CombinerFacts.demo_scene "s2" 1 "ok" Scenes.pending None ]};
     projects_db :=
       {[ "p" := {| scenes := ["s1"; "s2"]; audio_url := None |} ]};
     world := {| files := ∅; clock := 0 |};
     trace := [] |}.

Definition demo_ok_state : State :=
  fst (render_all_and_combine "p" "j" demo_ok_state0).

(** ** Progress never decreases *)

(** The three operations a job is submitted for. *)
Inductive request :=
| RenderSingleScene (scene_id : string)
| ExportProject (project_id : string)
| RenderAllAndCombine (project_id : string).

Definition submit (r : request) (job_id : string) (σ : State)
  : State * reply :=
  match r with
  | RenderSingleScene scene_id => render_single_scene scene_id job_id σ
  | ExportProject project_id => export_project project_id job_id σ
  | RenderAllAndCombine project_id => render_all_and_combine project_id job_id σ
  end.

(** An accepted submission has created the job, with progress 0, and
    scheduled the task of the operation on a target that exists. *)
Lemma submit_accepted r job_id σ σ1 response task :
  submit r job_id σ = (σ1, Accepted response task) ->
  exists job,
    σ1 = create_job job_id job σ
    /\ progress job = 0%Z
    /\ match r with
       | RenderSingleScene scene_id =>
           task = ProcessRender job_id scene_id
           /\ is_Some (scenes_db σ !! scene_id)
       | ExportProject project_id =>
           task = ProcessExport job_id project_id
           /\ is_Some (projects_db σ !! project_id)
       | RenderAllAndCombine project_id =>
           task = ProcessRenderAllAndCombine job_id project_id
           /\ is_Some (projects_db σ !! project_id)
       end.
Proof.
  destruct r as [scene_id|project_id|project_id]; cbn [submit].
  - unfold render_single_scene.
    destruct (scenes_db σ !! scene_id) as [scene|]; [|done].
    destruct (negb _); [done|]. intros [= <- _ <-]. eexists. eauto.
  - unfold export_project.
    destruct (projects_db σ !! project_id) as [project|]; [|done].
    destruct (scenes project) as [|x rest]; [done|].
    destruct (first_not_rendered _ _); [done|].
    intros [= <- _ <-]. eexists. eauto.
  - unfold render_all_and_combine.
    destruct (projects_db σ !! project_id) as [project|]; [|done].
    destruct (scenes project) as [|x rest]; [done|].
    destruct (first_without_code _ _); [done|].
    intros [= <- _ <-]. eexists. eauto.
Qed.

Lemma progress_of_turn_writes total_scenes l :
  omap progress_of_write (flat_map (turn_writes total_scenes) l)
  = map (fun i => render_progress i total_scenes) l.
Proof. induction l as [|i l IH]; [done|]. cbn. by rewrite <- IH. Qed.

Lemma turn_progress_sorted total_scenes k :
  (Z.of_nat total_scenes <= 2 ^ 44)%Z ->
  forall i, i + k <= total_scenes ->
    StronglySorted Z.le
      (map (fun i => render_progress i total_scenes) (seq i k))
    /\ Forall (fun v => render_progress i total_scenes <= v < 80)%Z
         (map (fun i => render_progress i total_scenes) (seq i k)).
Proof.
  intros Htotal. induction k as [|k IH]; intros i Hi;
    [split; constructor|].
  destruct (IH (S i) ltac:(lia)) as [Hsorted Hall].
  pose proof (FloatFacts.render_progress_range i total_scenes
                ltac:(lia) Htotal) as Hrange.
  pose proof (FloatFacts.render_progress_mono i (S i) total_scenes) as Hmono.
  cbn [seq map]. split.
  - constructor; [done|]. destruct k as [|k]; [constructor|].
    specialize (Hmono ltac:(lia) Htotal).
    eapply Forall_impl; [exact Hall|]. cbn. lia.
  - constructor; [lia|]. destruct k as [|k]; [constructor|].
    specialize (Hmono ltac:(lia) Htotal).
    eapply Forall_impl; [exact Hall|]. cbn. lia.
Qed.

Lemma project_scenes_length σ project :
  length (project_scenes σ project) <= length (scenes project).
Proof.
  unfold project_scenes. rewrite sort_by_order_index_perm.
  apply List.filter_length_le.
Qed.

(** The job record after the events of its task. *)
Lemma job_after job_id σ σ' new job :
  extends job_id σ σ' new ->
  render_jobs σ !! job_id = Some job ->
  render_jobs σ' !! job_id
  = Some (foldl (fun j wr => apply_write wr j) job (job_writes job_id new)).
Proof. intros Hext Hjob. rewrite (ext_jobs _ _ _ _ Hext). by apply replay_lookup. Qed.

(** The progress values and the final status that the two endings of a
    single-scene or export task give. *)
Lemma simple_task_progress job_id job phase (call : event) ending :
  write_of_event job_id call = None ->
  (exists url, ending = [JobWrite job_id (SetProgress 100);
                         JobWrite job_id (SetStatus "completed");
                         JobWrite job_id (SetOutputUrl url)])
  \/ (exists e, ending = [JobWrite job_id (SetStatus "failed");
                          JobWrite job_id (SetErrorMessage e)]) ->
  let new := [JobWrite job_id (SetStatus phase);
              JobWrite job_id (SetProgress 10); call] ++ ending in
  let job' := foldl (fun j wr => apply_write wr j) job
                (job_writes job_id new) in
  (omap progress_of_write (job_writes job_id new) = [10; 100]%Z
   /\ status job' = "completed")
  \/ (omap progress_of_write (job_writes job_id new) = [10]%Z
      /\ status job' = "failed").
Proof.
  intros Hcall Hending. cbv zeta. destruct Hending as [[url ->]|[e ->]];
    cbn [app];
    rewrite !job_writes_write, job_writes_task_cons, Hcall,
      !job_writes_write; [left|right]; done.
Qed.

(** The same for the endings of a render-all-and-combine task. *)
Lemma render_all_ending_progress job_id project_id audio total_scenes k
    ending job :
  render_all_ending job_id project_id audio total_scenes k ending ->
  let job' := foldl (fun j wr => apply_write wr j) job
                (job_writes job_id ending) in
  (omap progress_of_write (job_writes job_id ending) = [85; 100]%Z
   /\ status job' = "completed")
  \/ ((omap progress_of_write (job_writes job_id ending) = [85]%Z
       \/ omap progress_of_write (job_writes job_id ending) = [])
      /\ status job' = "failed").
Proof.
  intros Hend. cbv zeta. destruct Hend as [scenes url _|scenes e _|e].
  - rewrite !job_writes_write, job_writes_task_cons. cbn [write_of_event].
    rewrite !job_writes_write. by left.
  - rewrite !job_writes_write, job_writes_task_cons. cbn [write_of_event].
    rewrite !job_writes_write. right. split; [by left|done].
  - rewrite !job_writes_write. right. split; [by right|done].
Qed.

(** ** The render-all task, turn by turn *)

(** What the turn for the reference [ref] calls: [render_scene] on the
    scene's code and id when the scene has to be rendered, nothing when
    it is rendered already. *)
Definition call_of (σ : State) (ref : string) : list event :=
  match scenes_db σ !! ref with
  | Some scene =>
      if needs_render scene
      then [RenderSceneCall (Scenes.code scene) (Scenes.id scene)]
      else []
  | None => []
  end.

(** The render service returns on the code and id of every scene of
    [refs], in whatever world it is called. *)
Definition renders_succeed (E : Env) (σ : State) (refs : list string)
  : Prop :=
  forall ref scene w,
    ref ∈ refs -> scenes_db σ !! ref = Some scene ->
    exists result,
      snd (render_scene E (Scenes.code scene) (Scenes.id scene) w)
      = Return result.

(** The events that end the render-all task once its loop has left the
    state [σL] with the outcome [r].  After a loop that went through: the
    combine phase, which ends by what [compile_project] answers on the
    scenes as the loop left them.  After a loop that raised: the
    failure. *)
Definition render_all_end (E : Env) (job_id project_id : string)
    (audio : option string) (refs : list string) (σL : State)
    (r : outcome unit) : list event :=
  match r with
  | Return _ =>
      [JobWrite job_id (SetStatus "Combining scenes");
       JobWrite job_id (SetProgress 85);
       CompileProjectCall (deref σL refs) project_id audio]
      ++ match snd (compile_project E (deref σL refs) project_id audio
                      (world σL)) with
         | Return url =>
             [JobWrite job_id (SetProgress 100);
              JobWrite job_id (SetStatus "completed");
              JobWrite job_id (SetOutputUrl url)]
         | Raise e =>
             [JobWrite job_id (SetStatus "failed");
              JobWrite job_id (SetErrorMessage e)]
         end
  | Raise e =>
      [JobWrite job_id (SetStatus "failed");
       JobWrite job_id (SetErrorMessage e)]
  end.

(** The calls of the turns for the references [refs], one after the
    other: a scene listed again has been seen to at its first turn, so
    that a later turn for it calls nothing.  [seen] holds the references
    of the turns made so far. *)
Fixpoint calls_of (σ : State) (seen refs : list string) : list (list event) :=
  match refs with
  | [] => []
  | ref :: rest =>
      (if bool_decide (ref ∈ seen) then [] else call_of σ ref)
      :: calls_of σ (ref :: seen) rest
  end.

(** The state [σ] of the loop that started in [σ0], after the turns for
    the references [seen]: the scenes of the other references are as they
    were, and those of [seen] need no render. *)
Definition turned (σ0 σ : State) (seen : list string) : Prop :=
  (forall sid, sid ∉ seen -> scenes_db σ !! sid = scenes_db σ0 !! sid)
  /\ (forall sid, sid ∈ seen ->
        exists s, scenes_db σ !! sid = Some s /\ needs_render s = false).

Lemma calls_of_render_call σ refs :
  forall seen, Forall render_call (calls_of σ seen refs).
Proof.
  induction refs as [|ref rest IH]; intros seen; [constructor|].
  cbn [calls_of]. constructor; [|apply IH].
  destruct (bool_decide (ref ∈ seen)); [by left|].
  unfold call_of, render_call.
  destruct (scenes_db σ !! ref) as [scene|]; [|by left].
  destruct (needs_render scene); [right; eauto | by left].
Qed.

Lemma length_calls_of σ refs :
  forall seen, length (calls_of σ seen refs) = length refs.
Proof.
  induction refs as [|ref rest IH]; intros seen; [done|].
  cbn [calls_of length]. by rewrite IH.
Qed.

Lemma calls_of_same_scenes σ σ' refs :
  scenes_db σ' = scenes_db σ ->
  forall seen, calls_of σ' seen refs = calls_of σ seen refs.
Proof.
  intros Hdb. induction refs as [|ref rest IH]; intros seen; [done|].
  cbn [calls_of]. unfold call_of. by rewrite Hdb, IH.
Qed.

(** A turn leaves the scenes of the other references alone. *)
Lemma lookup_after_turn ref result σ3 σ sid :
  scenes_db σ3 = alter (Scenes.set_status Scenes.rendering) ref (scenes_db σ) ->
  ref <> sid ->
  scenes_db (store_render_result ref result σ3) !! sid = scenes_db σ !! sid.
Proof.
  intros H3 Hne. rewrite lookup_store_render_result, decide_False by done.
  by rewrite H3, lookup_alter_ne.
Qed.

(** The loop, started at index [i] after the turns for [seen], makes the
    turns of the first [k] references it is given, each with the call
    its scene asks for; [k] is the length of the list when the loop goes
    through, which it does when every reference finds its scene and the
    render service returns on each of them. *)
Lemma render_each_exact E job_id total_scenes σ0 refs :
  forall seen i σ σ' r,
    turned σ0 σ seen ->
    render_each E job_id total_scenes i refs σ = (σ', r) ->
    exists k,
      extends job_id σ σ'
        (turns job_id total_scenes i (take k (calls_of σ0 seen refs)))
      /\ k <= length refs
      /\ (forall u, r = Return u -> k = length refs)
      /\ (Forall (fun ref => is_Some (scenes_db σ0 !! ref)) refs ->
          renders_succeed E σ0 refs -> r = Return ()).
Proof.
  induction refs as [|ref rest IH]; intros seen i σ σ' r Hinv Hrun.
  - cbn [render_each] in Hrun. injection Hrun as <- <-.
    exists 0. split; [apply extends_refl|]. by repeat split.
  - destruct Hinv as [Hout Hin].
    assert (Hhead : forall scene,
               scenes_db σ !! ref = Some scene ->
               (if bool_decide (ref ∈ seen) then [] else call_of σ0 ref)
               = if needs_render scene
                 then [RenderSceneCall (Scenes.code scene) (Scenes.id scene)]
                 else []).
    { intros scene Hscene. destruct (decide (ref ∈ seen)) as [Hs|Hs].
      - rewrite bool_decide_eq_true_2 by done.
        destruct (Hin ref Hs) as (s & Hs1 & Hs2).
        rewrite Hscene in Hs1. injection Hs1 as <-. by rewrite Hs2.
      - rewrite bool_decide_eq_false_2 by done. unfold call_of.
        by rewrite <- (Hout ref Hs), Hscene. }
    assert (Hfresh : forall scene,
               scenes_db σ !! ref = Some scene -> needs_render scene = true ->
               scenes_db σ0 !! ref = Some scene).
    { intros scene Hscene Hneeds. destruct (decide (ref ∈ seen)) as [Hs|Hs].
      - destruct (Hin ref Hs) as (s & Hs1 & Hs2). congruence.
      - by rewrite <- (Hout ref Hs). }
    destruct (scenes_db σ !! ref) as [scene|] eqn:Hscene.
    2:{ cbn [render_each] in Hrun. rewrite Hscene in Hrun.
        injection Hrun as <- <-. exists 0.
        split; [apply extends_refl|]. split; [cbn [length]; lia|].
        split; [done|]. intros [Hfound _]%Forall_cons _. exfalso.
        destruct (decide (ref ∈ seen)) as [Hs|Hs].
        - destruct (Hin ref Hs) as (s & Hs1 & _). congruence.
        - rewrite (Hout ref Hs) in Hscene. rewrite Hscene in Hfound.
          by destruct Hfound. }
    specialize (Hhead scene eq_refl). specialize (Hfresh scene eq_refl).
    rewrite (render_each_cons _ _ _ _ _ _ _ scene Hscene) in Hrun.
    cbv zeta in Hrun. cbn [calls_of]. rewrite Hhead.
    destruct (needs_render scene) eqn:Hneeds.
    + destruct (render_scene E (Scenes.code scene) (Scenes.id scene) (world σ))
        as [w' [result|e]] eqn:Hrender; cbn [fst snd] in Hrun.
      * pose proof (render_scene_video_url _ _ _ _ _ _ Hrender) as Hurl.
        match type of Hrun with
        | context [store_render_result ref result ?σ3'] => set (σ3 := σ3') in *
        end.
        assert (H3 : scenes_db σ3
                     = alter (Scenes.set_status Scenes.rendering) ref
                         (scenes_db σ)) by done.
        assert (Hmine : exists s',
                   scenes_db (store_render_result ref result σ3) !! ref
                   = Some s' /\ needs_render s' = false).
        { rewrite lookup_store_render_result, decide_True by done.
          rewrite H3, lookup_alter_eq, Hscene. eexists; split; [done|].
          unfold needs_render. cbn. by rewrite Hurl. }
        apply (IH (ref :: seen)) in Hrun as (k & Hext & Hk & Hret & Hgoes).
        2:{ split.
            - intros sid [Hne Hnot]%not_elem_of_cons.
              rewrite (lookup_after_turn ref result σ3 σ) by done.
              by apply Hout.
            - intros sid Hsid. destruct (decide (ref = sid)) as [<-|Hne];
                [exact Hmine|].
              apply elem_of_cons in Hsid as [->|Hsid]; [done|].
              rewrite (lookup_after_turn ref result σ3 σ) by done.
              by apply Hin. }
        exists (S k). rewrite firstn_cons.
        split; [|split; [|split]].
        -- cbn [turns turn_events app]. subst σ3. extends_steps 12.
        -- cbn [length]. lia.
        -- intros u Hu. cbn [length]. by rewrite (Hret u Hu).
        -- intros [_ Hfound]%Forall_cons Hok. apply Hgoes; [done|].
           intros sid s w Hsid Hs. apply (Hok sid s w); [|done].
           by apply list_elem_of_further.
      * injection Hrun as <- <-. exists 1. rewrite firstn_cons, firstn_O.
        split; [|split; [|split]].
        -- cbn [turns turn_events app]. extends_steps 8.
        -- cbn [length]. lia.
        -- done.
        -- intros _ Hok. exfalso.
           destruct (Hok ref scene (world σ) ltac:(apply list_elem_of_here)
                       (Hfresh eq_refl)) as [result Hresult].
           rewrite Hrender in Hresult. discriminate.
    + apply (IH (ref :: seen)) in Hrun as (k & Hext & Hk & Hret & Hgoes).
      2:{ split.
          - intros sid [Hne Hnot]%not_elem_of_cons.
            rewrite scenes_db_announce. by apply Hout.
          - intros sid Hsid. rewrite scenes_db_announce.
            apply elem_of_cons in Hsid as [->|Hsid]; [eauto|]. by apply Hin. }
      exists (S k). rewrite firstn_cons.
      split; [|split; [|split]].
      -- cbn [turns turn_events app]. extends_steps 4.
      -- cbn [length]. lia.
      -- intros u Hu. cbn [length]. by rewrite (Hret u Hu).
      -- intros [_ Hfound]%Forall_cons Hok. apply Hgoes; [done|].
         intros sid s w Hsid Hs. apply (Hok sid s w); [|done].
         by apply list_elem_of_further.
Qed.

Lemma project_scenes_found σ project :
  Forall (fun ref => is_Some (scenes_db σ !! ref)) (project_scenes σ project).
Proof.
  apply Forall_forall. intros ref. unfold project_scenes.
  rewrite sort_by_order_index_perm, list_elem_of_In, filter_In.
  rewrite bool_decide_eq_true. by intros [_ H].
Qed.

(** The render-all task once its two lookups succeed: the loop, with its
    turns, then the ending that the outcome of the loop and the answer of
    the combiner decide.  The loop goes through when the render service
    returns on every scene. *)
Lemma process_render_all_exact E job_id project_id σ job project :
  render_jobs σ !! job_id = Some job ->
  projects_db σ !! project_id = Some project ->
  let refs := project_scenes σ project in
  let total_scenes := length refs in
  exists σL r σ' k,
    render_each E job_id total_scenes 0 refs σ = (σL, r)
    /\ process_render_all_and_combine E job_id project_id σ = (σ', Return ())
    /\ extends job_id σ σL
         (turns job_id total_scenes 0 (take k (calls_of σ [] refs)))
    /\ extends job_id σL σ'
         (render_all_end E job_id project_id (audio_url project) refs σL r)
    /\ k <= total_scenes
    /\ (forall u, r = Return u -> k = total_scenes)
    /\ (renders_succeed E σ refs -> r = Return ()).
Proof.
  intros Hjob Hproj refs total_scenes. unfold process_render_all_and_combine.
  rewrite Hjob, Hproj. cbv zeta. fold refs. fold total_scenes.
  destruct (render_each E job_id total_scenes 0 refs σ) as [σL r] eqn:Hloop.
  destruct (render_each_exact E job_id total_scenes σ refs [] 0 σ σL r)
    as (k & Hext & Hk & Hret & Hgoes); [|exact Hloop|].
  { split; [done|]. by intros sid Hsid%elem_of_nil. }
  specialize (Hgoes (project_scenes_found σ project)).
  exists σL, r.
  destruct r as [[]|e].
  - rewrite await_compile_project_eq. cbn [render_all_end].
    change (deref (write_job job_id (SetProgress 85)
                     (write_job job_id (SetStatus "Combining scenes") σL))
              refs) with (deref σL refs).
    change (world (write_job job_id (SetProgress 85)
                     (write_job job_id (SetStatus "Combining scenes") σL)))
      with (world σL).
    destruct (snd (compile_project E (deref σL refs) project_id
                     (audio_url project) (world σL))) as [url|e];
      eexists _, k; (split; [reflexivity|]); (split; [reflexivity|]);
      (split; [exact Hext|]); (split; [|done]); cbn [app].
    + do 2 (eapply extends_cons; [apply extends_write_job|]).
      eapply extends_cons; [apply extends_compile_call|].
      apply extends_job_completed.
    + do 2 (eapply extends_cons; [apply extends_write_job|]).
      eapply extends_cons; [apply extends_compile_call|].
      apply extends_job_failed.
  - eexists _, k. split; [reflexivity|]. split; [reflexivity|].
    split; [exact Hext|]. split; [|done]. apply extends_job_failed.
Qed.

Lemma render_all_end_ending E job_id project_id audio refs σL r
    total_scenes k :
  (forall u, r = Return u -> k = total_scenes) ->
  render_all_ending job_id project_id audio total_scenes k
    (render_all_end E job_id project_id audio refs σL r).
Proof.
  intros Hret. destruct r as [u|e]; cbn [render_all_end]; [|constructor].
  destruct (snd (compile_project E _ project_id audio _)); cbn [app];
    constructor; by apply (Hret u).
Qed.

Lemma length_calls σ k refs :
  k <= length refs -> length (take k (calls_of σ [] refs)) = k.
Proof. intros Hk. rewrite length_take, length_calls_of. lia. Qed.

(** The progress values of the turns for the scenes at indices [0] to
    [k - 1]. *)
Lemma floor_progress total_scenes k :
  (Z.of_nat total_scenes <= 2 ^ 44)%Z -> k <= total_scenes ->
  map (fun i => render_progress i total_scenes) (seq 0 k)
  = map (fun i => (80 * Z.of_nat i / Z.of_nat total_scenes)%Z) (seq 0 k).
Proof.
  intros Htotal Hk. apply map_ext_in. intros i Hi%in_seq.
  apply FloatFacts.render_progress_floor; [lia|done].
Qed.

(** The job and the progress values after a render-all task whose loop
    went through all [total_scenes] turns and whose combiner returned
    [url]. *)
Lemma render_all_completed job_id job total_scenes calls (call : event) url :
  Forall render_call calls ->
  length calls = total_scenes ->
  (Z.of_nat total_scenes <= 2 ^ 44)%Z ->
  write_of_event job_id call = None ->
  let new := turns job_id total_scenes 0 calls
             ++ [JobWrite job_id (SetStatus "Combining scenes");
                 JobWrite job_id (SetProgress 85); call;
                 JobWrite job_id (SetProgress 100);
                 JobWrite job_id (SetStatus "completed");
                 JobWrite job_id (SetOutputUrl url)] in
  let job' := foldl (fun j wr => apply_write wr j) job
                (job_writes job_id new) in
  status job' = "completed" /\ progress job' = 100%Z
  /\ output_url job' = Some url
  /\ omap progress_of_write (job_writes job_id new)
     = map (fun i => (80 * Z.of_nat i / Z.of_nat total_scenes)%Z)
         (seq 0 total_scenes) ++ [85; 100]%Z.
Proof.
  intros Hcalls Hlen Htotal Hcall. cbv zeta.
  rewrite job_writes_app, foldl_app, omap_app,
    (turns_job_writes _ _ _ Hcalls), progress_of_turn_writes, Hlen,
    (floor_progress _ _ Htotal (le_n _)).
  rewrite !job_writes_write, job_writes_task_cons, Hcall, !job_writes_write.
  done.
Qed.

(** C5. For every job, of any of the three kinds, the values its progress
    takes from its creation on never decrease, and a job that ends
    "completed" ends with progress 100.  For a render-all-and-combine
    job: when the render service returns on every scene, the loop over
    the scenes goes through; and whenever the loop has gone through and
    the combiner returns on the scenes the loop has left, the job ends
    "completed" with progress 100 and the values are 0, then the floor
    of [80 i / total] for each scene index [i], then 85 and 100.  For
    the progress of the render phase, projects are taken to have at most
    2^44 scenes. *)
Theorem job_progress_never_decreases
    (E : Env) (r : request) (job_id : string) (σ σ1 : State)
    (response : RenderResponse) (task : background_task) :
  submit r job_id σ = (σ1, Accepted response task) ->
  (forall project_id project,
      projects_db σ !! project_id = Some project ->
      (Z.of_nat (length (scenes project)) <= 2 ^ 44)%Z) ->
  exists σ2 new job',
    run_task E task σ1 = (σ2, Return ())
    /\ trace σ2 = trace σ ++ new
    /\ StronglySorted Z.le (progress_values job_id new)
    /\ render_jobs σ2 !! job_id = Some job'
    /\ (status job' = "completed" ->
        last (progress_values job_id new) = Some 100%Z)
    /\ (forall project_id project,
          r = RenderAllAndCombine project_id ->
          projects_db σ !! project_id = Some project ->
          let refs := project_scenes σ project in
          let total_scenes := length refs in
          (renders_succeed E σ refs ->
           exists σL,
             render_each E job_id total_scenes 0 refs σ1 = (σL, Return ()))
          /\ (forall σL url,
                render_each E job_id total_scenes 0 refs σ1
                = (σL, Return ()) ->
                snd (compile_project E (deref σL refs) project_id
                       (audio_url project) (world σL)) = Return url ->
                status job' = "completed"
                /\ progress job' = 100%Z
                /\ output_url job' = Some url
                /\ progress_values job_id new
                   = 0%Z :: map (fun i => (80 * Z.of_nat i
                                           / Z.of_nat total_scenes)%Z)
                              (seq 0 total_scenes) ++ [85; 100]%Z
                /\ last (progress_values job_id new) = Some 100%Z)).
Proof.
  intros Hsubmit Hbound.
  destruct (submit_accepted _ _ _ _ _ _ Hsubmit) as (job & -> & Hp0 & Hkind).
  assert (Hjob : render_jobs (create_job job_id job σ) !! job_id = Some job)
    by apply lookup_insert_eq.
  assert (Htrace : forall σ2 new,
             extends job_id (create_job job_id job σ) σ2 new ->
             trace σ2 = trace σ ++ JobCreated job_id job :: new).
  { intros σ2 new Hext. rewrite (ext_trace _ _ _ _ Hext).
    cbn [create_job emit trace]. by rewrite <- app_assoc. }
  assert (Hvalues : forall σ2 new,
             extends job_id (create_job job_id job σ) σ2 new ->
             progress_values job_id (JobCreated job_id job :: new)
             = 0%Z :: omap progress_of_write (job_writes job_id new)).
  { intros σ2 new Hext.
    by rewrite progress_values_created, Hp0,
         (progress_values_task _ _ (ext_events _ _ _ _ Hext)). }
  destruct r as [scene_id|project_id|project_id]; cbn [run_task].
  - destruct Hkind as [-> [scene Hscene]]. cbn [run_task].
    destruct (process_render_events E job_id scene_id _ job scene Hjob Hscene)
      as (σ2 & Heq & Hext).
    exists σ2. eexists (JobCreated job_id job :: _), _.
    split; [exact Heq|]. split; [by apply Htrace|].
    rewrite (Hvalues _ _ Hext), (job_after _ _ _ _ _ Hext Hjob).
    edestruct (simple_task_progress job_id job "rendering"
                 (RenderSceneCall (Scenes.code scene) scene_id))
      as [[Hprog Hstatus]|[Hprog Hstatus]];
      [done | | rewrite Hprog, Hstatus | rewrite Hprog, Hstatus].
    + destruct (snd (render_scene E _ scene_id _)); [left|right]; eauto.
    + split; [by repeat constructor|]. split; [done|]. split; [done|].
      by intros pid project [=].
    + split; [by repeat constructor|]. split; [done|]. split; [done|].
      by intros pid project [=].
  - destruct Hkind as [-> [project Hproject]]. cbn [run_task].
    destruct (process_export_events E job_id project_id _ job project
                Hjob Hproject) as (σ2 & Heq & Hext).
    exists σ2. eexists (JobCreated job_id job :: _), _.
    split; [exact Heq|]. split; [by apply Htrace|].
    rewrite (Hvalues _ _ Hext), (job_after _ _ _ _ _ Hext Hjob).
    edestruct (simple_task_progress job_id job "compiling"
                 (CompileProjectCall
                    (deref (create_job job_id job σ)
                       (project_scenes (create_job job_id job σ) project))
                    project_id (audio_url project)))
      as [[Hprog Hstatus]|[Hprog Hstatus]];
      [done | | rewrite Hprog, Hstatus | rewrite Hprog, Hstatus].
    + destruct (snd (compile_project E _ project_id _ _)); [left|right]; eauto.
    + split; [by repeat constructor|]. split; [done|]. split; [done|].
      by intros pid project0 [=].
    + split; [by repeat constructor|]. split; [done|]. split; [done|].
      by intros pid project0 [=].
  - destruct Hkind as [-> [project Hproject]]. cbn [run_task].
    destruct (process_render_all_exact E job_id project_id _ job project
                Hjob Hproject)
      as (σL & r & σ2 & k & Hloop & Heq & HextL & HextE & Hk & Hret & Hgoes).
    change (project_scenes (create_job job_id job σ) project)
      with (project_scenes σ project) in *.
    rewrite (calls_of_same_scenes σ (create_job job_id job σ)) in HextL by done.
    set (refs := project_scenes σ project) in *.
    set (total_scenes := length refs) in *.
    set (calls := take k (calls_of σ [] refs)) in *.
    set (ending := render_all_end E job_id project_id (audio_url project)
                     refs σL r) in *.
    pose proof (extends_trans _ _ _ _ _ _ HextL HextE) as Hext.
    assert (Hcalls : Forall render_call calls)
      by apply Forall_take, calls_of_render_call.
    assert (Hlen : length calls = k) by by apply length_calls.
    assert (Hend : render_all_ending job_id project_id (audio_url project)
                     total_scenes (length calls) ending).
    { apply render_all_end_ending. by rewrite Hlen. }
    assert (Htotal : (Z.of_nat total_scenes <= 2 ^ 44)%Z).
    { pose proof (project_scenes_length σ project).
      pose proof (Hbound _ _ Hproject). unfold total_scenes, refs. lia. }
    exists σ2, (JobCreated job_id job :: turns job_id total_scenes 0 calls
                                         ++ ending),
      (foldl (fun j wr => apply_write wr j) job
         (job_writes job_id (turns job_id total_scenes 0 calls ++ ending))).
    split; [exact Heq|]. split; [by apply Htrace|].
    rewrite (Hvalues _ _ Hext).
    split; [|split; [exact (job_after _ _ _ _ _ Hext Hjob)|split]].
    + rewrite job_writes_app, omap_app,
        (turns_job_writes _ _ _ Hcalls), progress_of_turn_writes.
      destruct (turn_progress_sorted total_scenes (length calls) Htotal 0
                  ltac:(lia)) as [Hsorted Hrange].
      set (turn_values := map (fun i => render_progress i total_scenes)
                            (seq 0 (length calls))) in *.
      assert (Hnonneg : Forall (fun v => 0 <= v < 80)%Z turn_values).
      { destruct calls as [|call calls']; [constructor|].
        pose proof (FloatFacts.render_progress_range 0 total_scenes
                      ltac:(cbn [length] in Hlen; lia) Htotal).
        eapply Forall_impl; [exact Hrange|]. cbn. lia. }
      rewrite Forall_forall in Hnonneg.
      edestruct (render_all_ending_progress job_id project_id
                   (audio_url project) total_scenes (length calls) ending job)
        as [[Hprog _]|[[Hprog|Hprog] _]];
        [exact Hend | rewrite Hprog ..].
      * apply StronglySorted_cons. split.
        -- apply Forall_app. split; [|by repeat constructor].
           apply Forall_forall. intros v Hv. specialize (Hnonneg v Hv). lia.
        -- apply StronglySorted_app_2; [|done|by repeat constructor].
           intros v1 v2 Hv1 Hv2. specialize (Hnonneg v1 Hv1).
           apply elem_of_cons in Hv2 as [->|Hv2]; [lia|].
           apply list_elem_of_singleton in Hv2 as ->. lia.
      * apply StronglySorted_cons. split.
        -- apply Forall_app. split; [|by repeat constructor].
           apply Forall_forall. intros v Hv. specialize (Hnonneg v Hv). lia.
        -- apply StronglySorted_app_2; [|done|by repeat constructor].
           intros v1 v2 Hv1 Hv2. specialize (Hnonneg v1 Hv1).
           apply list_elem_of_singleton in Hv2 as ->. lia.
      * rewrite app_nil_r. apply StronglySorted_cons. split; [|done].
        apply Forall_forall. intros v Hv. specialize (Hnonneg v Hv). lia.
    + rewrite job_writes_app, foldl_app, omap_app.
      edestruct (render_all_ending_progress job_id project_id
                   (audio_url project) total_scenes (length calls) ending
                   (foldl (fun j wr => apply_write wr j) job
                      (job_writes job_id (turns job_id total_scenes 0 calls))))
        as [[Hprog Hstatus]|[_ Hstatus]];
        [exact Hend | rewrite Hprog | rewrite Hstatus; done].
      intros _. rewrite app_comm_cons, last_app. done.
    + intros pid project0 [= <-] Hproject0.
      assert (project0 = project) as -> by congruence.
      fold refs. fold total_scenes. split.
      { intros Hok. specialize (Hgoes Hok). subst r. by exists σL. }
      intros σL' url Hloop' Hurl.
      assert (σL' = σL /\ r = Return ()) as [-> ->]
        by (rewrite Hloop in Hloop'; by injection Hloop' as <- <-).
      assert (Hall : k = total_scenes) by by apply (Hret ()).
      unfold ending. cbn [render_all_end]. rewrite Hurl.
      edestruct (render_all_completed job_id job total_scenes calls
                   (CompileProjectCall (deref σL refs) project_id
                      (audio_url project)) url)
        as (Hstatus & Hprogress & Hurl' & Hprog);
        [done | congruence | done | done |].
      cbv zeta in Hstatus, Hprogress, Hurl', Hprog. cbn [app] in *.
      split; [exact Hstatus|]. split; [exact Hprogress|].
      split; [exact Hurl'|]. rewrite Hprog. split; [done|].
      rewrite app_comm_cons, last_app. done.
Qed.

(** In the project of two scenes the render service returns on both. *)
Lemma demo_ok_renders σ :
  scenes_db σ = scenes_db demo_ok_state0 ->
  renders_succeed CombinerFacts.demo_env σ ["s1"; "s2"].
Proof.
  intros Hdb ref scene w Hin Hscene. rewrite Hdb in Hscene.
  apply elem_of_cons in Hin as [->|Hin];
    [|apply list_elem_of_singleton in Hin as ->];
    vm_compute in Hscene; injection Hscene as <-; by eexists.
Qed.

Lemma job_progress_never_decreases_witness :
  exists σ2 new job',
    run_task CombinerFacts.demo_env (ProcessRenderAllAndCombine "j" "p")
      demo_ok_state = (σ2, Return ())
    /\ trace σ2 = trace demo_ok_state0 ++ new
    /\ StronglySorted Z.le (progress_values "j" new)
    /\ progress_values "j" new = [0; 0; 40; 85; 100]%Z
    /\ render_jobs σ2 !! "j" = Some job'
    /\ status job' = "completed"
    /\ progress job' = 100%Z.
Proof.
  destruct (job_progress_never_decreases CombinerFacts.demo_env
              (RenderAllAndCombine "p") "j" demo_ok_state0 demo_ok_state
              {| success := true;
                 data := Some {| id := "j"; scene_id := None;
                                 project_id := Some "p"; status := "pending";
                                 progress := 0; output_url := None;
                                 error_message := None; created_at := 0 |};
                 message := Some "Started rendering 2 scenes" |}
              (ProcessRenderAllAndCombine "j" "p") eq_refl)
    as (σ2 & new & job' & Hrun & Htrace & Hsorted & Hjob & _ & Hall).
  { intros project_id project Hproject.
    assert (Hlen : length (scenes project) = 2).
    { unfold demo_ok_state0 in Hproject. cbn [projects_db] in Hproject.
      apply lookup_singleton_Some in Hproject as [_ <-]. done. }
    rewrite Hlen. vm_compute. discriminate. }
  destruct (Hall "p" {| scenes := ["s1"; "s2"]; audio_url := None |}
              eq_refl eq_refl) as [Hgoes Hdone].
  destruct (Hgoes (demo_ok_renders demo_ok_state0 eq_refl)) as [σL Hloop].
  assert (HσL : σL = fst (render_each CombinerFacts.demo_env "j" 2 0
                            ["s1"; "s2"] demo_ok_state))
    by exact (eq_sym (f_equal fst Hloop)).
  destruct (Hdone σL "/outputs/p_final.mp4" Hloop)
    as (Hstatus & Hprogress & _ & Hvalues & _).
  { rewrite HσL. vm_compute. reflexivity. }
  exists σ2, new, job'. split; [exact Hrun|]. split; [exact Htrace|].
  split; [exact Hsorted|]. split; [exact Hvalues|]. split; [exact Hjob|].
  split; [exact Hstatus | exact Hprogress].
Defined.

(** C6. In a render-all-and-combine job over [total_scenes] scenes (up to
    2^44 of them), the loop makes a turn for each scene index [i] in
    order: the status label, the assignment of the floor of
    [80 i / total_scenes] to the progress, and then the render call for
    the scene if it has to be rendered.  When the render service returns
    on every scene, the loop goes through all [total_scenes] turns.
    After a loop that went through, the task assigns 85 on entering the
    combine phase and calls the combiner on the scenes as the loop left
    them; when the combiner returns it assigns 100 and "completed", and
    the job ends completed with progress 100 and the url as output; when
    the combiner raises the job ends failed with progress 85.  After a
    loop that a render broke off, the job ends failed. *)
Theorem render_all_progress_apportioned
    (E : Env) (job_id project_id : string) (σ : State) (job : Job)
    (project : Project) :
  render_jobs σ !! job_id = Some job ->
  projects_db σ !! project_id = Some project ->
  (Z.of_nat (length (project_scenes σ project)) <= 2 ^ 44)%Z ->
  let refs := project_scenes σ project in
  let total_scenes := length refs in
  exists σL r σ' k job',
    render_each E job_id total_scenes 0 refs σ = (σL, r)
    /\ process_render_all_and_combine E job_id project_id σ = (σ', Return ())
    /\ k <= total_scenes
    /\ trace σL
       = trace σ
         ++ floor_turns job_id total_scenes 0 (take k (calls_of σ [] refs))
    /\ trace σ'
       = trace σL
         ++ render_all_end E job_id project_id (audio_url project) refs σL r
    /\ (renders_succeed E σ refs -> r = Return ())
    /\ render_jobs σ' !! job_id = Some job'
    /\ match r with
       | Return _ =>
           k = total_scenes
           /\ match snd (compile_project E (deref σL refs) project_id
                           (audio_url project) (world σL)) with
              | Return url =>
                  status job' = "completed" /\ progress job' = 100%Z
                  /\ output_url job' = Some url
              | Raise e =>
                  status job' = "failed" /\ progress job' = 85%Z
                  /\ error_message job' = Some e
              end
       | Raise e => status job' = "failed" /\ error_message job' = Some e
       end.
Proof.
  intros Hjob Hproj Htotal refs total_scenes.
  destruct (process_render_all_exact E _ _ _ _ _ Hjob Hproj)
    as (σL & r & σ' & k & Hloop & Heq & HextL & HextE & Hk & Hret & Hgoes).
  fold refs in Hloop, HextL, HextE, Hk, Hret, Hgoes.
  fold total_scenes in Hloop, HextL, Hk, Hret.
  pose proof (extends_trans _ _ _ _ _ _ HextL HextE) as Hext.
  exists σL, r, σ', k. eexists.
  split; [exact Hloop|]. split; [exact Heq|]. split; [exact Hk|].
  split; [|split; [exact (ext_trace _ _ _ _ HextE)|split; [exact Hgoes|]]].
  - rewrite (ext_trace _ _ _ _ HextL).
    rewrite turns_floor_turns; [done|done|].
    rewrite length_calls by done. lia.
  - split; [exact (job_after _ _ _ _ _ Hext Hjob)|].
    rewrite job_writes_app, foldl_app.
    destruct r as [u|e]; cbn [render_all_end].
    + split; [by apply (Hret u)|].
      destruct (snd (compile_project E (deref σL refs) project_id
                       (audio_url project) (world σL))); cbn [app];
        rewrite !job_writes_write, job_writes_task_cons;
        cbn [write_of_event]; rewrite !job_writes_write; done.
    + rewrite !job_writes_write. done.
Qed.

Lemma render_all_progress_apportioned_witness :
  exists σL σ' job',
    render_each CombinerFacts.demo_env "j" 2 0 ["s1"; "s2"] demo_ok_state
    = (σL, Return ())
    /\ process_render_all_and_combine CombinerFacts.demo_env "j" "p"
         demo_ok_state = (σ', Return ())
    /\ trace σL
       = trace demo_ok_state
         ++ [JobWrite "j" (SetStatus "Rendering scene 1/2");
             JobWrite "j" (SetProgress 0);
             RenderSceneCall (Some "ok") "s1";
             JobWrite "j" (SetStatus "Rendering scene 2/2");
             JobWrite "j" (SetProgress 40);
             RenderSceneCall (Some "ok") "s2"]
    /\ trace σ'
       = trace σL
         ++ [JobWrite "j" (SetStatus "Combining scenes");
             JobWrite "j" (SetProgress 85);
             CompileProjectCall (deref σL ["s1"; "s2"]) "p" None;
             JobWrite "j" (SetProgress 100);
             JobWrite "j" (SetStatus "completed");
             JobWrite "j" (SetOutputUrl "/outputs/p_final.mp4")]
    /\ render_jobs σ' !! "j" = Some job'
    /\ status job' = "completed"
    /\ progress job' = 100%Z
    /\ output_url job' = Some "/outputs/p_final.mp4".
Proof.
  destruct (render_all_progress_apportioned CombinerFacts.demo_env "j" "p"
              demo_ok_state
              {| id := "j"; scene_id := None; project_id := Some "p";
                 status := "pending"; progress := 0; output_url := None;
                 error_message := None; created_at := 0 |}
              {| scenes := ["s1"; "s2"]; audio_url := None |}
              eq_refl eq_refl)
    as (σL & r & σ' & k & job' & Hloop & Hrun & Hk & HtraceL & Htrace & Hgoes
        & Hjob & Hcase).
  { vm_compute. discriminate. }
  specialize (Hgoes (demo_ok_renders demo_ok_state eq_refl)). subst r.
  destruct Hcase as [-> Hcase].
  assert (HσL : σL = fst (render_each CombinerFacts.demo_env "j" 2 0
                            ["s1"; "s2"] demo_ok_state))
    by exact (eq_sym (f_equal fst Hloop)).
  cbn [render_all_end] in Htrace. revert Htrace Hcase.
  destruct (snd (compile_project CombinerFacts.demo_env _ "p" _ _))
    as [url|e] eqn:Hcombine; rewrite HσL in Hcombine;
    vm_compute in Hcombine; [|discriminate].
  injection Hcombine as <-. intros Htrace (Hstatus & Hprogress & Hurl).
  exists σL, σ', job'. split; [exact Hloop|]. split; [exact Hrun|].
  split; [exact HtraceL|]. split; [exact Htrace|]. split; [exact Hjob|].
  split; [exact Hstatus|]. split; [exact Hprogress | exact Hurl].
Defined.

End RenderFacts.

(** * Further properties of the code validator *)

Module ValidatorMore.
Import Validator.

(** The node is [from manim import ...] or an [import] that names
    [manim]. *)
Definition imports_manim (node : stmt) : Prop :=
  node = ImportFrom (Some "manim")
  \/ exists names, node = Import names /\ "manim" ∈ names.

(** The node is a class with the base [Scene] and a method [construct]
    among the statements of its body. *)
Definition scene_class_with_construct (node : stmt) : Prop :=
  exists name bases body b,
    node = ClassDef name bases body
    /\ Name "Scene" ∈ bases
    /\ FunctionDef "construct" b ∈ body.

Lemma existsb_elem_of {A} (f : A -> bool) (l : list A) :
  existsb f l = true <-> exists x, x ∈ l /\ f x = true.
Proof.
  rewrite existsb_exists. by setoid_rewrite list_elem_of_In.
Qed.

Lemma is_manim_import_spec node :
  is_manim_import node = true <-> imports_manim node.
Proof.
  unfold imports_manim. destruct node as [m|names| | |]; cbn [is_manim_import].
  - rewrite bool_decide_eq_true. split; [intros ->; by left|].
    intros [H|(names & H & _)]; congruence.
  - rewrite existsb_elem_of. split.
    + intros (x & Hin & Hx). apply bool_decide_eq_true in Hx as ->.
      right. by exists names.
    + intros [H|(names' & H & Hin)]; [done|]. injection H as <-.
      exists "manim". split; [done|]. by apply bool_decide_eq_true.
  - split; [done|]. intros [H|(names & H & _)]; done.
  - split; [done|]. intros [H|(names & H & _)]; done.
  - split; [done|]. intros [H|(names & H & _)]; done.
Qed.

Lemma is_Scene_base_spec base :
  is_Scene_base base = true <-> base = Name "Scene".
Proof.
  destruct base as [id|]; cbn [is_Scene_base]; [|done].
  rewrite bool_decide_eq_true. split; congruence.
Qed.

Lemma is_construct_def_spec item :
  is_construct_def item = true <-> exists b, item = FunctionDef "construct" b.
Proof.
  destruct item as [| | |name b|]; cbn [is_construct_def];
    try (split; [done | intros (b' & H); done]).
  rewrite bool_decide_eq_true. split.
  - intros ->. by exists b.
  - intros (b' & H). congruence.
Qed.

Lemma is_scene_class_with_construct_spec node :
  is_scene_class_with_construct node = true
  <-> scene_class_with_construct node.
Proof.
  unfold scene_class_with_construct.
  destruct node as [| |name bases body| |];
    cbn [is_scene_class_with_construct];
    try (split; [done | intros (n & bs & bd & b & H & _); done]).
  rewrite andb_true_iff, !existsb_elem_of. split.
  - intros [(base & Hin & Hb) (item & Hin' & Hi)].
    apply is_Scene_base_spec in Hb as ->.
    apply is_construct_def_spec in Hi as (b & ->).
    by exists name, bases, body, b.
  - intros (n & bs & bd & b & H & Hb & Hi). injection H as -> -> ->.
    split.
    + exists (Name "Scene"). split; [done|]. by apply is_Scene_base_spec.
    + exists (FunctionDef "construct" b). split; [done|].
      apply is_construct_def_spec. by exists b.
Qed.

Lemma with_construct_is_scene_class node :
  is_scene_class_with_construct node = true -> is_scene_class node = true.
Proof.
  destruct node; cbn [is_scene_class_with_construct is_scene_class];
    try done.
  by intros [H _]%andb_true_iff.
Qed.

(** The structure check passes exactly when the walk meets an import of
    manim and a scene class with its [construct]. *)
Lemma check_structure_true L code tree :
  ast_parse L code = Parsed tree ->
  fst (check_structure L code) = true
  <-> (exists node, node ∈ ast_walk tree /\ imports_manim node)
      /\ (exists node, node ∈ ast_walk tree
                       /\ scene_class_with_construct node).
Proof.
  intros Hparse. unfold check_structure. rewrite Hparse. cbv zeta.
  setoid_rewrite <- is_manim_import_spec.
  setoid_rewrite <- is_scene_class_with_construct_spec.
  rewrite <- !existsb_elem_of.
  destruct (existsb is_manim_import (ast_walk tree)); cbn [negb fst];
    [|split; [done | intros [? _]; done]].
  destruct (existsb is_scene_class_with_construct (ast_walk tree)) eqn:Hc.
  - assert (Hs : existsb is_scene_class (ast_walk tree) = true).
    { apply existsb_elem_of in Hc as (node & Hin & Hn).
      apply existsb_elem_of. exists node. split; [done|].
      by apply with_construct_is_scene_class. }
    rewrite Hs. cbn [negb fst]. done.
  - destruct (existsb is_scene_class (ast_walk tree)); cbn [negb fst];
      (split; [done | intros [_ ?]; done]).
Qed.

Lemma scan_patterns_nil L patterns code :
  scan_patterns L patterns code = []
  <-> Forall (fun p => re_search L p code = false) patterns.
Proof.
  rewrite ValidatorFacts.scan_patterns_filter.
  apply CombinerFacts.filter_nil_iff.
Qed.

(** What [validate_manim_code] does, whatever the code. *)
Lemma validate_cases L code :
  validate_manim_code L code =
    if Py.all_space code then Py.Return EmptyCode
    else match ast_parse L code with
         | SyntaxError lineno msg => Py.Return (SyntaxInvalid lineno msg)
         | OtherException e => Py.Raise e
         | Parsed _ =>
             Py.Return
               match scan_patterns L DANGEROUS_PATTERNS code with
               | [] => check_structure L code
               | matched => UnsafeConstruct matched
               end
         end.
Proof.
  destruct (Py.all_space code) eqn:Hsp.
  - unfold validate_manim_code. by rewrite ValidatorFacts.blank_test, Hsp.
  - destruct (ast_parse L code) as [tree|lineno msg|e] eqn:Hparse.
    + by apply (ValidatorFacts.validate_parsed L code tree).
    + unfold validate_manim_code.
      rewrite ValidatorFacts.blank_test, Hsp. unfold check_syntax.
      by rewrite Hparse.
    + unfold validate_manim_code.
      rewrite ValidatorFacts.blank_test, Hsp. unfold check_syntax.
      by rewrite Hparse.
Qed.

(** The structure check answers [true] with an empty message only. *)
Lemma check_structure_accepts L code :
  fst (check_structure L code) = true ->
  check_structure L code = (true, EmptyString).
Proof.
  unfold check_structure. destruct (ast_parse L code) as [tree|lineno msg|e];
    [|done|done]. cbv zeta.
  destruct (negb (existsb is_manim_import (ast_walk tree))); [done|].
  destruct (negb (existsb is_scene_class (ast_walk tree))); [done|].
  by destruct (negb (existsb is_scene_class_with_construct (ast_walk tree))).
Qed.

(** A tree that passes the structure check with an import outside the
    allow-list, and a library that parses every text to it and finds no
    pattern. *)
Definition lenient_lib (tree : list stmt) : Lib :=
  {| ast_parse _ := Parsed tree; re_search _ _ := false |}.

Definition scene_with_pathlib : list stmt :=
  [ Import ["pathlib"]; ImportFrom (Some "manim");
    ClassDef "GeneratedScene" [Name "Scene"]
      [FunctionDef "construct" [OtherStmt []]] ].

(** The validator accepts a code, returning [(True, "")], exactly when
    the code is not blank, it parses, no pattern of the denylist is found
    in it, and the walk of its tree meets an import of manim and a class
    on [Scene] that has a [construct] method.  Nothing else is looked
    at: [ALLOWED_IMPORTS] plays no part, so imports outside it do not
    make a code invalid. *)
Theorem validate_accepts_iff (L : Lib) (code : string) :
  validate_manim_code L code = Py.Return (true, EmptyString)
  <-> Py.all_space code = false
      /\ exists tree,
          ast_parse L code = Parsed tree
          /\ Forall (fun p => re_search L p code = false) DANGEROUS_PATTERNS
          /\ (exists node, node ∈ ast_walk tree /\ imports_manim node)
          /\ (exists node, node ∈ ast_walk tree
                           /\ scene_class_with_construct node).
Proof.
  rewrite validate_cases.
  destruct (Py.all_space code); [split; [done | intros [? _]; done]|].
  destruct (ast_parse L code) as [tree|lineno msg|e] eqn:Hparse.
  - pose proof (scan_patterns_nil L DANGEROUS_PATTERNS code) as Hscan.
    destruct (scan_patterns L DANGEROUS_PATTERNS code) as [|p ps].
    + pose proof (check_structure_true L code tree Hparse) as Hstructure.
      split.
      * intros [= Hok]. split; [reflexivity|]. exists tree.
        split; [reflexivity|]. split; [exact (proj1 Hscan eq_refl)|].
        apply Hstructure. by rewrite Hok.
      * intros (_ & tree' & Ht & _ & H1 & H2). injection Ht as <-.
        f_equal. apply check_structure_accepts, Hstructure. by split.
    + split; [discriminate|]. intros (_ & tree' & _ & H & _).
      apply Hscan in H. discriminate.
  - split; [discriminate|]. intros (_ & tree' & H & _). discriminate.
  - split; [discriminate|]. intros (_ & tree' & H & _). discriminate.
Qed.

Lemma validate_accepts_iff_witness :
  validate_manim_code (lenient_lib scene_with_pathlib) "import pathlib"
  = Py.Return (true, EmptyString).
Proof.
  apply (validate_accepts_iff (lenient_lib scene_with_pathlib)
           "import pathlib").
  split; [reflexivity|]. exists scene_with_pathlib.
  split; [reflexivity|]. split.
  - unfold DANGEROUS_PATTERNS. repeat constructor.
  - split.
    + exists (ImportFrom (Some "manim")). split; [|by left].
      apply list_elem_of_In. cbn. tauto.
    + eexists. split.
      * apply list_elem_of_In. cbn. right. right. left. reflexivity.
      * eexists _, _, _, _. split; [reflexivity|].
        split; apply list_elem_of_here.
Defined.

(** The structure check only asks whether some node of the walk is an
    import of manim and some node a scene class with [construct]: a
    code that passes it still passes when its tree gains nodes, at the
    top level or by being nested in other statements. *)
Theorem structure_check_monotone
    (L : Lib) (code code' : string) (tree tree' : list stmt) :
  ast_parse L code = Parsed tree ->
  ast_parse L code' = Parsed tree' ->
  (forall node, node ∈ ast_walk tree -> node ∈ ast_walk tree') ->
  fst (check_structure L code) = true ->
  fst (check_structure L code') = true.
Proof.
  intros Hp Hp' Hsub.
  rewrite (check_structure_true L code tree Hp),
          (check_structure_true L code' tree' Hp').
  intros [(n1 & Hin1 & H1) (n2 & Hin2 & H2)].
  split; [exists n1 | exists n2]; auto.
Qed.

(** A parser that knows a scene and the same scene wrapped in another
    statement with one more import before it. *)
Definition nesting_lib : Lib :=
  {| ast_parse code :=
       if bool_decide (code = "plain") then Parsed ValidatorFacts.demo_scene
       else Parsed [Import ["numpy"]; OtherStmt ValidatorFacts.demo_scene];
     re_search _ _ := false |}.

Lemma structure_check_monotone_witness :
  fst (check_structure nesting_lib "nested") = true.
Proof.
  apply (structure_check_monotone nesting_lib "plain" "nested"
           ValidatorFacts.demo_scene
           [Import ["numpy"]; OtherStmt ValidatorFacts.demo_scene]).
  - reflexivity.
  - reflexivity.
  - intros node Hin. apply list_elem_of_In in Hin. apply list_elem_of_In.
    cbn in Hin |- *. tauto.
  - reflexivity.
Defined.

Lemma append_not_empty a s : a <> EmptyString -> a +:+ s <> EmptyString.
Proof. destruct a; [done|]. discriminate. Qed.

(** A verdict of [validate_manim_code] carries an empty message exactly
    when it accepts: every rejection comes with a message that is not
    empty, also when the parser's own message is. *)
Theorem validate_message_empty_iff
    (L : Lib) (code : string) (is_valid : bool) (message : string) :
  validate_manim_code L code = Py.Return (is_valid, message) ->
  is_valid = true <-> message = EmptyString.
Proof.
  rewrite validate_cases.
  destruct (Py.all_space code); [by intros [= <- <-]|].
  destruct (ast_parse L code) as [tree|lineno msg|e] eqn:Hparse; [| |done].
  - generalize (scan_patterns L DANGEROUS_PATTERNS code). intros [|p ps].
    + unfold check_structure. rewrite Hparse. cbv zeta.
      destruct (existsb is_manim_import (ast_walk tree)); cbn [negb];
        [|by intros [= <- <-]].
      destruct (existsb is_scene_class (ast_walk tree)); cbn [negb];
        [|by intros [= <- <-]].
      destruct (existsb is_scene_class_with_construct (ast_walk tree));
        cbn [negb]; by intros [= <- <-].
    + unfold UnsafeConstruct. intros [= <- <-]. split; [done|].
      intros H. by apply append_not_empty in H.
  - unfold SyntaxInvalid. intros [= <- <-]. split; [done|].
    intros H. by apply append_not_empty in H.
Qed.

Lemma validate_message_empty_iff_witness :
  false = true <-> "Code is empty" = EmptyString.
Proof.
  apply (validate_message_empty_iff ValidatorFacts.demo_lib "  ").
  reflexivity.
Defined.

End ValidatorMore.

(** * Further properties of the render service *)

Module ServiceMore.
Import Py Scenes RenderService CombinerFacts.

Fixpoint has_slash (s : string) : bool :=
  match s with
  | EmptyString => false
  | String c s' => Ascii.eqb c "/" || has_slash s'
  end.

Lemma append_cons x (a b : string) : String x a +:+ b = String x (a +:+ b).
Proof. reflexivity. Qed.

Lemma append_assoc (a b c : string) : (a +:+ b) +:+ c = a +:+ (b +:+ c).
Proof.
  induction a as [|x a IH]; [done|]. rewrite !append_cons. by rewrite IH.
Qed.

Lemma append_empty_r (a : string) : a +:+ EmptyString = a.
Proof. induction a as [|x a IH]; [done|]. rewrite append_cons. by rewrite IH. Qed.

Lemma has_slash_app a b : has_slash (a +:+ b) = has_slash a || has_slash b.
Proof.
  induction a as [|x a IH]; [done|]. rewrite append_cons.
  cbn [has_slash]. by rewrite IH, orb_assoc.
Qed.

Lemma basename_from_no_slash p :
  has_slash p = false -> forall cur, basename_from cur p = cur +:+ p.
Proof.
  induction p as [|c p IH]; cbn [has_slash basename_from]; intros Hp cur.
  - by rewrite append_empty_r.
  - apply orb_false_elim in Hp as [Hc Hp]. rewrite Hc, (IH Hp).
    by rewrite append_assoc.
Qed.

(** The base name of a url made of a directory and a name without
    slash is that name. *)
Lemma basename_after_slash dir name cur :
  has_slash name = false ->
  basename_from cur (dir +:+ "/" +:+ name) = name.
Proof.
  intros Hname. revert cur. induction dir as [|c dir IH]; intros cur.
  - change (EmptyString +:+ "/" +:+ name) with (String "/" name).
    cbn [basename_from]. change (Ascii.eqb "/" "/") with true.
    by rewrite basename_from_no_slash.
  - rewrite append_cons. cbn [basename_from].
    destruct (Ascii.eqb c "/"); apply IH.
Qed.

Lemma basename_outputs name :
  has_slash name = false -> basename ("/outputs/" +:+ name) = name.
Proof.
  intros Hname. apply (basename_after_slash "/outputs" name EmptyString Hname).
Qed.

Lemma basename_uploads name :
  has_slash name = false -> basename ("/uploads/" +:+ name) = name.
Proof.
  intros Hname. apply (basename_after_slash "/uploads" name EmptyString Hname).
Qed.

Lemma path_exists_true w path : path_exists w path = true <-> path ∈ files w.
Proof. unfold path_exists. apply bool_decide_eq_true. Qed.

(** What a call of [render_scene] with a code does, by the exit of
    manim and what the walk finds. *)
Lemma render_scene_cases E code scene_id w :
  let out := path_join (output_dir_abs E) (scene_id +:+ ".mp4") in
  let thumb := path_join (output_dir_abs E) (scene_id +:+ "_thumb.png") in
  let process := fst (manim E w code scene_id) in
  let w1 := add_file out (tick w) in
  let w2 := if ffmpeg_thumbnail E w1 out then add_file thumb (tick w1)
            else tick w1 in
  render_scene E (Some code) scene_id w =
    if negb (returncode process =? 0)%Z then
      (tick w, Raise ("Manim render failed: "
                      +:+ (if truthy (stderr process) then stderr process
                           else "Unknown render error")))
    else if negb (snd (manim E w code scene_id)) then
      (tick w, Raise "No video file generated")
    else
      (tick w2,
       Return {| r_video_url := "/outputs/" +:+ scene_id +:+ ".mp4";
                 r_thumbnail_url :=
                   if path_exists (tick w2) thumb
                   then Some ("/outputs/" +:+ scene_id +:+ "_thumb.png")
                   else None;
                 r_duration :=
                   default default_duration (ffprobe_duration E w2 out) |}).
Proof.
  cbv zeta. unfold render_scene, get_video_duration.
  destruct (manim E w code scene_id) as [process video_file]. cbn [fst snd].
  destruct (negb (returncode process =? 0)%Z); [done|].
  destruct (negb video_file); done.
Qed.

(** What a render leaves and returns. *)
Lemma render_scene_effect
    (E : Env) (code : option string) (scene_id : string) (w : World) :
  let out := path_join (output_dir_abs E) (scene_id +:+ ".mp4") in
  let thumb := path_join (output_dir_abs E) (scene_id +:+ "_thumb.png") in
  let w' := fst (render_scene E code scene_id w) in
  match snd (render_scene E code scene_id w) with
  | Raise _ => files w' = files w
  | Return result =>
      r_video_url result = "/outputs/" +:+ scene_id +:+ ".mp4"
      /\ out ∈ files w'
      /\ files w ⊆ files w'
      /\ files w' ⊆ {[ out; thumb ]} ∪ files w
      /\ (r_thumbnail_url result
          = if bool_decide (thumb ∈ files w')
            then Some ("/outputs/" +:+ scene_id +:+ "_thumb.png") else None)
  end.
Proof.
  destruct code as [code|]; [|done].
  cbv zeta. rewrite render_scene_cases. cbv zeta.
  destruct (negb (returncode (fst (manim E w code scene_id)) =? 0)%Z); [done|].
  destruct (negb (snd (manim E w code scene_id))); [done|].
  cbn [fst snd r_video_url r_thumbnail_url].
  split; [done|].
  destruct (ffmpeg_thumbnail E _ _); cbn [tick add_file files];
    (split; [set_solver|]); (split; [set_solver|]); (split; [set_solver|]);
    done.
Qed.


(** The scene as [process_render] and the render-all task leave it
    after a render that returned [result]. *)
Definition rendered (result : render_result) (scene : Scene) : Scene :=
  set_status completed
    (set_duration_seconds (r_duration result)
       (set_thumbnail_url (r_thumbnail_url result)
          (set_video_url (r_video_url result) scene))).

(** A scene whose id holds no slash and whose render returned has an
    artifact for the combiner, in the world the render left and in every
    world with at least those files: the path the combiner derives from
    the scene's url is the path the render wrote. *)
Theorem rendered_scene_has_artifact
    (E : Env) (code : option string) (scene_id : string) (w w' w'' : World)
    (result : render_result) (scene : Scene) :
  has_slash scene_id = false ->
  render_scene E code scene_id w = (w', Return result) ->
  files w' ⊆ files w'' ->
  has_artifact E w'' (rendered result scene) = true.
Proof.
  intros Hid Hrun Hsub.
  pose proof (render_scene_effect E code scene_id w) as H.
  cbv zeta in H. rewrite Hrun in H. cbn [fst snd] in H.
  destruct H as (Hurl & Hout & _).
  unfold has_artifact, rendered. cbn [video_url set_status
    set_duration_seconds set_thumbnail_url set_video_url].
  rewrite Hurl. apply andb_true_intro. split; [done|].
  apply path_exists_true. unfold video_path_of.
  rewrite basename_outputs.
  - set_solver.
  - rewrite has_slash_app, Hid. done.
Qed.

Lemma rendered_scene_has_artifact_witness :
  has_artifact demo_env
    (fst (render_scene demo_env (Some "ok") "s1" demo_world))
    (rendered
       {| r_video_url := "/outputs/s1.mp4";
          r_thumbnail_url := Some "/outputs/s1_thumb.png";
          r_duration := default_duration |}
       (demo_scene "s1" 0 "ok" pending None)) = true.
Proof.
  apply (rendered_scene_has_artifact demo_env (Some "ok") "s1" demo_world
           (fst (render_scene demo_env (Some "ok") "s1" demo_world))).
  - reflexivity.
  - vm_compute. reflexivity.
  - reflexivity.
Defined.

(** The combiner never removes a file and adds at most the final video.
    When it raises, the files are as they were, and for an empty scene
    list or a list without artifacts no program was run at all; when it
    returns, the url is [/outputs/<project_id>_final.mp4], and without
    an audio url the final video is there. *)
Theorem compile_project_files
    (E : Env) (scenes : list Scene) (project_id : string)
    (audio : option string) (w : World) :
  let out := path_join (output_dir_abs E) (project_id +:+ "_final.mp4") in
  let w' := fst (compile_project E scenes project_id audio w) in
  match snd (compile_project E scenes project_id audio w) with
  | Raise e =>
      files w' = files w
      /\ (e = NoScenes \/ e = NoArtifacts -> w' = w)
  | Return url =>
      url = final_url project_id
      /\ files w ⊆ files w'
      /\ files w' ⊆ {[ out ]} ∪ files w
      /\ (truthy_opt audio = false -> out ∈ files w')
  end.
Proof.
  cbv zeta. destruct scenes as [|scene rest]; [by split|].
  unfold compile_project. rewrite write_file_list_spec. cbn [app Nat.add].
  destruct (manifest E w (scene :: rest)) as [|l ls]; [by split|].
  cbn [length Nat.eqb].
  destruct (negb (returncode (ffmpeg_concat E w (l :: ls)) =? 0)%Z).
  - cbn [fst snd]. split; [done|]. intros [H|H]; discriminate.
  - cbn [fst snd]. split; [done|].
    destruct audio as [url|]; cbn [truthy_opt].
    + destruct (truthy url).
      * destruct (path_exists (tick w) _).
        -- destruct (ffmpeg_mux E (tick w) _ _) as [process []];
             cbn [tick add_file files]; (split; [set_solver|]);
             (split; [set_solver|]); done.
        -- cbn [tick add_file files]. split; [set_solver|].
           split; [set_solver|]. done.
      * cbn [tick add_file files]. split; [set_solver|].
        split; [set_solver|]. intros _. set_solver.
    + cbn [tick add_file files]. split; [set_solver|].
      split; [set_solver|]. intros _. set_solver.
Qed.

End ServiceMore.

(** * Further properties of the render jobs *)

Module JobMore.
Import Py RenderService Render RenderFacts.
Import Scenes (Scene, SceneStatus).

(** ** The render-all submission *)

(** Every listed scene that is in the registry has a code. *)
Definition all_have_code (db : gmap string Scene) (scene_ids : list string)
  : Prop :=
  forall sid s, sid ∈ scene_ids -> db !! sid = Some s ->
                truthy_opt (Scenes.code s) = true.

Lemma first_without_code_None db scene_ids :
  first_without_code db scene_ids = None <-> all_have_code db scene_ids.
Proof.
  unfold all_have_code. induction scene_ids as [|sid rest IH];
    cbn [first_without_code].
  - split; [|done]. by intros _ sid s Hin%elem_of_nil.
  - destruct (db !! sid) as [scene|] eqn:Hscene.
    + destruct (truthy_opt (Scenes.code scene)) eqn:Hc; cbn [negb].
      * rewrite IH. split.
        -- intros Hrest x s [->|Hin]%elem_of_cons Hx; [congruence|eauto].
        -- intros Hall x s Hin. apply Hall. by right.
      * split; [done|]. intros Hall.
        rewrite (Hall sid scene) in Hc; [done|left|done].
    + rewrite IH. split.
      * intros Hrest x s [->|Hin]%elem_of_cons Hx; [congruence|eauto].
      * intros Hall x s Hin. apply Hall. by right.
Qed.

Lemma first_without_code_Some db pre sid post s :
  db !! sid = Some s ->
  truthy_opt (Scenes.code s) = false ->
  all_have_code db pre ->
  first_without_code db (pre ++ sid :: post) = Some (Scenes.prompt s).
Proof.
  intros Hs Hc. induction pre as [|x pre IH]; intros Hpre.
  - cbn [app first_without_code]. by rewrite Hs, Hc.
  - cbn [app first_without_code].
    assert (Hpre' : all_have_code db pre).
    { intros y sy Hin. apply Hpre. by right. }
    destruct (db !! x) as [sx|] eqn:Hx; [|by apply IH].
    rewrite (Hpre x sx); [by apply IH | left | done].
Qed.

Definition render_all_job (job_id project_id : string) (σ : State) : Job :=
  {| id := job_id; scene_id := None; project_id := Some project_id;
     status := "pending"; progress := 0; output_url := None;
     error_message := None; created_at := utcnow σ |}.

(** A project whose second scene has no code. *)
Definition codeless_state : State :=
  {| render_jobs := ∅;
     scenes_db :=
       {[ "a" := CombinerFacts.scene_a;
          "b" := {| Scenes.id := "b"; Scenes.project_id := "p";
                    Scenes.prompt := "a square"; Scenes.code := None;
                    Scenes.video_url := None; Scenes.thumbnail_url := None;
                    Scenes.duration_seconds := Scenes.float_of_int 0;
                    Scenes.order_index := 1;
                    Scenes.status := Scenes.failed;
                    Scenes.error_message := Some "no answer";
                    Scenes.created_at := 0; Scenes.updated_at := 0 |} ]};
     projects_db :=
       {[ "p" := {| scenes := ["a"; "b"]; audio_url := None |} ]};
     world := CombinerFacts.demo_world;
     trace := [] |}.

(** A render-all submission is rejected, with nothing changed, with 404
    when the project is unknown, with 400 "Project has no scenes to
    render" when it lists no scene, and with 400 naming the prompt of
    the first listed scene that is in the registry and has no code
    ([None] or empty); listed scenes that are not in the registry are
    passed over.  Otherwise the job is created pending with progress 0,
    the task is scheduled, and the message counts every listed scene. *)
Theorem render_all_precondition
    (project_id job_id : string) (σ : State) :
  (projects_db σ !! project_id = None ->
   render_all_and_combine project_id job_id σ
   = (σ, HTTPException 404 "Project not found"))
  /\ (forall project,
        projects_db σ !! project_id = Some project ->
        (scenes project = [] ->
         render_all_and_combine project_id job_id σ
         = (σ, HTTPException 400 "Project has no scenes to render"))
        /\ (forall pre sid post s,
              scenes project = pre ++ sid :: post ->
              scenes_db σ !! sid = Some s ->
              truthy_opt (Scenes.code s) = false ->
              all_have_code (scenes_db σ) pre ->
              render_all_and_combine project_id job_id σ
              = (σ, HTTPException 400
                      ("Scene '" +:+ Scenes.prompt s +:+ "' has no code")))
        /\ (scenes project <> [] ->
            all_have_code (scenes_db σ) (scenes project) ->
            let job := render_all_job job_id project_id σ in
            render_all_and_combine project_id job_id σ
            = (create_job job_id job σ,
               Accepted {| success := true; data := Some job;
                           message :=
                             Some ("Started rendering "
                                   +:+ str_nat (length (scenes project))
                                   +:+ " scenes") |}
                        (ProcessRenderAllAndCombine job_id project_id)))).
Proof.
  split.
  - intros Hnone. unfold render_all_and_combine. by rewrite Hnone.
  - intros project Hproject. unfold render_all_and_combine.
    rewrite Hproject. cbv zeta. split; [|split].
    + by intros ->.
    + intros pre sid post s Hsc Hs Hc Hpre.
      pose proof (first_without_code_Some _ pre sid post s Hs Hc Hpre)
        as Hfirst.
      rewrite <- Hsc in Hfirst. rewrite Hfirst.
      destruct (scenes project); [by destruct pre | done].
    + intros Hne Hall. apply first_without_code_None in Hall.
      destruct (scenes project) as [|x rest] eqn:Hsc; [done|].
      by rewrite Hall.
Qed.

Lemma render_all_precondition_witness :
  render_all_and_combine "p" "j" codeless_state
  = (codeless_state, HTTPException 400 "Scene 'a square' has no code").
Proof.
  refine (proj1 (proj2 (proj2 (render_all_precondition "p" "j" codeless_state)
            _ eq_refl)) ["a"] "b" [] _ eq_refl eq_refl eq_refl _).
  intros sid s Hin%list_elem_of_singleton Hs. subst sid.
  vm_compute in Hs. injection Hs as <-. reflexivity.
Defined.

(** ** The job record at the end of a task *)

(** An assignment to [status] or [progress]. *)
Definition plain_write (wr : job_write) : Prop :=
  match wr with
  | SetStatus _ | SetProgress _ => True
  | SetOutputUrl _ | SetErrorMessage _ => False
  end.

Definition run_writes (job : Job) (ws : list job_write) : Job :=
  foldl (fun j wr => apply_write wr j) job ws.

Lemma plain_writes_keep job ws :
  Forall plain_write ws ->
  id (run_writes job ws) = id job
  /\ output_url (run_writes job ws) = output_url job
  /\ error_message (run_writes job ws) = error_message job.
Proof.
  unfold run_writes. revert job.
  induction ws as [|wr ws IH]; intros job Hws; [done|].
  inversion Hws as [|? ? Hwr Hws']; subst. cbn [foldl].
  destruct (IH (apply_write wr job) Hws') as (-> & -> & ->).
  by destruct wr.
Qed.

(** The record of a job whose task is over. *)
Definition finished (job : Job) : Prop :=
  (status job = "completed" /\ progress job = 100%Z
   /\ is_Some (output_url job) /\ error_message job = None)
  \/ (status job = "failed" /\ is_Some (error_message job)
      /\ output_url job = None).

(** The two ways a task ends. *)
Definition task_ending (ws : list job_write) : Prop :=
  (exists url, ws = [SetProgress 100; SetStatus "completed"; SetOutputUrl url])
  \/ (exists e, ws = [SetStatus "failed"; SetErrorMessage e]).

Lemma finished_after job pre ending :
  output_url job = None -> error_message job = None ->
  Forall plain_write pre -> task_ending ending ->
  finished (run_writes job (pre ++ ending))
  /\ id (run_writes job (pre ++ ending)) = id job.
Proof.
  intros Hout Herr Hpre Hend. unfold run_writes. rewrite foldl_app.
  destruct (plain_writes_keep job pre Hpre) as (Hid & Hout' & Herr').
  unfold run_writes in *.
  set (job1 := foldl _ job pre) in *.
  destruct Hend as [[url ->]|[e ->]]; cbn [foldl apply_write].
  - split; [|done]. left. cbn. rewrite Herr', Herr. eauto.
  - split; [|done]. right. cbn. rewrite Hout', Hout. eauto.
Qed.

Lemma turn_writes_plain total_scenes l :
  Forall plain_write (flat_map (turn_writes total_scenes) l).
Proof. induction l as [|i l IH]; [constructor|]. by repeat constructor. Qed.

Lemma job_writes_call job_id e new :
  write_of_event job_id e = None ->
  job_writes job_id (e :: new) = job_writes job_id new.
Proof. intros H. by rewrite job_writes_task_cons, H. Qed.

Lemma render_all_ending_writes job_id project_id audio total_scenes k ending :
  render_all_ending job_id project_id audio total_scenes k ending ->
  exists pre tail,
    job_writes job_id ending = pre ++ tail
    /\ Forall plain_write pre /\ task_ending tail.
Proof.
  intros [scenes url _|scenes e _|e].
  - eexists [SetStatus "Combining scenes"; SetProgress 85], _.
    rewrite !job_writes_write, job_writes_call, !job_writes_write by done.
    split; [reflexivity|]. split; [by repeat constructor|]. left. eauto.
  - eexists [SetStatus "Combining scenes"; SetProgress 85], _.
    rewrite !job_writes_write, job_writes_call, !job_writes_write by done.
    split; [reflexivity|]. split; [by repeat constructor|]. right. eauto.
  - eexists [], _. rewrite !job_writes_write.
    split; [reflexivity|]. split; [constructor|]. right. eauto.
Qed.

(** The job an accepted submission has created. *)
Lemma submit_accepted_job r job_id σ σ1 response task :
  submit r job_id σ = (σ1, Accepted response task) ->
  exists job,
    σ1 = create_job job_id job σ
    /\ data response = Some job
    /\ id job = job_id /\ status job = "pending" /\ progress job = 0%Z
    /\ output_url job = None /\ error_message job = None.
Proof.
  destruct r as [scene_id|project_id|project_id]; cbn [submit].
  - unfold render_single_scene.
    destruct (scenes_db σ !! scene_id) as [scene|]; [|done].
    destruct (negb _); [done|]. intros [= <- <- _]. eexists.
    split; [reflexivity|]. done.
  - unfold export_project.
    destruct (projects_db σ !! project_id) as [project|]; [|done].
    destruct (scenes project) as [|x rest]; [done|].
    destruct (first_not_rendered _ _); [done|].
    intros [= <- <- _]. eexists. split; [reflexivity|]. done.
  - unfold render_all_and_combine.
    destruct (projects_db σ !! project_id) as [project|]; [|done].
    destruct (scenes project) as [|x rest]; [done|].
    destruct (first_without_code _ _); [done|].
    intros [= <- <- _]. eexists. split; [reflexivity|]. done.
Qed.

Definition status_reply (σ : State) (job : Job)
  : State * Projects.reply Job :=
  (σ, Projects.Returns {| Projects.success := true;
                          Projects.data := Some job;
                          Projects.message := None |}).

(** The status endpoint answers 404 for an id that names no job.  For
    a job that a submission has just created it returns the record of
    the response, pending with progress 0; once the task of the job has
    run, it returns a record with the same id that is either completed
    with progress 100, an output url and no error message, or failed
    with an error message and no output url. *)
Theorem status_after_task
    (E : Env) (r : request) (job_id : string) (σ σ1 : State)
    (response : RenderResponse) (task : background_task) :
  submit r job_id σ = (σ1, Accepted response task) ->
  (forall other,
      render_jobs σ1 !! other = None ->
      RenderStatus.get_render_status other σ1
      = (σ1, Projects.HTTPException 404 "Render job not found"))
  /\ exists job σ2 job',
      data response = Some job
      /\ status job = "pending" /\ progress job = 0%Z
      /\ RenderStatus.get_render_status job_id σ1 = status_reply σ1 job
      /\ run_task E task σ1 = (σ2, Return ())
      /\ RenderStatus.get_render_status job_id σ2 = status_reply σ2 job'
      /\ id job' = job_id
      /\ finished job'.
Proof.
  intros Hsubmit. split.
  { intros other Hnone. unfold RenderStatus.get_render_status.
    by rewrite Hnone. }
  destruct (submit_accepted_job _ _ _ _ _ _ Hsubmit)
    as (job & Hσ1 & Hdata & Hid & Hst & Hp & Hout & Herr).
  destruct (submit_accepted _ _ _ _ _ _ Hsubmit) as (job0 & Hσ1' & _ & Hkind).
  assert (job0 = job) as ->.
  { rewrite Hσ1 in Hσ1'. injection Hσ1' as Heq.
    apply (f_equal (fun m => m !! job_id)) in Heq.
    rewrite !lookup_insert_eq in Heq. congruence. }
  clear Hσ1'. subst σ1.
  assert (Hjob : render_jobs (create_job job_id job σ) !! job_id = Some job)
    by apply lookup_insert_eq.
  assert (Hreply : forall σ2 job',
             render_jobs σ2 !! job_id = Some job' ->
             RenderStatus.get_render_status job_id σ2 = status_reply σ2 job').
  { intros σ2 job' H. unfold RenderStatus.get_render_status. by rewrite H. }
  assert (Hdone : forall σ2 new pre tail,
             extends job_id (create_job job_id job σ) σ2 new ->
             job_writes job_id new = pre ++ tail ->
             Forall plain_write pre -> task_ending tail ->
             exists job',
               RenderStatus.get_render_status job_id σ2 = status_reply σ2 job'
               /\ id job' = job_id /\ finished job').
  { intros σ2 new pre tail Hext Hws Hpre Htail.
    pose proof (job_after _ _ _ _ _ Hext Hjob) as Hafter.
    rewrite Hws in Hafter.
    destruct (finished_after job pre tail Hout Herr Hpre Htail) as [Hf Hid'].
    eexists. split; [by apply Hreply|]. split; [|exact Hf].
    unfold run_writes in Hid'. by rewrite Hid'. }
  exists job.
  destruct r as [scene_id|project_id|project_id].
  - destruct Hkind as [-> [scene Hscene]]. cbn [run_task].
    destruct (process_render_events E job_id scene_id _ job scene Hjob Hscene)
      as (σ2 & Heq & Hext).
    assert (exists job',
               RenderStatus.get_render_status job_id σ2 = status_reply σ2 job'
               /\ id job' = job_id /\ finished job') as (job' & Hr & Hid' & Hf);
      [eapply (Hdone σ2 _ [SetStatus "rendering"; SetProgress 10]);
       [exact Hext | | |] |].
    + cbn [app]. rewrite !job_writes_write, job_writes_call by done.
      reflexivity.
    + by repeat constructor.
    + destruct (snd (render_scene E _ scene_id _)); rewrite !job_writes_write;
        [left|right]; eauto.
    + exists σ2, job'. split; [done|]. split; [done|]. split; [done|].
      split; [by apply Hreply|]. done.
  - destruct Hkind as [-> [project Hproject]]. cbn [run_task].
    destruct (process_export_events E job_id project_id _ job project
                Hjob Hproject) as (σ2 & Heq & Hext).
    assert (exists job',
               RenderStatus.get_render_status job_id σ2 = status_reply σ2 job'
               /\ id job' = job_id /\ finished job') as (job' & Hr & Hid' & Hf);
      [eapply (Hdone σ2 _ [SetStatus "compiling"; SetProgress 10]);
       [exact Hext | | |] |].
    + cbn [app]. rewrite !job_writes_write, job_writes_call by done.
      reflexivity.
    + by repeat constructor.
    + destruct (snd (compile_project E _ project_id _ _));
        rewrite !job_writes_write; [left|right]; eauto.
    + exists σ2, job'. split; [done|]. split; [done|]. split; [done|].
      split; [by apply Hreply|]. done.
  - destruct Hkind as [-> [project Hproject]]. cbn [run_task].
    destruct (process_render_all_events E job_id project_id _ job project
                Hjob Hproject)
      as (σ2 & calls & ending & Heq & Hext & Hcalls & Hlen & Hend).
    destruct (render_all_ending_writes _ _ _ _ _ _ Hend)
      as (pre & tail & Hws & Hpre & Htail).
    set (total_scenes :=
           length (project_scenes (create_job job_id job σ) project)) in *.
    destruct (Hdone σ2 _ (flat_map (turn_writes total_scenes)
                            (seq 0 (length calls)) ++ pre) tail Hext)
      as (job' & Hr & Hid' & Hf).
    + rewrite job_writes_app, (turns_job_writes _ _ _ Hcalls), Hws.
      by rewrite app_assoc.
    + apply Forall_app. split; [apply turn_writes_plain | done].
    + done.
    + exists σ2, job'. split; [done|]. split; [done|]. split; [done|].
      split; [by apply Hreply|]. done.
Qed.

Lemma status_after_task_witness :
  exists job σ2 job',
    data {| success := true;
            data := Some (render_all_job "j" "p" demo_ok_state0);
            message := Some "Started rendering 2 scenes" |} = Some job
    /\ status job = "pending" /\ progress job = 0%Z
    /\ RenderStatus.get_render_status "j" demo_ok_state
       = status_reply demo_ok_state job
    /\ run_task CombinerFacts.demo_env (ProcessRenderAllAndCombine "j" "p")
         demo_ok_state = (σ2, Return ())
    /\ RenderStatus.get_render_status "j" σ2 = status_reply σ2 job'
    /\ id job' = "j"
    /\ finished job'.
Proof.
  apply (status_after_task CombinerFacts.demo_env (RenderAllAndCombine "p")
           "j" demo_ok_state0 demo_ok_state).
  reflexivity.
Defined.

(** ** The scene after a single-scene render *)

Lemma lookup_write_job_scene job_id wr σ sid :
  scenes_db (write_job job_id wr σ) !! sid = scenes_db σ !! sid.
Proof. done. Qed.

(** After [process_render], the job and the scene tell the same story:
    either the job is completed and the scene is completed with the
    job's output url, [/outputs/<scene_id>.mp4], as its video url, or
    the job is failed and the scene is failed with the job's error
    message, its earlier video url being left in place.  No other
    scene is touched. *)
Theorem process_render_scene_agrees
    (E : Env) (job_id scene_id : string) (σ : State) (job : Job)
    (scene : Scene) :
  render_jobs σ !! job_id = Some job ->
  scenes_db σ !! scene_id = Some scene ->
  let σ' := fst (process_render E job_id scene_id σ) in
  (exists job' scene',
      render_jobs σ' !! job_id = Some job'
      /\ scenes_db σ' !! scene_id = Some scene'
      /\ ((status job' = "completed"
           /\ Scenes.status scene' = Scenes.completed
           /\ Scenes.video_url scene' = output_url job'
           /\ output_url job' = Some ("/outputs/" +:+ scene_id +:+ ".mp4"))
          \/ (status job' = "failed"
              /\ Scenes.status scene' = Scenes.failed
              /\ Scenes.error_message scene' = error_message job'
              /\ is_Some (error_message job')
              /\ Scenes.video_url scene' = Scenes.video_url scene)))
  /\ (forall sid, sid <> scene_id ->
        scenes_db σ' !! sid = scenes_db σ !! sid).
Proof.
  intros Hjob Hscene. cbv zeta. unfold process_render.
  rewrite Hjob, Hscene. rewrite await_render_scene_eq.
  change (world (write_scene scene_id _ (write_job job_id _ (write_job job_id _ σ))))
    with (world σ).
  destruct (render_scene E (Scenes.code scene) scene_id (world σ))
    as [w' [result|e]] eqn:Hrun; cbn [fst snd].
  - pose proof (render_scene_video_url _ _ _ _ _ _ Hrun) as Hurl.
    split.
    + eexists _, _. split; [|split].
      * cbn [store_render_result write_scene job_completed write_job emit
             set_world render_jobs].
        rewrite !lookup_alter_eq, Hjob. reflexivity.
      * rewrite lookup_store_render_result, decide_True by done.
        cbn [job_completed write_scene write_job emit set_world scenes_db].
        rewrite lookup_alter_eq, Hscene. reflexivity.
      * left. cbn. by rewrite Hurl.
    + intros sid Hne.
      rewrite lookup_store_render_result, decide_False by done.
      cbn [job_completed write_scene write_job emit set_world scenes_db].
      by rewrite lookup_alter_ne.
  - split.
    + eexists _, _. split; [|split].
      * cbn [write_scene job_failed write_job emit set_world render_jobs].
        rewrite !lookup_alter_eq, Hjob. reflexivity.
      * cbn [write_scene job_failed write_job emit set_world scenes_db].
        rewrite !lookup_alter_eq, Hscene. reflexivity.
      * right. cbn. eauto.
    + intros sid Hne.
      cbn [write_scene job_failed write_job emit set_world scenes_db].
      by rewrite !lookup_alter_ne.
Qed.

Lemma process_render_scene_agrees_witness :
  exists job' scene',
    render_jobs (fst (process_render CombinerFacts.demo_env "j" "s1"
                        demo_single)) !! "j" = Some job'
    /\ scenes_db (fst (process_render CombinerFacts.demo_env "j" "s1"
                         demo_single)) !! "s1" = Some scene'
    /\ ((status job' = "completed"
         /\ Scenes.status scene' = Scenes.completed
         /\ Scenes.video_url scene' = output_url job'
         /\ output_url job' = Some "/outputs/s1.mp4")
        \/ (status job' = "failed"
            /\ Scenes.status scene' = Scenes.failed
            /\ Scenes.error_message scene' = error_message job'
            /\ is_Some (error_message job')
            /\ Scenes.video_url scene'
               = Scenes.video_url
                   (CombinerFacts.demo_scene "s1" 0 "ok" Scenes.pending None))).
Proof.
  refine (proj1 (process_render_scene_agrees CombinerFacts.demo_env "j" "s1"
                   demo_single _ _ _ _)); reflexivity.
Defined.

(** ** The order in which scenes are combined *)

Definition index_le (a b : Scene) : Prop :=
  (Scenes.order_index a <= Scenes.order_index b)%Z.

Definition has_index (k : Z) (s : Scene) : bool :=
  bool_decide (Scenes.order_index s = k).

Lemma insert_scene_perm x l : SceneRoutes.insert_scene x l ≡ₚ x :: l.
Proof.
  induction l as [|y l IH]; cbn [SceneRoutes.insert_scene]; [done|].
  destruct (_ <=? _)%Z; [done|]. rewrite IH. apply Permutation_swap.
Qed.

Lemma sort_scenes_perm l : SceneRoutes.sort_scenes l ≡ₚ l.
Proof.
  induction l as [|x l IH]; cbn [SceneRoutes.sort_scenes]; [done|].
  by rewrite insert_scene_perm, IH.
Qed.

Lemma insert_scene_sorted x l :
  StronglySorted index_le l ->
  StronglySorted index_le (SceneRoutes.insert_scene x l).
Proof.
  induction 1 as [|y l Hl IH Hy]; cbn [SceneRoutes.insert_scene].
  - by repeat constructor.
  - destruct (Scenes.order_index x <=? Scenes.order_index y)%Z eqn:Hxy.
    + apply Z.leb_le in Hxy. constructor; [by constructor|].
      constructor; [done|]. eapply Forall_impl; [exact Hy|].
      unfold index_le. intros z Hz. lia.
    + apply Z.leb_gt in Hxy. constructor; [done|].
      rewrite insert_scene_perm. constructor; [|done].
      unfold index_le. lia.
Qed.

Lemma sort_scenes_sorted l : StronglySorted index_le (SceneRoutes.sort_scenes l).
Proof.
  induction l as [|x l IH]; cbn [SceneRoutes.sort_scenes]; [constructor|].
  by apply insert_scene_sorted.
Qed.

Lemma filter_insert_scene k x l :
  List.filter (has_index k) (SceneRoutes.insert_scene x l)
  = List.filter (has_index k) (x :: l).
Proof.
  induction l as [|y l IH]; cbn [SceneRoutes.insert_scene]; [done|].
  destruct (Scenes.order_index x <=? Scenes.order_index y)%Z eqn:Hxy; [done|].
  apply Z.leb_gt in Hxy. cbn [List.filter] in *. rewrite IH.
  unfold has_index.
  destruct (decide (Scenes.order_index x = k)) as [Hx|Hx];
    destruct (decide (Scenes.order_index y = k)) as [Hy|Hy];
    rewrite ?(bool_decide_eq_true_2 _ Hx), ?(bool_decide_eq_false_2 _ Hx),
      ?(bool_decide_eq_true_2 _ Hy), ?(bool_decide_eq_false_2 _ Hy);
    try done.
  lia.
Qed.

(** The sort is stable: scenes with the same index keep their order. *)
Lemma sort_scenes_stable k l :
  List.filter (has_index k) (SceneRoutes.sort_scenes l)
  = List.filter (has_index k) l.
Proof.
  induction l as [|x l IH]; cbn [SceneRoutes.sort_scenes]; [done|].
  rewrite filter_insert_scene. cbn [List.filter]. by rewrite IH.
Qed.

Lemma deref_cons_Some σ ref refs s :
  scenes_db σ !! ref = Some s -> deref σ (ref :: refs) = s :: deref σ refs.
Proof. intros H. unfold deref. cbn [omap list_omap]. by rewrite H. Qed.

(** Sorting the references by the index of their dictionaries is
    sorting the dictionaries. *)
Lemma deref_insert_sorted σ x sx refs :
  scenes_db σ !! x = Some sx ->
  Forall (fun ref => is_Some (scenes_db σ !! ref)) refs ->
  deref σ (insert_sorted (scenes_db σ) x refs)
  = SceneRoutes.insert_scene sx (deref σ refs).
Proof.
  intros Hx. induction 1 as [|y refs [sy Hy] Hrefs IH];
    cbn [insert_sorted].
  - by rewrite (deref_cons_Some _ _ _ _ Hx).
  - rewrite (deref_cons_Some _ _ _ _ Hy). cbn [SceneRoutes.insert_scene].
    unfold order_index_of. rewrite Hx, Hy.
    destruct (_ <=? _)%Z.
    + rewrite (deref_cons_Some _ _ _ _ Hx). by rewrite (deref_cons_Some _ _ _ _ Hy).
    + rewrite (deref_cons_Some _ _ _ _ Hy). by rewrite IH.
Qed.

Lemma insert_sorted_found db x refs :
  is_Some (db !! x) ->
  Forall (fun ref => is_Some (db !! ref)) refs ->
  Forall (fun ref => is_Some (db !! ref)) (insert_sorted db x refs).
Proof.
  intros Hx Hrefs. rewrite insert_sorted_perm. by constructor.
Qed.

Lemma deref_sort σ refs :
  Forall (fun ref => is_Some (scenes_db σ !! ref)) refs ->
  deref σ (sort_by_order_index (scenes_db σ) refs)
  = SceneRoutes.sort_scenes (deref σ refs)
  /\ Forall (fun ref => is_Some (scenes_db σ !! ref))
            (sort_by_order_index (scenes_db σ) refs).
Proof.
  induction 1 as [|x refs [sx Hx] Hrefs [IH1 IH2]];
    cbn [sort_by_order_index]; [done|].
  split.
  - rewrite (deref_insert_sorted _ _ sx) by done.
    by rewrite (deref_cons_Some _ _ _ _ Hx), IH1.
  - by apply insert_sorted_found.
Qed.

Lemma deref_filter σ refs :
  deref σ (List.filter (fun sid => bool_decide (is_Some (scenes_db σ !! sid)))
                       refs)
  = omap (fun sid => scenes_db σ !! sid) refs
  /\ Forall (fun ref => is_Some (scenes_db σ !! ref))
       (List.filter (fun sid => bool_decide (is_Some (scenes_db σ !! sid)))
                    refs).
Proof.
  induction refs as [|x refs [IH1 IH2]]; [done|].
  cbn [List.filter omap list_omap].
  destruct (scenes_db σ !! x) as [sx|] eqn:Hx.
  - rewrite bool_decide_eq_true_2 by eauto. split.
    + by rewrite (deref_cons_Some _ _ _ _ Hx), IH1.
    + constructor; [by rewrite Hx|done].
  - rewrite bool_decide_eq_false_2 by (by intros [? ?]). done.
Qed.

(** The scenes of a project as the tasks collect them are the
    dictionaries of its listed scenes that are in the registry, sorted
    as [list_scenes] sorts them. *)
Lemma deref_project_scenes σ project :
  deref σ (project_scenes σ project)
  = SceneRoutes.sort_scenes
      (omap (fun sid => scenes_db σ !! sid) (scenes project))
  /\ Forall (fun ref => is_Some (scenes_db σ !! ref))
            (project_scenes σ project).
Proof.
  unfold project_scenes.
  destruct (deref_filter σ (scenes project)) as [H1 H2].
  destruct (deref_sort σ _ H2) as [H3 H4]. by rewrite H3, H1.
Qed.

(** The export task hands to the combiner the dictionaries of the
    listed scenes that are in the registry, each once per listing, in
    non-decreasing [order_index]; scenes with the same index keep the
    order of the project's list. *)
Theorem export_combines_in_order
    (E : Env) (job_id project_id : string) (σ : State) (job : Job)
    (project : Project) :
  render_jobs σ !! job_id = Some job ->
  projects_db σ !! project_id = Some project ->
  let listed := omap (fun sid => scenes_db σ !! sid) (scenes project) in
  exists scenes ending,
    trace (fst (process_export E job_id project_id σ))
    = trace σ ++ [JobWrite job_id (SetStatus "compiling");
                  JobWrite job_id (SetProgress 10);
                  CompileProjectCall scenes project_id (audio_url project)]
              ++ ending
    /\ scenes ≡ₚ listed
    /\ StronglySorted index_le scenes
    /\ (forall k, List.filter (has_index k) scenes
                  = List.filter (has_index k) listed).
Proof.
  intros Hjob Hproject listed.
  destruct (process_export_events E job_id project_id σ job project
              Hjob Hproject) as (σ' & Heq & Hext).
  rewrite Heq. cbn [fst].
  eexists _, _. split; [apply (ext_trace _ _ _ _ Hext)|].
  destruct (deref_project_scenes σ project) as [-> _]. fold listed.
  split; [apply sort_scenes_perm|].
  split; [apply sort_scenes_sorted|].
  intros k. apply sort_scenes_stable.
Qed.

(** Two scenes listed against their order. *)
Definition swapped_state : State :=
  {| render_jobs :=
       {[ "j" := render_all_job "j" "p" codeless_state ]};
     scenes_db :=
       {[ "a" := CombinerFacts.scene_a; "b" := CombinerFacts.scene_b ]};
     projects_db :=
       {[ "p" := {| scenes := ["b"; "a"]; audio_url := None |} ]};
     world := CombinerFacts.demo_world;
     trace := [] |}.

Lemma export_combines_in_order_witness :
  exists scenes ending,
    trace (fst (process_export CombinerFacts.demo_env "j" "p" swapped_state))
    = [] ++ [JobWrite "j" (SetStatus "compiling");
             JobWrite "j" (SetProgress 10);
             CompileProjectCall scenes "p" None] ++ ending
    /\ scenes ≡ₚ [CombinerFacts.scene_b; CombinerFacts.scene_a]
    /\ StronglySorted index_le scenes
    /\ (forall k, List.filter (has_index k) scenes
                  = List.filter (has_index k)
                      [CombinerFacts.scene_b; CombinerFacts.scene_a]).
Proof.
  apply (export_combines_in_order CombinerFacts.demo_env "j" "p"
           swapped_state (render_all_job "j" "p" codeless_state)
           {| scenes := ["b"; "a"]; audio_url := None |});
    reflexivity.
Defined.

(** ** What the render-all task renders and what it combines *)

Definition is_render_call (e : event) : bool :=
  match e with RenderSceneCall _ _ => true | _ => false end.

Definition is_job_write (e : event) : Prop :=
  match e with JobWrite _ _ => True | _ => False end.

(** A scene that the loop of the render-all task passes over. *)
Definition rendered_already (s : Scene) : Prop :=
  Scenes.status s = Scenes.completed
  /\ truthy_opt (Scenes.video_url s) = true.

Lemma needs_render_false_iff s : needs_render s = false <-> rendered_already s.
Proof.
  split; [apply needs_render_false|]. intros [H1 H2]. unfold needs_render.
  by rewrite bool_decide_eq_true_2, H2.
Qed.

Lemma job_writes_no_render_call new :
  Forall is_job_write new -> Forall (fun e => is_render_call e = false) new.
Proof. intros H. eapply Forall_impl; [exact H|]. by intros []. Qed.

(** The loop over scenes that are all rendered already only announces
    them. *)
Lemma render_each_nothing_to_do E job_id total_scenes refs :
  forall i σ,
    Forall (fun ref => exists s, scenes_db σ !! ref = Some s
                                 /\ needs_render s = false) refs ->
    exists σ' new,
      render_each E job_id total_scenes i refs σ = (σ', Return ())
      /\ scenes_db σ' = scenes_db σ
      /\ world σ' = world σ
      /\ trace σ' = trace σ ++ new
      /\ Forall is_job_write new.
Proof.
  induction refs as [|ref rest IH]; intros i σ Hall.
  - exists σ, []. cbn [render_each]. by rewrite app_nil_r.
  - inversion Hall as [|? ? (s & Hs & Hn) Hrest]; subst.
    rewrite (render_each_cons _ _ _ _ _ _ _ _ Hs). cbv zeta. rewrite Hn.
    destruct (IH (S i) (announce job_id total_scenes i σ))
      as (σ' & new & Heq & Hdb & Hw & Ht & Hnew).
    { by rewrite scenes_db_announce. }
    exists σ'. eexists (_ :: _ :: new). split; [exact Heq|].
    split; [by rewrite Hdb, scenes_db_announce|]. split; [by rewrite Hw|].
    split.
    + rewrite Ht. cbn [announce write_job emit trace].
      by rewrite <- !app_assoc.
    + by repeat constructor.
Qed.

Lemma project_scenes_elem_of σ project ref :
  ref ∈ project_scenes σ project
  <-> ref ∈ scenes project /\ is_Some (scenes_db σ !! ref).
Proof.
  unfold project_scenes. rewrite sort_by_order_index_perm.
  rewrite !list_elem_of_In, filter_In. by rewrite bool_decide_eq_true.
Qed.

Lemma deref_same σ σ' refs :
  scenes_db σ' = scenes_db σ -> deref σ' refs = deref σ refs.
Proof. unfold deref. by intros ->. Qed.

(** When every listed scene that is in the registry is completed and
    has a video url, the render-all task renders nothing: it calls the
    render service for no scene and leaves every scene as it was, and
    goes on to combine the scenes as they are. *)
Theorem render_all_skips_rendered
    (E : Env) (job_id project_id : string) (σ : State) (job : Job)
    (project : Project) :
  render_jobs σ !! job_id = Some job ->
  projects_db σ !! project_id = Some project ->
  (forall sid s, sid ∈ scenes project -> scenes_db σ !! sid = Some s ->
                 rendered_already s) ->
  let σ' := fst (process_render_all_and_combine E job_id project_id σ) in
  scenes_db σ' = scenes_db σ
  /\ exists turns ending,
      trace σ'
      = trace σ ++ turns
          ++ [JobWrite job_id (SetStatus "Combining scenes");
              JobWrite job_id (SetProgress 85);
              CompileProjectCall (deref σ (project_scenes σ project))
                                 project_id (audio_url project)]
          ++ ending
      /\ Forall (fun e => is_render_call e = false) (turns ++ ending).
Proof.
  intros Hjob Hproject Hall. cbv zeta.
  unfold process_render_all_and_combine. rewrite Hjob, Hproject. cbv zeta.
  destruct (render_each_nothing_to_do E job_id
              (length (project_scenes σ project)) (project_scenes σ project)
              0 σ) as (σL & new & Heq & Hdb & Hw & Ht & Hnew).
  { apply Forall_forall. intros ref [Hin [s Hs]]%project_scenes_elem_of.
    exists s. split; [done|]. apply needs_render_false_iff. eauto. }
  rewrite Heq. rewrite await_compile_project_eq.
  set (σ2 := write_job job_id (SetProgress 85)
               (write_job job_id (SetStatus "Combining scenes") σL)).
  assert (Hderef : deref σ2 (project_scenes σ project)
                   = deref σ (project_scenes σ project))
    by (by apply deref_same).
  rewrite Hderef.
  destruct (compile_project E _ project_id (audio_url project) (world σ2))
    as [w' [url|e]]; cbn [fst snd].
  - split; [done|]. exists new. eexists.
    split.
    + cbn [job_completed write_job emit set_world trace σ2].
      rewrite Ht, <- !app_assoc. cbn [app]. reflexivity.
    + apply Forall_app. split; [by apply job_writes_no_render_call|].
      by repeat constructor.
  - split; [done|]. exists new. eexists.
    split.
    + cbn [job_failed write_job emit set_world trace σ2].
      rewrite Ht, <- !app_assoc. cbn [app]. reflexivity.
    + apply Forall_app. split; [by apply job_writes_no_render_call|].
      by repeat constructor.
Qed.

(** The two scenes of a project, both rendered. *)
Definition rendered_state : State :=
  {| render_jobs := {[ "j" := render_all_job "j" "p" codeless_state ]};
     scenes_db :=
       {[ "a" := CombinerFacts.scene_a; "b" := CombinerFacts.scene_b ]};
     projects_db :=
       {[ "p" := {| scenes := ["a"; "b"]; audio_url := None |} ]};
     world := CombinerFacts.demo_world;
     trace := [] |}.

Lemma rendered_state_scenes sid s :
  scenes_db rendered_state !! sid = Some s ->
  s = CombinerFacts.scene_a \/ s = CombinerFacts.scene_b.
Proof.
  unfold rendered_state. cbn [scenes_db]. intros H.
  apply lookup_insert_Some in H as [[_ <-]|[_ H]]; [by left|].
  apply lookup_singleton_Some in H as [_ <-]. by right.
Qed.

Lemma render_all_skips_rendered_witness :
  scenes_db (fst (process_render_all_and_combine CombinerFacts.demo_env
                    "j" "p" rendered_state))
  = scenes_db rendered_state.
Proof.
  refine (proj1 (render_all_skips_rendered CombinerFacts.demo_env "j" "p"
                   rendered_state (render_all_job "j" "p" codeless_state)
                   {| scenes := ["a"; "b"]; audio_url := None |}
                   eq_refl eq_refl _)).
  intros sid s _ Hs. by destruct (rendered_state_scenes sid s Hs) as [->| ->].
Defined.

Lemma deref_found σ refs :
  Forall (fun ref => is_Some (scenes_db σ !! ref)) refs ->
  length (deref σ refs) = length refs.
Proof.
  induction 1 as [|ref refs [s Hs] _ IH]; [done|].
  rewrite (deref_cons_Some _ _ _ _ Hs). cbn [length]. by rewrite IH.
Qed.

Lemma deref_Forall σ refs (P : Scene -> Prop) :
  (forall ref, ref ∈ refs ->
     exists s, scenes_db σ !! ref = Some s /\ P s) ->
  Forall P (deref σ refs) /\ length (deref σ refs) = length refs.
Proof.
  induction refs as [|ref refs IH]; intros Hall; [by split|].
  destruct (Hall ref) as (s & Hs & HP); [left|].
  rewrite (deref_cons_Some _ _ _ _ Hs).
  destruct IH as [IH1 IH2]; [intros r Hr; apply Hall; by right|].
  split; [by constructor | cbn [length]; by rewrite IH2].
Qed.

(** The render-all task combines the scenes as its loop has left them,
    not as they were when the task started: when the loop has gone
    through, every scene handed to the combiner is completed and has a
    video url, and none of the collected scenes is missing. *)
Theorem render_all_combines_rendered_scenes
    (E : Env) (job_id project_id : string) (σ σL : State) (job : Job)
    (project : Project) :
  render_jobs σ !! job_id = Some job ->
  projects_db σ !! project_id = Some project ->
  let refs := project_scenes σ project in
  render_each E job_id (length refs) 0 refs σ = (σL, Return ()) ->
  exists scenes ending,
    trace (fst (process_render_all_and_combine E job_id project_id σ))
    = trace σL ++ [JobWrite job_id (SetStatus "Combining scenes");
                   JobWrite job_id (SetProgress 85);
                   CompileProjectCall scenes project_id (audio_url project)]
               ++ ending
    /\ scenes = deref σL refs
    /\ length scenes = length refs
    /\ Forall rendered_already scenes.
Proof.
  intros Hjob Hproject refs Hloop.
  unfold process_render_all_and_combine. rewrite Hjob, Hproject. cbv zeta.
  fold refs. rewrite Hloop. rewrite await_compile_project_eq.
  set (σ2 := write_job job_id (SetProgress 85)
               (write_job job_id (SetStatus "Combining scenes") σL)).
  assert (Hderef : deref σ2 refs = deref σL refs) by (by apply deref_same).
  rewrite Hderef.
  destruct (render_each_returns _ _ _ _ _ _ _ Hloop) as (_ & _ & Hrefs).
  destruct (deref_Forall σL refs rendered_already) as [Hall Hlen].
  { intros ref Hin. destruct (Hrefs ref Hin) as (s & Hs & Hn).
    exists s. split; [done|]. by apply needs_render_false_iff. }
  exists (deref σL refs).
  destruct (compile_project E _ project_id (audio_url project) (world σ2))
    as [w' [url|e]]; cbn [fst snd]; eexists;
    (split; [|split; [reflexivity|split; assumption]]).
  - cbn [job_completed write_job emit set_world trace σ2].
    rewrite <- !app_assoc. cbn [app]. reflexivity.
  - cbn [job_failed write_job emit set_world trace σ2].
    rewrite <- !app_assoc. cbn [app]. reflexivity.
Qed.

Lemma render_all_combines_rendered_scenes_witness :
  exists scenes ending,
    trace (fst (process_render_all_and_combine CombinerFacts.demo_env
                  "j" "p" demo_ok_state))
    = trace (fst (render_each CombinerFacts.demo_env "j" 2 0 ["s1"; "s2"]
                    demo_ok_state))
      ++ [JobWrite "j" (SetStatus "Combining scenes");
          JobWrite "j" (SetProgress 85);
          CompileProjectCall scenes "p" None]
      ++ ending
    /\ scenes = deref (fst (render_each CombinerFacts.demo_env "j" 2 0
                              ["s1"; "s2"] demo_ok_state)) ["s1"; "s2"]
    /\ length scenes = 2
    /\ Forall rendered_already scenes.
Proof.
  apply (render_all_combines_rendered_scenes CombinerFacts.demo_env "j" "p"
           demo_ok_state
           (fst (render_each CombinerFacts.demo_env "j" 2 0 ["s1"; "s2"]
                   demo_ok_state))
           (render_all_job "j" "p" demo_ok_state0)
           {| scenes := ["s1"; "s2"]; audio_url := None |}).
  - reflexivity.
  - reflexivity.
  - vm_compute. reflexivity.
Defined.

End JobMore.

(** * Properties of the project, scene and audio routers *)

Module StoreFacts.
Import Py PyStr RenderService Projects SceneRoutes.
Import Scenes (Scene, SceneStatus).

(** ** The dictionaries stay consistent *)

(** What ties [projects_db] and [scenes_db] together: every dictionary
    sits under its own id, a project's [scene_count] is the length of
    its scene list, and that list names, without repetition, scenes that
    are in the registry and belong to the project. *)
Record consistent (P : gmap string ProjectDict) (S : gmap string Scene)
  : Prop := {
  scene_keys : forall sid s, S !! sid = Some s -> Scenes.id s = sid;
  project_keys : forall pid p, P !! pid = Some p -> id (fields p) = pid;
  counted : forall pid p,
      P !! pid = Some p -> scene_count (fields p) = Z.of_nat (length (scenes p));
  listed_once : forall pid p, P !! pid = Some p -> NoDup (scenes p);
  listed_found : forall pid p sid,
      P !! pid = Some p -> sid ∈ scenes p ->
      exists s, S !! sid = Some s /\ Scenes.project_id s = pid;
}.

(** The same without the count of the project [pid], which lags
    behind while scenes are being appended to it. *)
Record linked (pid0 : string) (P : gmap string ProjectDict)
    (S : gmap string Scene) : Prop := {
  l_scene_keys : forall sid s, S !! sid = Some s -> Scenes.id s = sid;
  l_project_keys : forall pid p, P !! pid = Some p -> id (fields p) = pid;
  l_counted : forall pid p,
      pid <> pid0 -> P !! pid = Some p ->
      scene_count (fields p) = Z.of_nat (length (scenes p));
  l_listed_once : forall pid p, P !! pid = Some p -> NoDup (scenes p);
  l_listed_found : forall pid p sid,
      P !! pid = Some p -> sid ∈ scenes p ->
      exists s, S !! sid = Some s /\ Scenes.project_id s = pid;
}.

Lemma consistent_linked pid0 P S : consistent P S -> linked pid0 P S.
Proof. intros [H1 H2 H3 H4 H5]. split; eauto. Qed.

(** A function on scene dictionaries that assigns neither [id] nor
    [project_id]. *)
Definition keeps_ids (f : Scene -> Scene) : Prop :=
  forall s, Scenes.id (f s) = Scenes.id s
            /\ Scenes.project_id (f s) = Scenes.project_id s.

(** A function on project dictionaries that assigns neither [id] nor
    [scenes] nor [scene_count]. *)
Definition keeps_scenes (g : ProjectDict -> ProjectDict) : Prop :=
  forall p, id (fields (g p)) = id (fields p)
            /\ scenes (g p) = scenes p
            /\ scene_count (fields (g p)) = scene_count (fields p).

(** The scenes of [S'] are those of [S] with other values under keys
    that are neither [id] nor [project_id]. *)
Definition ids_kept (S S' : gmap string Scene) : Prop :=
  forall sid,
    match S !! sid, S' !! sid with
    | Some s, Some s' =>
        Scenes.id s' = Scenes.id s
        /\ Scenes.project_id s' = Scenes.project_id s
    | None, None => True
    | _, _ => False
    end.

Lemma ids_kept_refl S : ids_kept S S.
Proof. intros sid. by destruct (S !! sid). Qed.

Lemma ids_kept_alter S S' f sid :
  keeps_ids f -> ids_kept S S' -> ids_kept S (alter f sid S').
Proof.
  intros Hf H k. specialize (H k).
  destruct (decide (sid = k)) as [->|Hne].
  - rewrite lookup_alter_eq. destruct (S !! k), (S' !! k); cbn; try done.
    destruct (Hf s0) as [-> ->]. done.
  - by rewrite lookup_alter_ne.
Qed.

Lemma consistent_ids_kept P S S' :
  consistent P S -> ids_kept S S' -> consistent P S'.
Proof.
  intros [H1 H2 H3 H4 H5] Hk. split; try done.
  - intros sid s' Hs'. specialize (Hk sid). rewrite Hs' in Hk.
    destruct (S !! sid) as [s|] eqn:Hs; [|done].
    destruct Hk as [-> _]. eauto.
  - intros pid p sid Hp Hin. destruct (H5 pid p sid Hp Hin) as (s & Hs & Hpid).
    specialize (Hk sid). rewrite Hs in Hk.
    destruct (S' !! sid) as [s'|]; [|done]. exists s'. split; [done|].
    destruct Hk as [_ ->]. done.
Qed.

Lemma linked_ids_kept pid0 P S S' :
  linked pid0 P S -> ids_kept S S' -> linked pid0 P S'.
Proof.
  intros [H1 H2 H3 H4 H5] Hk. split; try done.
  - intros sid s' Hs'. specialize (Hk sid). rewrite Hs' in Hk.
    destruct (S !! sid) as [s|] eqn:Hs; [|done].
    destruct Hk as [-> _]. eauto.
  - intros pid p sid Hp Hin. destruct (H5 pid p sid Hp Hin) as (s & Hs & Hpid).
    specialize (Hk sid). rewrite Hs in Hk.
    destruct (S' !! sid) as [s'|]; [|done]. exists s'. split; [done|].
    destruct Hk as [_ ->]. done.
Qed.

Lemma consistent_alter_project P S g pid :
  keeps_scenes g -> consistent P S -> consistent (alter g pid P) S.
Proof.
  intros Hg [H1 H2 H3 H4 H5].
  assert (Hlook : forall k p', alter g pid P !! k = Some p' ->
            exists p, P !! k = Some p
                      /\ id (fields p') = id (fields p)
                      /\ scenes p' = scenes p
                      /\ scene_count (fields p') = scene_count (fields p)).
  { intros k p'. destruct (decide (pid = k)) as [->|Hne].
    - rewrite lookup_alter_eq. destruct (P !! k) as [p|]; [|done].
      intros [= <-]. exists p. split; [done|]. apply Hg.
    - rewrite lookup_alter_ne by done. intros Hp. by exists p'. }
  split; try done.
  - intros k p' (p & Hp & -> & _)%Hlook. eauto.
  - intros k p' (p & Hp & _ & -> & ->)%Hlook. eauto.
  - intros k p' (p & Hp & _ & -> & _)%Hlook. eauto.
  - intros k p' sid (p & Hp & _ & -> & _)%Hlook. eauto.
Qed.

Lemma consistent_insert_project P S pid p :
  id (fields p) = pid -> scenes p = [] -> scene_count (fields p) = 0%Z ->
  consistent P S -> consistent (<[pid := p]> P) S.
Proof.
  intros Hid Hsc Hcount [H1 H2 H3 H4 H5].
  split; try done; intros k p'.
  - destruct (decide (pid = k)) as [->|Hne];
      [rewrite lookup_insert_eq; by intros [= <-]
      |rewrite lookup_insert_ne by done; eauto].
  - destruct (decide (pid = k)) as [->|Hne];
      [rewrite lookup_insert_eq; intros [= <-]; by rewrite Hsc, Hcount
      |rewrite lookup_insert_ne by done; eauto].
  - destruct (decide (pid = k)) as [->|Hne];
      [rewrite lookup_insert_eq; intros [= <-]; rewrite Hsc; constructor
      |rewrite lookup_insert_ne by done; eauto].
  - intros sid. destruct (decide (pid = k)) as [->|Hne];
      [rewrite lookup_insert_eq; intros [= <-]; rewrite Hsc;
       by intros ?%elem_of_nil
      |rewrite lookup_insert_ne by done; eauto].
Qed.

Lemma consistent_delete_project P S pid :
  consistent P S -> consistent (delete pid P) S.
Proof.
  intros [H1 H2 H3 H4 H5].
  split; try done; intros k p'; [| | |intros sid];
    intros [_ Hp]%lookup_delete_Some; eauto.
Qed.

(** Appending a scene that is new to the registry. *)
Lemma linked_add_scene pid P S sid new :
  S !! sid = None ->
  Scenes.id new = sid -> Scenes.project_id new = pid ->
  linked pid P S ->
  linked pid (alter (append_scene sid) pid P) (<[sid := new]> S).
Proof.
  intros Hfresh Hid Hpid [H1 H2 H3 H4 H5].
  assert (Hnot : forall k p, P !! k = Some p -> sid ∉ scenes p).
  { intros k p Hp Hin. destruct (H5 k p sid Hp Hin) as (s & Hs & _).
    congruence. }
  assert (Hlook : forall k p', alter (append_scene sid) pid P !! k = Some p' ->
            exists p, P !! k = Some p
                      /\ fields p' = fields p
                      /\ scenes p'
                         = if decide (pid = k) then scenes p ++ [sid]
                           else scenes p).
  { intros k p'. destruct (decide (pid = k)) as [->|Hne].
    - rewrite lookup_alter_eq. destruct (P !! k) as [p|]; [|done].
      intros [= <-]. by exists p.
    - rewrite lookup_alter_ne by done. intros Hp. by exists p'. }
  split.
  - intros k s. destruct (decide (sid = k)) as [->|Hne];
      [rewrite lookup_insert_eq; by intros [= <-]
      |rewrite lookup_insert_ne by done; eauto].
  - intros k p' (p & Hp & -> & _)%Hlook. eauto.
  - intros k p' Hne (p & Hp & -> & ->)%Hlook.
    rewrite decide_False by done. eauto.
  - intros k p' (p & Hp & _ & ->)%Hlook. destruct (decide (pid = k)); [|eauto].
    apply NoDup_app. split; [eauto|]. split; [|apply NoDup_singleton].
    intros x Hx ->%list_elem_of_singleton. by apply (Hnot k p).
  - intros k p' x (p & Hp & _ & ->)%Hlook Hin.
    assert (Hcase : x ∈ scenes p \/ (pid = k /\ x = sid)).
    { destruct (decide (pid = k)); [|by left].
      apply elem_of_app in Hin as [Hin|Hin%list_elem_of_singleton];
        [by left | by right]. }
    destruct Hcase as [Hx|[<- ->]].
    + destruct (H5 k p x Hp Hx) as (s & Hs & Hs').
      exists s. split; [|done]. rewrite lookup_insert_ne; [done|].
      intros <-. congruence.
    + exists new. by rewrite lookup_insert_eq.
Qed.

Lemma linked_count pid P S :
  linked pid P S -> consistent (alter count_scenes pid P) S.
Proof.
  intros [H1 H2 H3 H4 H5].
  assert (Hlook : forall k p', alter count_scenes pid P !! k = Some p' ->
            exists p, P !! k = Some p
                      /\ id (fields p') = id (fields p)
                      /\ scenes p' = scenes p
                      /\ scene_count (fields p')
                         = if decide (pid = k)
                           then Z.of_nat (length (scenes p))
                           else scene_count (fields p)).
  { intros k p'. destruct (decide (pid = k)) as [->|Hne].
    - rewrite lookup_alter_eq. destruct (P !! k) as [p|]; [|done].
      intros [= <-]. by exists p.
    - rewrite lookup_alter_ne by done. intros Hp. by exists p'. }
  split; try done.
  - intros k p' (p & Hp & -> & _)%Hlook. eauto.
  - intros k p' (p & Hp & _ & -> & ->)%Hlook.
    destruct (decide (pid = k)); [done|]. eauto.
  - intros k p' (p & Hp & _ & -> & _)%Hlook. eauto.
  - intros k p' sid (p & Hp & _ & -> & _)%Hlook. eauto.
Qed.

Lemma elem_of_remove x y l :
  NoDup l -> y ∈ remove x l <-> y ∈ l /\ y <> x.
Proof.
  induction l as [|z l IH]; cbn [remove]; intros Hnd.
  - split; [by intros ?%elem_of_nil | by intros [?%elem_of_nil _]].
  - apply NoDup_cons in Hnd as [Hz Hnd].
    destruct (decide (z = x)) as [->|Hne].
    + rewrite bool_decide_eq_true_2 by done. rewrite elem_of_cons.
      split; [|intros [[->|H] Hy]; done].
      intros Hy. split; [by right|]. by intros ->.
    + rewrite bool_decide_eq_false_2 by done. rewrite !elem_of_cons, IH by done.
      split; [intros [->|[? ?]]; eauto | intros [[->|?] ?]; eauto].
Qed.

Lemma NoDup_remove x l : NoDup l -> NoDup (remove x l).
Proof.
  induction l as [|z l IH]; cbn [remove]; intros Hnd; [done|].
  apply NoDup_cons in Hnd as [Hz Hnd].
  destruct (bool_decide (z = x)); [done|].
  apply NoDup_cons. split; [|by apply IH].
  rewrite elem_of_remove by done. by intros [? _].
Qed.

(** Removing a scene from the registry and from the list of its
    project. *)
Lemma consistent_remove_scene P S sid s :
  consistent P S -> S !! sid = Some s ->
  let P' :=
    match P !! Scenes.project_id s with
    | Some project =>
        if bool_decide (sid ∈ scenes project) then
          alter count_scenes (Scenes.project_id s)
            (alter (fun p => set_scenes (remove sid (scenes p)) p)
                   (Scenes.project_id s) P)
        else P
    | None => P
    end in
  consistent P' (delete sid S).
Proof.
  intros [H1 H2 H3 H4 H5] Hs. cbv zeta.
  set (pid := Scenes.project_id s).
  assert (Hothers : forall k p, P !! k = Some p -> sid ∈ scenes p -> k = pid).
  { intros k p Hp Hin. destruct (H5 k p sid Hp Hin) as (s' & Hs' & <-).
    unfold pid. congruence. }
  assert (Hgone : forall P',
            (forall k p', P' !! k = Some p' ->
               exists p, P !! k = Some p
                         /\ id (fields p') = id (fields p)
                         /\ scene_count (fields p')
                            = Z.of_nat (length (scenes p'))
                         /\ NoDup (scenes p')
                         /\ (forall x, x ∈ scenes p' -> x ∈ scenes p /\ x <> sid)) ->
            consistent P' (delete sid S)).
  { intros P' HP'. split.
    - intros k s' [_ Hk]%lookup_delete_Some. eauto.
    - intros k p' (p & Hp & -> & _)%HP'. eauto.
    - intros k p' (p & Hp & _ & ? & _)%HP'. done.
    - intros k p' (p & Hp & _ & _ & ? & _)%HP'. done.
    - intros k p' x (p & Hp & _ & _ & _ & Hin)%HP' Hx.
      destruct (Hin x Hx) as [Hx' Hne].
      destruct (H5 k p x Hp Hx') as (sx & Hsx & Hpid).
      exists sx. split; [|done]. by rewrite lookup_delete_ne. }
  assert (Hplain : (forall p, P !! pid = Some p -> sid ∉ scenes p) ->
                   consistent P (delete sid S)).
  { intros Hno. apply Hgone. intros k p Hp. exists p.
    split; [done|]. split; [done|]. split; [eauto|]. split; [eauto|].
    intros x Hx. split; [done|]. intros ->.
    pose proof (Hothers k p Hp Hx) as ->. by apply (Hno p). }
  destruct (P !! pid) as [project|] eqn:Hproject; [|by apply Hplain].
  destruct (decide (sid ∈ scenes project)) as [Hin|Hin].
  - rewrite bool_decide_eq_true_2 by done. apply Hgone. intros k p'.
    destruct (decide (pid = k)) as [<-|Hne].
    + rewrite !lookup_alter_eq, Hproject. intros [= <-]. exists project.
      split; [done|]. split; [done|]. split; [done|].
      cbn [count_scenes set_scene_count set_scenes scenes fields].
      split; [apply NoDup_remove; eauto|].
      intros x. by rewrite elem_of_remove by eauto.
    + rewrite !lookup_alter_ne by done. intros Hp. exists p'.
      split; [done|]. split; [done|]. split; [eauto|]. split; [eauto|].
      intros x Hx. split; [done|]. intros ->.
      by pose proof (Hothers k p' Hp Hx).
  - rewrite bool_decide_eq_false_2 by done. apply Hplain.
    by intros p [= <-].
Qed.

Lemma ids_kept_trans S1 S2 S3 :
  ids_kept S1 S2 -> ids_kept S2 S3 -> ids_kept S1 S3.
Proof.
  intros H12 H23 sid. specialize (H12 sid). specialize (H23 sid).
  destruct (S1 !! sid), (S2 !! sid), (S3 !! sid); try done.
  destruct H12 as [<- <-]. done.
Qed.

(** A store whose dictionaries are consistent. *)
Definition store_ok (st : Store) : Prop :=
  consistent (projects_db st) (scenes_db st).

(** Solves [ids_kept S (alter f1 k1 (alter f2 k2 ... S))] for setters
    that keep the ids. *)
Ltac ids_kept_chain :=
  repeat (apply ids_kept_alter; [by intros ?|]); apply ids_kept_refl.

Ltac keeps_scenes_chain :=
  repeat (apply consistent_alter_project; [by intros ?|]).

Lemma create_project_ok name description project_id st :
  store_ok st ->
  store_ok (fst (create_project name description project_id st)).
Proof. intros H. by apply consistent_insert_project. Qed.

Lemma update_project_ok project_id name description st :
  store_ok st ->
  store_ok (fst (update_project project_id name description st)).
Proof.
  intros H. unfold update_project.
  destruct (projects_db st !! project_id); [|done].
  destruct name, description; cbn; unfold store_ok; cbn;
    by keeps_scenes_chain.
Qed.

Lemma delete_project_ok project_id st :
  store_ok st -> store_ok (fst (delete_project project_id st)).
Proof.
  intros H. unfold delete_project.
  destruct (projects_db st !! project_id); [|done].
  by apply consistent_delete_project.
Qed.

Lemma generate_into_kept G scene_id prompt f st :
  keeps_ids f ->
  projects_db (generate_into G scene_id prompt f st) = projects_db st
  /\ ids_kept (scenes_db st) (scenes_db (generate_into G scene_id prompt f st)).
Proof.
  intros Hf. unfold generate_into.
  destruct (G prompt (world st)) as [w [generated_code|e]]; cbn;
    (split; [done|]).
  - apply ids_kept_alter; [by intros ?|]. apply ids_kept_alter; [done|].
    ids_kept_chain.
  - ids_kept_chain.
Qed.

Lemma create_scene_ok G project_id prompt scene_id st :
  store_ok st -> scenes_db st !! scene_id = None ->
  store_ok (fst (create_scene G project_id prompt scene_id st)).
Proof.
  intros H Hfresh. unfold create_scene.
  destruct (projects_db st !! project_id) as [project|]; [|done].
  cbv zeta. cbn [fst].
  match goal with
  | |- store_ok (generate_into _ _ _ _ ?st1) =>
      destruct (generate_into_kept G scene_id prompt
                  (Scenes.set_status Scenes.pending) st1) as [HP HS];
        [by intros ?|]; unfold store_ok; rewrite HP;
        apply (consistent_ids_kept _ (scenes_db st1)); [|exact HS]
  end.
  cbn [write_project set_projects_db set_scenes_db projects_db scenes_db].
  apply linked_count. apply linked_add_scene; try done.
  by apply consistent_linked.
Qed.

Lemma update_scene_ok scene_id prompt code order_index st :
  store_ok st ->
  store_ok (fst (update_scene scene_id prompt code order_index st)).
Proof.
  intros H. unfold update_scene.
  destruct (scenes_db st !! scene_id); [|done].
  destruct prompt, code, order_index; cbn; unfold store_ok; cbn;
    (eapply consistent_ids_kept; [exact H|]); ids_kept_chain.
Qed.

Lemma delete_scene_ok scene_id st :
  store_ok st -> store_ok (fst (delete_scene scene_id st)).
Proof.
  intros H. unfold delete_scene.
  destruct (scenes_db st !! scene_id) as [scene|] eqn:Hscene; [|done].
  cbv zeta. cbn [fst].
  pose proof (consistent_remove_scene _ _ _ _ H Hscene) as H'.
  cbv zeta in H'. unfold store_ok.
  destruct (projects_db st !! Scenes.project_id scene) as [project|];
    [|exact H'].
  destruct (bool_decide (scene_id ∈ scenes project)); exact H'.
Qed.

Lemma regenerate_scene_ok G scene_id new_prompt st :
  store_ok st ->
  store_ok (fst (regenerate_scene G scene_id new_prompt st)).
Proof.
  intros H. unfold regenerate_scene.
  destruct (scenes_db st !! scene_id) as [scene|]; [|done].
  cbv zeta. cbn [fst].
  match goal with
  | |- store_ok (generate_into _ _ ?pr ?f ?st1) =>
      destruct (generate_into_kept G scene_id pr f st1) as [HP HS];
        [by intros ?|]; unfold store_ok; rewrite HP;
        apply (consistent_ids_kept _ (scenes_db st1)); [|exact HS]
  end.
  cbn. eapply consistent_ids_kept; [exact H|]. ids_kept_chain.
Qed.

Lemma create_each_linked project_id now uuid4 scene_data :
  forall i created_scenes st,
    linked project_id (projects_db st) (scenes_db st) ->
    (forall k, k < length scene_data ->
       scenes_db st !! uuid4 (i + k) = None
       /\ forall j, j < k -> uuid4 (i + j) <> uuid4 (i + k)) ->
    let st' := fst (create_each project_id now uuid4 i scene_data
                      created_scenes st) in
    linked project_id (projects_db st') (scenes_db st').
Proof.
  induction scene_data as [|[scene_prompt scene_code] rest IH];
    intros i created_scenes st Hl Hfresh; [done|].
  cbv zeta. cbn [create_each]. cbv zeta. apply IH.
  - cbn [write_project set_projects_db set_scenes_db projects_db scenes_db].
    apply linked_add_scene; try done.
    destruct (Hfresh 0) as [H0 _]; [cbn; lia|]. by rewrite Nat.add_0_r in H0.
  - intros k Hk. cbn [write_project set_projects_db set_scenes_db scenes_db].
    destruct (Hfresh (S k)) as [Hnone Hdiff]; [cbn; lia|].
    replace (i + S k) with (S i + k) in * by lia. split.
    + rewrite lookup_insert_ne; [done|].
      specialize (Hdiff 0 ltac:(lia)). by rewrite Nat.add_0_r in Hdiff.
    + intros j Hj. specialize (Hdiff (S j) ltac:(lia)).
      by replace (i + S j) with (S i + j) in Hdiff by lia.
Qed.

Lemma create_multi_scenes_ok M project_id prompt num_scenes uuid4 st :
  store_ok st ->
  (forall i, i < length (M prompt num_scenes) ->
     scenes_db st !! uuid4 i = None
     /\ forall j, j < i -> uuid4 j <> uuid4 i) ->
  store_ok (fst (create_multi_scenes M project_id prompt num_scenes uuid4 st)).
Proof.
  intros H Hfresh. unfold create_multi_scenes.
  destruct (projects_db st !! project_id) as [project|]; [|done].
  cbv zeta.
  pose proof (create_each_linked project_id (utcnow st) uuid4
                (M prompt num_scenes) 0 [] st
                (consistent_linked _ _ _ H) Hfresh) as Hl.
  cbv zeta in Hl.
  destruct (create_each project_id (utcnow st) uuid4 0 (M prompt num_scenes)
              [] st) as [st' created_scenes].
  cbn [fst] in *. by apply linked_count.
Qed.

Lemma upload_audio_ok E project_id content_type file_filename audio_id st :
  store_ok st ->
  store_ok (fst (Audio.upload_audio E project_id content_type file_filename
                   audio_id st)).
Proof.
  intros H. unfold Audio.upload_audio.
  destruct (projects_db st !! project_id); [|done].
  destruct (negb _); [done|]. cbn. unfold store_ok. cbn.
  by keeps_scenes_chain.
Qed.

Lemma delete_audio_ok E project_id st :
  store_ok st -> store_ok (fst (Audio.delete_audio E project_id st)).
Proof.
  intros H. unfold Audio.delete_audio.
  destruct (projects_db st !! project_id) as [project|]; [|done].
  cbv zeta. cbn [fst]. unfold store_ok.
  cbn [write_project set_projects_db projects_db scenes_db].
  apply consistent_alter_project; [by intros ?|].
  apply consistent_alter_project; [by intros ?|].
  destruct (audio_url (fields project)) as [url|]; [|done].
  destruct (truthy url); [|done]. by destruct (path_exists _ _).
Qed.

(** The tasks and endpoints of [render.py] assign to scenes but to
    neither [id] nor [project_id], and they add and remove no scene. *)
Lemma write_job_kept job_id wr σ S :
  ids_kept S (Render.scenes_db σ) ->
  ids_kept S (Render.scenes_db (Render.write_job job_id wr σ)).
Proof. done. Qed.

Lemma emit_kept e σ S :
  ids_kept S (Render.scenes_db σ) ->
  ids_kept S (Render.scenes_db (Render.emit e σ)).
Proof. done. Qed.

Lemma set_world_kept w σ S :
  ids_kept S (Render.scenes_db σ) ->
  ids_kept S (Render.scenes_db (Render.set_world w σ)).
Proof. done. Qed.

Lemma write_scene_kept ref f σ S :
  keeps_ids f ->
  ids_kept S (Render.scenes_db σ) ->
  ids_kept S (Render.scenes_db (Render.write_scene ref f σ)).
Proof. intros Hf H. by apply ids_kept_alter. Qed.

Lemma job_completed_kept job_id url σ S :
  ids_kept S (Render.scenes_db σ) ->
  ids_kept S (Render.scenes_db (Render.job_completed job_id url σ)).
Proof. done. Qed.

Lemma job_failed_kept job_id e σ S :
  ids_kept S (Render.scenes_db σ) ->
  ids_kept S (Render.scenes_db (Render.job_failed job_id e σ)).
Proof. done. Qed.

Lemma store_render_result_kept ref result σ S :
  ids_kept S (Render.scenes_db σ) ->
  ids_kept S (Render.scenes_db (Render.store_render_result ref result σ)).
Proof.
  intros H. unfold Render.store_render_result. cbv zeta.
  by repeat (apply write_scene_kept; [by intros ?|]).
Qed.

(** Goes through the assignments a task has made, outermost first, and
    checks that each keeps the ids. *)
Ltac scenes_kept :=
  cbn [fst];
  repeat lazymatch goal with
  | |- ids_kept _ (Render.scenes_db (Render.store_render_result _ _ _)) =>
      apply store_render_result_kept
  | |- ids_kept _ (Render.scenes_db (Render.job_completed _ _ _)) =>
      apply job_completed_kept
  | |- ids_kept _ (Render.scenes_db (Render.job_failed _ _ _)) =>
      apply job_failed_kept
  | |- ids_kept _ (Render.scenes_db (Render.write_job _ _ _)) =>
      apply write_job_kept
  | |- ids_kept _ (Render.scenes_db (Render.set_world _ _)) =>
      apply set_world_kept
  | |- ids_kept _ (Render.scenes_db (Render.emit _ _)) =>
      apply emit_kept
  | |- ids_kept _ (Render.scenes_db (Render.write_scene _ _ _)) =>
      apply write_scene_kept; [by intros ?|]
  end.

Lemma render_each_kept E job_id total_scenes refs :
  forall i σ S,
    ids_kept S (Render.scenes_db σ) ->
    ids_kept S
      (Render.scenes_db (fst (Render.render_each E job_id total_scenes i
                                refs σ))).
Proof.
  induction refs as [|ref rest IH]; intros i σ S HS; [exact HS|].
  destruct (Render.scenes_db σ !! ref) as [scene|] eqn:Hscene.
  2:{ cbn [Render.render_each]. rewrite Hscene. exact HS. }
  rewrite (RenderFacts.render_each_cons _ _ _ _ _ _ _ scene Hscene).
  cbv zeta. unfold RenderFacts.announce.
  destruct (RenderFacts.needs_render scene).
  - destruct (snd (render_scene E _ _ _)) as [result|e].
    + apply IH. scenes_kept. exact HS.
    + scenes_kept. exact HS.
  - apply IH. scenes_kept. exact HS.
Qed.

Lemma run_task_kept E task σ :
  ids_kept (Render.scenes_db σ)
    (Render.scenes_db (fst (Render.run_task E task σ))).
Proof.
  pose proof (ids_kept_refl (Render.scenes_db σ)) as HS.
  destruct task as [job_id scene_id|job_id project_id|job_id project_id];
    cbn [Render.run_task].
  - unfold Render.process_render.
    destruct (Render.render_jobs σ !! job_id); [|exact HS].
    destruct (Render.scenes_db σ !! scene_id); [|exact HS].
    rewrite RenderFacts.await_render_scene_eq.
    destruct (snd (render_scene E _ _ _)) as [result|e]; scenes_kept;
      exact HS.
  - unfold Render.process_export.
    destruct (Render.render_jobs σ !! job_id); [|exact HS].
    destruct (Render.projects_db σ !! project_id); [|exact HS].
    cbv zeta. rewrite RenderFacts.await_compile_project_eq.
    destruct (snd (compile_project E _ _ _ _)); scenes_kept; exact HS.
  - unfold Render.process_render_all_and_combine.
    destruct (Render.render_jobs σ !! job_id); [|exact HS].
    destruct (Render.projects_db σ !! project_id) as [project|];
      [|exact HS].
    cbv zeta.
    pose proof (render_each_kept E job_id
                  (length (Render.project_scenes σ project))
                  (Render.project_scenes σ project) 0 σ _ HS) as Hk.
    destruct (Render.render_each E job_id _ 0 _ σ) as [σL [[]|e]];
      cbn [fst] in Hk.
    + rewrite RenderFacts.await_compile_project_eq.
      destruct (snd (compile_project E _ _ _ _)); scenes_kept; exact Hk.
    + scenes_kept. exact Hk.
Qed.

Lemma submit_kept r job_id σ :
  Render.scenes_db (fst (RenderFacts.submit r job_id σ)) = Render.scenes_db σ.
Proof.
  destruct r as [scene_id|project_id|project_id]; cbn [RenderFacts.submit].
  - unfold Render.render_single_scene.
    destruct (Render.scenes_db σ !! scene_id); [|done]. by destruct (negb _).
  - unfold Render.export_project.
    destruct (Render.projects_db σ !! project_id) as [project|]; [|done].
    destruct (Render.scenes project); [done|].
    by destruct (Render.first_not_rendered _ _).
  - unfold Render.render_all_and_combine.
    destruct (Render.projects_db σ !! project_id) as [project|]; [|done].
    destruct (Render.scenes project); [done|].
    by destruct (Render.first_without_code _ _).
Qed.

Definition state_ok (a : App.State) : Prop := store_ok (App.store a).

(** Every action that draws fresh identifiers keeps the dictionaries
    consistent. *)
Lemma step_ok S act a :
  state_ok a -> App.fresh S act a -> state_ok (App.step S act a).
Proof.
  intros H Hfresh. unfold state_ok in *.
  destruct act; cbn [App.step App.with_store App.store App.fresh] in *.
  - by apply create_project_ok.
  - by apply update_project_ok.
  - by apply delete_project_ok.
  - by apply create_scene_ok.
  - by apply update_scene_ok.
  - by apply delete_scene_ok.
  - by apply regenerate_scene_ok.
  - by apply create_multi_scenes_ok.
  - by apply upload_audio_ok.
  - by apply delete_audio_ok.
  - unfold store_ok. cbn [App.after_render App.store projects_db scenes_db].
    pose proof (submit_kept (RenderFacts.RenderSingleScene scene_id) job_id
                  (App.render_state a)) as Hs.
    cbn [RenderFacts.submit] in Hs. by rewrite Hs.
  - unfold store_ok. cbn [App.after_render App.store projects_db scenes_db].
    pose proof (submit_kept (RenderFacts.ExportProject project_id) job_id
                  (App.render_state a)) as Hs.
    cbn [RenderFacts.submit] in Hs. by rewrite Hs.
  - unfold store_ok. cbn [App.after_render App.store projects_db scenes_db].
    pose proof (submit_kept (RenderFacts.RenderAllAndCombine project_id) job_id
                  (App.render_state a)) as Hs.
    cbn [RenderFacts.submit] in Hs. by rewrite Hs.
  - unfold store_ok. cbn [App.after_render App.store projects_db scenes_db].
    eapply consistent_ids_kept; [exact H|].
    apply (run_task_kept (App.env S) task (App.render_state a)).
Qed.

(** Services for the examples: the programs of the combiner examples, a
    generator that always answers with the same code, and a batch of
    two scenes. *)
Definition demo_services : App.Services :=
  {| App.env := CombinerFacts.demo_env;
     App.generate_manim_code _ w := (tick w, Return "from manim import *");
     App.get_multi_scene_codes _ _ :=
       [("Introduction", "intro code"); ("Summary", "summary code")] |}.

(** One project with one scene, after the scene has been created. *)
Definition demo_app : App.State :=
  App.step demo_services (App.CreateScene "p" "a circle" "s1")
    (App.step demo_services (App.CreateProject "demo" None "p") App.start).

Lemma demo_app_reachable : App.reachable demo_services demo_app.
Proof.
  apply App.reachable_step; [apply App.reachable_step|].
  - apply App.reachable_start.
  - exact I.
  - reflexivity.
Defined.

Lemma reachable_store_ok (S : App.Services) (a : App.State) :
  App.reachable S a -> state_ok a.
Proof.
  induction 1 as [|act a Ha IH Hfresh].
  - unfold state_ok, store_ok, App.start.
    cbn [App.store projects_db scenes_db].
    split; intros *; by rewrite lookup_empty.
  - by apply (step_ok S act a).
Qed.

(** In every state the application can reach when [uuid4] never
    repeats an identifier, the dictionaries are consistent: each
    project and scene sits under its own id, [scene_count] is the
    length of the project's scene list, and that list names, without
    repetition, scenes that are in the registry and carry the project's
    id.  In particular no listed scene is missing from the registry. *)
Theorem reachable_consistent (S : App.Services) (a : App.State) :
  App.reachable S a ->
  consistent (projects_db (App.store a)) (scenes_db (App.store a)).
Proof. apply reachable_store_ok. Qed.

Lemma reachable_consistent_witness :
  consistent (projects_db (App.store demo_app))
             (scenes_db (App.store demo_app)).
Proof. apply (reachable_consistent demo_services), demo_app_reachable. Defined.

(** In every such state the scene references of the projects resolve:
    what [render.py] reads of a project lists only scenes that are in
    the registry, so that the check [sid in scenes_db] of the export and
    render-all endpoints never skips a reference. *)
Theorem reachable_references_resolve (S : App.Services) (a : App.State) :
  App.reachable S a ->
  RenderFacts.references_resolve (App.render_state a).
Proof.
  intros Hok%reachable_store_ok project_id project sid Hproject Hin.
  unfold state_ok, store_ok in Hok.
  cbn [App.render_state Render.projects_db Render.scenes_db] in *.
  rewrite lookup_fmap in Hproject.
  destruct (projects_db (App.store a) !! project_id) as [p|] eqn:Hp; [|done].
  injection Hproject as <-. cbn [App.project_view Render.scenes] in Hin.
  destruct (listed_found _ _ Hok project_id p sid Hp Hin) as (s & Hs & _).
  by exists s.
Qed.

Lemma reachable_references_resolve_witness :
  RenderFacts.references_resolve (App.render_state demo_app).
Proof.
  apply (reachable_references_resolve demo_services), demo_app_reachable.
Defined.

End StoreFacts.

(** * Properties of the LLM service *)

Module LLMFacts.
Import Py PyStr RenderService LLM.

(** The code [c] has come out of a response of the API and has passed
    the validator. *)
Definition validated_response (C : Client) (c : string) : Prop :=
  (exists w0 messages generated_text,
      post C w0 messages = Content generated_text
      /\ c = extract_code C generated_text)
  /\ exists message,
      Validator.validate_manim_code (validator C) c = Return (true, message).

(** The loop makes at most one request per attempt that is left, changes
    no file, and returns only a code that has been validated. *)
Lemma attempt_loop_spec C max_retries attempts :
  forall messages last_error w w' r,
    attempt_loop C max_retries attempts messages last_error w = (w', r) ->
    files w' = files w
    /\ clock w <= clock w' <= clock w + length attempts
    /\ forall c, r = Return c -> validated_response C c.
Proof.
  induction attempts as [|attempt rest IH];
    intros messages last_error w w' r Hrun.
  - cbn [attempt_loop] in Hrun. injection Hrun as <- <-.
    split; [done|]. split; [cbn [length]; lia|]. intros c [=].
  - cbn [attempt_loop] in Hrun. cbv zeta in Hrun.
    assert (Hnext : forall messages' last_error',
               attempt_loop C max_retries rest messages' last_error' (tick w)
               = (w', r) ->
               files w' = files w
               /\ clock w <= clock w' <= clock w + length (attempt :: rest)
               /\ forall c, r = Return c -> validated_response C c).
    { intros messages' last_error' (Hf & Hc & Hr)%IH.
      cbn [tick files clock length] in *. split; [done|]. split; [lia|done]. }
    assert (Hraise : forall e,
               (tick w, @Raise string e) = (w', r) ->
               files w' = files w
               /\ clock w <= clock w' <= clock w + length (attempt :: rest)
               /\ forall c, r = Return c -> validated_response C c).
    { intros e [= <- <-]. cbn [tick files clock length].
      split; [done|]. split; [lia|]. intros c [=]. }
    destruct (post C w messages) as [|e|error|generated_text] eqn:Hpost.
    + destruct (Z.of_nat attempt =? max_retries)%Z; eauto.
    + destruct (Z.of_nat attempt =? max_retries)%Z; eauto.
    + destruct (Z.of_nat attempt =? max_retries)%Z; eauto.
    + destruct (Validator.validate_manim_code (validator C)
                  (extract_code C generated_text))
        as [[[] error_message]|e] eqn:Hvalid.
      * injection Hrun as <- <-. cbn [tick files clock length].
        split; [done|]. split; [lia|]. intros c [= <-].
        split; [by exists w, messages, generated_text | by eexists].
      * destruct (Z.of_nat attempt <? max_retries)%Z; eauto.
      * destruct (Z.of_nat attempt =? max_retries)%Z; eauto.
Qed.

(** Outside mock mode, a code that [generate_manim_code] returns is
    what [extract_code] made of a response of the API, and
    [validate_manim_code] has accepted it.  In mock mode the code is a
    mock template, returned without a request and without validation. *)
Theorem generated_code_is_validated
    (T : Texts) (C : Client) (prompt : string) (max_retries : Z)
    (w w' : World) (c : string) :
  generate_manim_code T C prompt max_retries w = (w', Return c) ->
  if mock_mode (openrouter_api_key C)
  then c = get_mock_code T prompt /\ w' = w
  else validated_response C c.
Proof.
  unfold generate_manim_code.
  destruct (mock_mode (openrouter_api_key C)); [by intros [= <- <-]|].
  intros (_ & _ & Hr)%attempt_loop_spec. by apply Hr.
Qed.

(** A client with a key, whose API answers every request with a scene. *)
Definition demo_client : Client :=
  {| openrouter_api_key := "sk-or-v1-0";
     post _ _ := Content "from manim import *";
     re_findall _ _ := [];
     validator := ValidatorFacts.demo_lib;
     str_title s := s |}.

Definition demo_texts : Texts :=
  {| MOCK_CODE_TEMPLATES key := key;
     SYSTEM_PROMPT := "You write Manim code.";
     FEW_SHOT_EXAMPLES := [];
     generate_scene_code_for_part title _ _ _ := title |}.

Lemma generated_code_is_validated_witness :
  validated_response demo_client "from manim import *".
Proof.
  apply (generated_code_is_validated demo_texts demo_client "a circle" 2
           {| files := ∅; clock := 0 |} {| files := ∅; clock := 1 |}).
  vm_compute. reflexivity.
Defined.

(** [generate_manim_code] makes at most [max_retries + 1] requests (none
    for a negative [max_retries], none in mock mode), each advancing the
    clock by one, and it changes no file. *)
Theorem generate_requests_bounded
    (T : Texts) (C : Client) (prompt : string) (max_retries : Z) (w : World) :
  let w' := fst (generate_manim_code T C prompt max_retries w) in
  files w' = files w
  /\ clock w <= clock w' <= clock w + Z.to_nat (max_retries + 1)
  /\ (mock_mode (openrouter_api_key C) = true -> w' = w).
Proof.
  cbv zeta. unfold generate_manim_code.
  destruct (mock_mode (openrouter_api_key C)).
  - cbn [fst]. split; [done|]. split; [lia|done].
  - destruct (attempt_loop C max_retries _ _ None w) as [w' r] eqn:Hrun.
    apply attempt_loop_spec in Hrun as (Hf & Hc & _).
    rewrite length_seq in Hc. cbn [fst]. split; [done|]. split; [lia|done].
Qed.

Lemma split_topic_length C prompt :
  length (split_topic_into_scenes C prompt) = 5.
Proof.
  unfold split_topic_into_scenes. cbv zeta.
  repeat match goal with
         | |- context [if ?b then _ else _] => destruct b; [reflexivity|]
         end.
  reflexivity.
Qed.

(** [get_multi_scene_codes] gives one code for each of the first
    [num_scenes] parts of the topic, which has five parts: never more
    than five scenes, and for a negative [num_scenes] the parts but the
    last [- num_scenes]. *)
Theorem multi_scene_count
    (T : Texts) (C : Client) (prompt : string) (num_scenes : Z) :
  length (get_multi_scene_codes T C prompt num_scenes)
  = (if (num_scenes <? 0)%Z then Z.to_nat (5 + num_scenes)
     else Nat.min (Z.to_nat num_scenes) 5)
  /\ map fst (get_multi_scene_codes T C prompt num_scenes)
     = map fst (slice_to num_scenes (split_topic_into_scenes C prompt)).
Proof.
  unfold get_multi_scene_codes. cbv zeta.
  assert (Hcodes : forall total parts i,
             length (scene_codes T total i parts) = length parts
             /\ map fst (scene_codes T total i parts) = map fst parts).
  { intros total parts. induction parts as [|[title description] parts IH];
      intros i; [done|].
    cbn [scene_codes length map fst]. destruct (IH (S i)) as [-> ->]. done. }
  split; [|apply Hcodes].
  rewrite (proj1 (Hcodes _ _ _)). unfold slice_to.
  rewrite split_topic_length.
  destruct (num_scenes <? 0)%Z eqn:Hneg; rewrite length_take,
    split_topic_length; [|done].
  apply Z.ltb_lt in Hneg. change (Z.of_nat 5) with 5%Z. lia.
Qed.

End LLMFacts.

(** * Further properties of the scene and audio routers *)

Module RouteFacts.
Import Py PyStr RenderService Projects SceneRoutes.
Import Scenes (Scene, SceneStatus).

(** ** A batch of scenes *)

Lemma scenes_len_append project_id scene_id m st p :
  projects_db st !! project_id = Some p ->
  scenes_len project_id
    (write_project project_id (append_scene scene_id)
       (set_scenes_db m st))
  = S (scenes_len project_id st).
Proof.
  intros Hp. unfold scenes_len, write_project.
  cbn [set_projects_db set_scenes_db projects_db].
  rewrite lookup_alter_eq, Hp. cbn [fmap option_fmap option_map append_scene
    set_scenes scenes]. rewrite length_app. cbn [length]. lia.
Qed.

(** The scenes that the loop of [create_multi_scenes] creates from index
    [i] on: the [k]-th of them gets the [k]-th identifier and, as the
    list of the project has grown by one with each scene before it, the
    order index [len + i + 2 k] for the length [len] the list had when
    the loop was at index [i]. *)
Lemma create_each_indices project_id now uuid4 scene_data :
  forall i created_scenes st,
    is_Some (projects_db st !! project_id) ->
    let out := snd (create_each project_id now uuid4 i scene_data
                      created_scenes st) in
    exists new,
      out = created_scenes ++ new
      /\ map Scenes.id new = map uuid4 (seq i (length scene_data))
      /\ map Scenes.order_index new
         = map (fun k => Z.of_nat (scenes_len project_id st + i + 2 * k))
             (seq 0 (length scene_data))
      /\ map Scenes.prompt new = map fst scene_data
      /\ map Scenes.code new = map (fun d => Some (snd d)) scene_data
      /\ Forall (fun s => Scenes.status s = Scenes.pending
                          /\ Scenes.project_id s = project_id) new.
Proof.
  induction scene_data as [|[scene_prompt scene_code] rest IH];
    intros i created_scenes st [p Hp]; cbv zeta.
  - exists []. cbn [create_each snd]. by rewrite app_nil_r.
  - cbn [create_each]. cbv zeta.
    match goal with
    | |- context [create_each _ _ _ (S i) rest (created_scenes ++ [?s]) ?st1] =>
        set (st' := st1); set (new_scene := s)
    end.
    assert (Hlen : scenes_len project_id st' = S (scenes_len project_id st))
      by by apply (scenes_len_append _ _ _ _ p).
    destruct (IH (S i) (created_scenes ++ [new_scene]) st')
      as (new & Hout & Hids & Hindex & Hprompts & Hcodes & Hall).
    { unfold st', write_project.
      cbn [set_projects_db set_scenes_db projects_db].
      rewrite lookup_alter_eq, Hp. by eexists. }
    cbv zeta in Hout. exists (new_scene :: new).
    split; [by rewrite Hout, <- app_assoc|].
    cbn [map length seq fst snd]. rewrite Hids, Hindex, Hprompts, Hcodes, Hlen.
    split; [done|]. split; [|split; [done|split; [done|by constructor]]].
    cbn [Scenes.order_index new_scene]. f_equal; [f_equal; lia|].
    rewrite <- seq_shift, map_map. apply map_ext. intros k. f_equal. lia.
Qed.

Section WithLLM.
Variable get_multi_scene_codes : string -> Z -> list (string * string).

(** [create_multi_scenes] on a project that exists answers with the
    scenes it has created, one for each pair that
    [get_multi_scene_codes] gives, in that order and with that prompt
    and code, all pending.  It computes the order index of the scene at
    index [k] of the batch as the length of the project's list at that
    moment plus [k]; as the list has then already gained the [k] scenes
    before it, the order indexes of the batch are [len], [len + 2],
    [len + 4], ... for the length [len] of the list before the request:
    they increase, so the batch keeps its order, but they leave
    gaps. *)
Theorem create_multi_scenes_order
    (project_id prompt : string) (num_scenes : Z) (uuid4 : nat -> string)
    (st : Store) (p : ProjectDict) :
  projects_db st !! project_id = Some p ->
  let scene_data := get_multi_scene_codes prompt num_scenes in
  exists created message,
    snd (create_multi_scenes get_multi_scene_codes project_id prompt
           num_scenes uuid4 st)
    = Returns {| success := true; data := Some created;
                 message := Some message |}
    /\ map Scenes.id created = map uuid4 (seq 0 (length scene_data))
    /\ map Scenes.order_index created
       = map (fun k => Z.of_nat (length (scenes p) + 2 * k))
           (seq 0 (length scene_data))
    /\ map Scenes.prompt created = map fst scene_data
    /\ map Scenes.code created = map (fun d => Some (snd d)) scene_data
    /\ Forall (fun s => Scenes.status s = Scenes.pending
                        /\ Scenes.project_id s = project_id) created.
Proof.
  intros Hp scene_data. unfold create_multi_scenes. rewrite Hp. cbv zeta.
  fold scene_data.
  destruct (create_each_indices project_id (utcnow st) uuid4 scene_data 0 []
              st) as (new & Hout & Hids & Hindex & Hrest); [by eexists|].
  cbv zeta in Hout.
  destruct (create_each project_id (utcnow st) uuid4 0 scene_data [] st)
    as [st' created]. cbn [snd] in *. subst created. cbn [app].
  eexists new, _. split; [reflexivity|]. split; [done|]. split; [|done].
  rewrite Hindex. unfold scenes_len. rewrite Hp. apply map_ext.
  intros k. f_equal. lia.
Qed.

End WithLLM.

(** A project with one scene, for the examples. *)
Definition demo_store : Store :=
  {| projects_db :=
       {[ "p" := {| fields := {| id := "p"; name := "demo";
                                 description := None; created_at := 0;
                                 updated_at := 0; scene_count := 1;
                                 audio_url := None |};
                    scenes := ["s0"] |} ]};
     scenes_db :=
       {[ "s0" := CombinerFacts.demo_scene "s0" 0 "ok" Scenes.completed
                    (Some "/outputs/s0.mp4") ]};
     world := {| files := ∅; clock := 0 |} |}.

Lemma create_multi_scenes_order_witness :
  exists created message,
    snd (create_multi_scenes
           (fun _ _ => [("Introduction", "code 1"); ("Summary", "code 2")])
           "p" "sorting" 2 (fun i => nth i ["new0"; "new1"] "new") demo_store)
    = Returns {| success := true; data := Some created;
                 message := Some message |}
    /\ map Scenes.id created = ["new0"; "new1"]
    /\ map Scenes.order_index created = [1; 3]%Z
    /\ map Scenes.prompt created = ["Introduction"; "Summary"]
    /\ map Scenes.code created = [Some "code 1"; Some "code 2"]
    /\ Forall (fun s => Scenes.status s = Scenes.pending
                        /\ Scenes.project_id s = "p") created.
Proof.
  apply (create_multi_scenes_order
           (fun _ _ => [("Introduction", "code 1"); ("Summary", "code 2")])
           "p" "sorting" 2 (fun i => nth i ["new0"; "new1"] "new") demo_store
           {| fields := {| id := "p"; name := "demo"; description := None;
                           created_at := 0; updated_at := 0;
                           scene_count := 1; audio_url := None |};
              scenes := ["s0"] |}).
  reflexivity.
Defined.

(** ** Editing a scene *)

(** [update_scene] assigns the prompt, the code and the order index
    that the request gives and nothing else but [updated_at]: a scene
    that was completed stays completed and keeps its video when its code
    is replaced, so that the render-all task passes over it and the
    export combines the video of the old code. *)
Theorem update_scene_keeps_render
    (scene_id : string) (prompt code : option string)
    (order_index : option Z) (st : Store) (s : Scene) :
  scenes_db st !! scene_id = Some s ->
  exists s',
    scenes_db (fst (update_scene scene_id prompt code order_index st))
      !! scene_id = Some s'
    /\ snd (update_scene scene_id prompt code order_index st)
       = Returns {| success := true; data := Some s';
                    message := Some "Scene updated successfully" |}
    /\ Scenes.prompt s' = default (Scenes.prompt s) prompt
    /\ Scenes.code s' = match code with
                        | Some v => Some v
                        | None => Scenes.code s
                        end
    /\ Scenes.order_index s' = default (Scenes.order_index s) order_index
    /\ Scenes.status s' = Scenes.status s
    /\ Scenes.video_url s' = Scenes.video_url s
    /\ Scenes.thumbnail_url s' = Scenes.thumbnail_url s
    /\ RenderFacts.needs_render s' = RenderFacts.needs_render s.
Proof.
  intros Hs. unfold update_scene. rewrite Hs. cbv zeta. cbn [fst snd].
  destruct prompt as [v1|], code as [v2|], order_index as [v3|];
    unfold write_scene; cbn [set_scenes_db scenes_db];
    rewrite !lookup_alter_eq, Hs; eexists; (split; [reflexivity|]);
    (split; [reflexivity|]); done.
Qed.

Lemma update_scene_keeps_render_witness :
  exists s',
    scenes_db (fst (update_scene "s0" None (Some "new code") None demo_store))
      !! "s0" = Some s'
    /\ Scenes.code s' = Some "new code"
    /\ Scenes.status s' = Scenes.completed
    /\ Scenes.video_url s' = Some "/outputs/s0.mp4"
    /\ RenderFacts.needs_render s' = false.
Proof.
  destruct (update_scene_keeps_render "s0" None (Some "new code") None
              demo_store
              (CombinerFacts.demo_scene "s0" 0 "ok" Scenes.completed
                 (Some "/outputs/s0.mp4")) eq_refl)
    as (s' & Hs' & _ & _ & Hcode & _ & Hstatus & Hurl & _ & Hneeds).
  exists s'. split; [exact Hs'|]. split; [exact Hcode|].
  split; [exact Hstatus|]. split; [exact Hurl | exact Hneeds].
Defined.

(** ** An uploaded audio file *)

Lemma rfind_from_range c s :
  forall i found,
    rfind_from c s i found = found \/ (i <= rfind_from c s i found)%Z.
Proof.
  induction s as [|d s IH]; intros i found; cbn [rfind_from]; [by left|].
  destruct (IH (i + 1)%Z (if Ascii.eqb d c then i else found)) as [H|H].
  - rewrite H. destruct (Ascii.eqb d c); [right; lia | by left].
  - right. lia.
Qed.

(** After the last slash there is no slash. *)
Lemma no_slash_after_rfind s :
  forall i found n,
    (rfind_from "/" s i found < i + Z.of_nat n)%Z ->
    (found < i)%Z ->
    ServiceMore.has_slash (drop_chars n s) = false.
Proof.
  induction s as [|d s IH]; intros i found n Hlast Hfound.
  - by destruct n.
  - cbn [rfind_from] in Hlast. destruct n as [|n].
    + cbn [drop_chars ServiceMore.has_slash].
      destruct (Ascii.eqb d "/") eqn:Hd.
      * destruct (rfind_from_range "/" s (i + 1)%Z i) as [H|H]; lia.
      * cbn [orb]. apply (IH (i + 1)%Z found 0); lia.
    + cbn [drop_chars].
      apply (IH (i + 1)%Z (if Ascii.eqb d "/" then i else found) n); [lia|].
      destruct (Ascii.eqb d "/"); lia.
Qed.

Lemma splitext_ext_no_slash p : ServiceMore.has_slash (splitext_ext p) = false.
Proof.
  unfold splitext_ext. cbv zeta.
  destruct (rfind "/" p <? rfind "." p)%Z eqn:Hlt; [|done].
  destruct (has_non_dot _); [|done].
  apply Z.ltb_lt in Hlt.
  assert (Hsep : (-1 <= rfind "/" p)%Z).
  { unfold rfind. destruct (rfind_from_range "/" p 0 (-1)) as [H|H]; lia. }
  apply (no_slash_after_rfind p 0 (-1)); [|lia].
  fold (rfind "/" p). lia.
Qed.

(** An upload that is accepted writes the file under the upload
    directory as [<audio_id><ext>], with the extension of the uploaded
    file's name or [.mp3], removes no file (an audio uploaded before
    stays on disk), and sets the project's [audio_url] to
    [/uploads/<audio_id><ext>].  For an [audio_id] without a slash, the
    path under which [compile_project] looks for the audio of that url
    is the path written, so the combiner finds the file. *)
Theorem uploaded_audio_is_found
    (E : Env) (project_id : string) (content_type : option string)
    (file_filename audio_id : string) (st st' : Store)
    (response : Response Audio.AudioUpload) :
  ServiceMore.has_slash audio_id = false ->
  Audio.upload_audio E project_id content_type file_filename audio_id st
  = (st', Returns response) ->
  exists ext p',
    ext = (if truthy (splitext_ext file_filename)
           then splitext_ext file_filename else ".mp3")
    /\ projects_db st' !! project_id = Some p'
    /\ audio_url (fields p') = Some ("/uploads/" +:+ audio_id +:+ ext)
    /\ scenes_db st' = scenes_db st
    /\ files (world st')
       = {[ path_join (upload_dir_abs E) (audio_id +:+ ext) ]}
         ∪ files (world st)
    /\ path_exists (world st')
         (path_join (upload_dir_abs E)
            (basename ("/uploads/" +:+ audio_id +:+ ext))) = true.
Proof.
  intros Hid. unfold Audio.upload_audio.
  destruct (projects_db st !! project_id) as [p|] eqn:Hp; [|done].
  destruct (negb _); [done|]. cbv zeta.
  set (ext := if truthy (splitext_ext file_filename)
              then splitext_ext file_filename else ".mp3").
  intros [= <- _]. exists ext. eexists. split; [reflexivity|].
  unfold write_project.
  cbn [set_projects_db set_world projects_db scenes_db world].
  rewrite !lookup_alter_eq, Hp.
  cbn [fmap option_fmap option_map]. split; [reflexivity|].
  split; [reflexivity|]. split; [reflexivity|]. split; [reflexivity|].
  rewrite ServiceMore.basename_uploads.
  - apply ServiceMore.path_exists_true. cbn [add_file files]. set_solver.
  - rewrite ServiceMore.has_slash_app, Hid. unfold ext.
    destruct (truthy (splitext_ext file_filename)); [|done].
    apply splitext_ext_no_slash.
Qed.

Lemma uploaded_audio_is_found_witness :
  exists ext p',
    ext = ".wav"
    /\ projects_db
         (fst (Audio.upload_audio CombinerFacts.demo_env "p" (Some "audio/wav")
                 "my song.wav" "a1" demo_store)) !! "p" = Some p'
    /\ audio_url (fields p') = Some ("/uploads/" +:+ "a1" +:+ ext)
    /\ path_exists
         (world (fst (Audio.upload_audio CombinerFacts.demo_env "p"
                        (Some "audio/wav") "my song.wav" "a1" demo_store)))
         (path_join (upload_dir_abs CombinerFacts.demo_env)
            (basename ("/uploads/" +:+ "a1" +:+ ext))) = true.
Proof.
  destruct (uploaded_audio_is_found CombinerFacts.demo_env "p"
              (Some "audio/wav") "my song.wav" "a1" demo_store
              (fst (Audio.upload_audio CombinerFacts.demo_env "p"
                      (Some "audio/wav") "my song.wav" "a1" demo_store))
              {| success := true;
                 data := Some {| Audio.id := "a1"; Audio.project_id := "p";
                                 Audio.filename := "my song.wav";
                                 Audio.url := "/uploads/a1.wav";
                                 Audio.duration_seconds := None;
                                 Audio.created_at := 0 |};
                 message := Some "Audio uploaded successfully" |}
              eq_refl eq_refl)
    as (ext & p' & Hext & Hp' & Hurl & _ & _ & Hfound).
  exists ext, p'. split; [exact Hext|]. split; [exact Hp'|].
  split; [exact Hurl | exact Hfound].
Defined.

End RouteFacts.
